(** * blenderAutoBake: the per-material texture baker, embedded in Rocq

    Shallow embedding of [blender_texture_bakingBYMaterial_automation_ue5_v003.py]
    (classes [BakeConstants], [FileManager], [MaterialManager], [TextureBaker]).

    The script drives Blender through [bpy].  The parts of Blender the script
    talks to are modelled as plain data:
    - the scene is a list of objects, a material slot holds an optional
      material handle ([mat_id], Python object identity);
    - [bpy.data.materials] is a list of materials, each owning an optional
      node tree (a list of nodes and a list of links between sockets);
    - a UV coordinate is a Python float: a rational, an infinity or a NaN;
    - the renderer, the file system, Python's [hash], the order [list.sort]
      leaves of pairs with a NaN and Blender's way of making a material name
      unique are parameters.

    Python exceptions are made explicit with the [result] type; code that
    mutates Blender data threads a [World] value. *)

From Stdlib Require Import List Bool Arith ZArith QArith Lia String Ascii.
From Stdlib Require Import Permutation Sorted.
Import ListNotations.

Close Scope Q_scope.
Local Open Scope string_scope.
Local Open Scope list_scope.

(** ** Python exceptions *)

Inductive exn : Type :=
| IndexError (what : string)
| AttributeError (what : string)
| OSError (path : string)
| ReferenceError (what : string)
| RuntimeError (msg : string)
| Exception (msg : string).

Inductive result (A : Type) : Type :=
| Ok (a : A)
| Raise (e : exn).
Arguments Ok {A} a.
Arguments Raise {A} e.

Definition is_ok {A} (r : result A) : bool :=
  match r with Ok _ => true | Raise _ => false end.

(** ** Python strings: [str.split], [str.join] and f-strings *)

Module PyStr.

(** [s.split(sep)] for a one-character separator. *)
Fixpoint split (sep : ascii) (s : string) : list string :=
  match s with
  | EmptyString => [EmptyString]
  | String c s' =>
      if Ascii.eqb c sep then EmptyString :: split sep s'
      else match split sep s' with
           | [] => [String c EmptyString]
           | p :: ps => String c p :: ps
           end
  end.

(** [sep.join(parts)]. *)
Definition join (sep : string) (parts : list string) : string :=
  String.concat sep parts.

Fixpoint contains (c : ascii) (s : string) : bool :=
  match s with
  | EmptyString => false
  | String d s' => Ascii.eqb d c || contains c s'
  end.

Definition underscore : ascii := "_"%char.

End PyStr.

(** ** UV coordinates *)

(** A Python float: a finite value, taken as the rational it denotes, an
    infinity or a NaN. *)
Inductive pyfloat : Type :=
| Finite (q : Q)
| PosInf
| NegInf
| NaN.

(** [round(x, 4)] of a finite float, kept as the number of ten-thousandths,
    rounding half to even as Python does. *)
Definition round_half_even (x : Q) : Z :=
  let n := (Qnum x * 10000)%Z in
  let d := Zpos (Qden x) in
  let fl := (n / d)%Z in
  let r := (n mod d)%Z in
  match (2 * r ?= d)%Z with
  | Lt => fl
  | Gt => (fl + 1)%Z
  | Eq => if Z.even fl then fl else (fl + 1)%Z
  end.

(** A rounded coordinate: [round] gives an infinity and a NaN back as they
    are. *)
Inductive coord : Type :=
| Num (ten_thousandths : Z)
| Inf (positive : bool)
| NotANumber.

(** [round(x, 4)] *)
Definition round4 (x : pyfloat) : coord :=
  match x with
  | Finite q => Num (round_half_even q)
  | PosInf => Inf true
  | NegInf => Inf false
  | NaN => NotANumber
  end.

(** [a < b] and [a == b] on floats: both are false as soon as one side is a
    NaN (the rounded values of two coordinates are two objects, so Python's
    shortcut for one and the same object never applies). *)
Definition coord_lt (a b : coord) : bool :=
  match a, b with
  | Num x, Num y => (x <? y)%Z
  | Num _, Inf positive => positive
  | Inf positive, Num _ => negb positive
  | Inf p, Inf q => negb p && q
  | _, _ => false
  end.

Definition coord_eq (a b : coord) : bool :=
  match a, b with
  | Num x, Num y => (x =? y)%Z
  | Inf p, Inf q => Bool.eqb p q
  | _, _ => false
  end.

Definition uv_coord : Type := (coord * coord)%type.

(** Tuple comparison [a < b]: the first components that are not [==] decide. *)
Definition uv_lt (a b : uv_coord) : bool :=
  if negb (coord_eq (fst a) (fst b)) then coord_lt (fst a) (fst b)
  else if negb (coord_eq (snd a) (snd b)) then coord_lt (snd a) (snd b)
  else false.

Definition is_nan (c : coord) : bool :=
  match c with NotANumber => true | _ => false end.

Definition has_nan (p : uv_coord) : bool := is_nan (fst p) || is_nan (snd p).

(** [not (b < a)]: on pairs without NaN this is [a <= b], a total order. *)
Definition uv_leb (a b : uv_coord) : bool := negb (uv_lt b a).

Fixpoint insert_sorted (x : uv_coord) (l : list uv_coord) : list uv_coord :=
  match l with
  | [] => [x]
  | y :: ys => if uv_leb x y then x :: l else y :: insert_sorted x ys
  end.

(** [uv_coords.sort()] on pairs without NaN: the pairs in ascending order.
    Their comparison is a total order, so every correct sort gives this
    list. *)
Fixpoint sort_numbers (l : list uv_coord) : list uv_coord :=
  match l with
  | [] => []
  | x :: xs => insert_sorted x (sort_numbers xs)
  end.

(** No pair of the list is less than the pair before it.  Such a list is one
    ascending run for [list.sort], which leaves it as it is. *)
Fixpoint ascending (l : list uv_coord) : bool :=
  match l with
  | x :: (y :: _) as rest => negb (uv_lt y x) && ascending rest
  | _ => true
  end.

(** ** Scene data *)

(** Python object identity: a material is named by a handle, an object by its
    position in [bpy.context.scene.objects]. *)
Abbreviation mat_id := nat (only parsing).
Abbreviation obj_id := nat (only parsing).

Inductive ObjType : Type := MESH | OTHER_OBJECT (kind : string).

Definition is_mesh (t : ObjType) : bool :=
  match t with MESH => true | OTHER_OBJECT _ => false end.

Record Polygon : Type := {
  material_index : nat;
  loop_indices : list nat
}.

Record UVLayer : Type := { uv_data : list (pyfloat * pyfloat) }.

Record Mesh : Type := {
  uv_layers : list UVLayer;
  uv_active_index : nat;
  polygons : list Polygon
}.

(** [uv_layers.active]: [None] when the active index names no layer. *)
Definition uv_layers_active (m : Mesh) : option UVLayer :=
  nth_error (uv_layers m) (uv_active_index m).

(** An object of [bpy.context.scene.objects].  The objects of a collection
    that is excluded from the view layer are objects of the scene all the
    same; [in_view_layer] tells whether the view layer holds the object. *)
Record Object : Type := {
  obj_name : string;
  obj_type : ObjType;
  material_slots : list (option mat_id);
  data : Mesh;
  in_view_layer : bool
}.

(** ** UV fingerprints *)

Inductive fingerprint : Type :=
| no_uv
| material_not_found
| empty_uv
| uv_hash (h : Z).

Definition fingerprint_eqb (a b : fingerprint) : bool :=
  match a, b with
  | no_uv, no_uv => true
  | material_not_found, material_not_found => true
  | empty_uv, empty_uv => true
  | uv_hash x, uv_hash y => (x =? y)%Z
  | _, _ => false
  end.

(** [fp in ['no_uv', 'material_not_found', 'empty_uv']] *)
Definition is_sentinel (fp : fingerprint) : bool :=
  match fp with uv_hash _ => false | _ => true end.

Definition slot_eqb (a b : option mat_id) : bool :=
  match a, b with
  | Some x, Some y => Nat.eqb x y
  | None, None => true
  | _, _ => false
  end.

(** A Python dict keyed by slot materials, in insertion order. *)
Fixpoint dict_set {V} (d : list (option mat_id * V)) (k : option mat_id) (v : V)
  : list (option mat_id * V) :=
  match d with
  | [] => [(k, v)]
  | (k', v') :: d' =>
      if slot_eqb k' k then (k', v) :: d' else (k', v') :: dict_set d' k v
  end.

Definition dict_mem {V} (k : option mat_id) (d : list (option mat_id * V)) : bool :=
  existsb (fun kv => slot_eqb (fst kv) k) d.

Fixpoint enumerate_from {A} (i : nat) (l : list A) : list (nat * A) :=
  match l with
  | [] => []
  | x :: xs => (i, x) :: enumerate_from (S i) xs
  end.

(** [{slot.material: i for i, slot in enumerate(obj.material_slots)}] *)
Definition material_indices (slots : list (option mat_id)) : list (option mat_id * nat) :=
  fold_left (fun d p => dict_set d (snd p) (fst p)) (enumerate_from 0 slots) [].

(** The inner loop of [get_uv_hash]: the loops of one polygon. *)
Fixpoint collect_loops (m : Mesh) (idxs : list nat) (acc : list uv_coord)
  : result (list uv_coord) :=
  match idxs with
  | [] => Ok acc
  | loop_idx :: rest =>
      match uv_layers_active m with
      | None => Raise (AttributeError "data")
      | Some layer =>
          match nth_error (uv_data layer) loop_idx with
          | None => Raise (IndexError "uv_layers.active.data")
          | Some uv =>
              collect_loops m rest (acc ++ [(round4 (fst uv), round4 (snd uv))])
          end
      end
  end.

(** The outer loop of [get_uv_hash]: the polygons of the mesh. *)
Fixpoint collect_polygons (obj : Object) (material : option mat_id)
  (polys : list Polygon) (acc : list uv_coord) : result (list uv_coord) :=
  match polys with
  | [] => Ok acc
  | poly :: rest =>
      if Nat.ltb (material_index poly) (List.length (material_slots obj)) then
        match nth_error (material_slots obj) (material_index poly) with
        | None => Raise (IndexError "material_slots")
        | Some slot =>
            if slot_eqb slot material then
              match collect_loops (data obj) (loop_indices poly) acc with
              | Raise e => Raise e
              | Ok acc' => collect_polygons obj material rest acc'
              end
            else collect_polygons obj material rest acc
        end
      else collect_polygons obj material rest acc
  end.

(** The same object with another polygon list (another face order, or some
    faces left out). *)
Definition set_polygons (polys : list Polygon) (obj : Object) : Object :=
  {| obj_name := obj_name obj; obj_type := obj_type obj;
     material_slots := material_slots obj;
     data := {| uv_layers := uv_layers (data obj);
                uv_active_index := uv_active_index (data obj);
                polygons := polys |};
     in_view_layer := in_view_layer obj |}.

(** A polygon whose [material_index] names a slot of the object. *)
Definition index_in_range (obj : Object) (poly : Polygon) : bool :=
  Nat.ltb (material_index poly) (List.length (material_slots obj)).

Definition uv_le (a b : uv_coord) : Prop := uv_leb a b = true.

(** The place of a coordinate that is no NaN in the order of the floats:
    first the negative infinity, then the finite values, then the positive
    infinity. *)
Definition coord_key (c : coord) : Z * Z :=
  match c with
  | Num z => (0, z)
  | Inf true => (1, 0)
  | Inf false => (-1, 0)
  | NotANumber => (0, 0)
  end%Z.

(** No pair of the list holds a NaN. *)
Definition numbers (l : list uv_coord) : Prop :=
  forall p, In p l -> has_nan p = false.

(** The one exception reading the active UV layer of a mesh can raise. *)
Definition loop_error (m : Mesh) : exn :=
  match uv_layers_active m with
  | None => AttributeError "data"
  | Some _ => IndexError "uv_layers.active.data"
  end.

(** ** Shading graphs

    A node tree is a list of nodes and a list of links.  A socket is named by
    its node, its side and its identifier; a link is a pair of sockets, as
    [setup_metallic_nodes] snapshots them.

    Blender's side of the API, as modelled here:
    - [nodes.new] appends a node that carries the default label of its kind;
      assigning [node.name] stores the name as written (Blender would add a
      numeric suffix to a name already taken in the tree);
    - [nodes.remove] also removes every link attached to the node;
    - a node has the socket the script asks it for: [Metallic] on a
      Principled node, [Strength] on an emission node, [Surface] on the node
      named [Material Output] (which it has when it is an output node,
      [surface_ready] below);
    - [links.new] replaces whatever was linked into the destination socket
      (an input takes one link); given a socket of a node that is no longer
      in the tree it makes no link and raises nothing;
    - a [for] loop over a Blender collection visits the members that were
      present when the loop started. *)

Inductive NodeType : Type :=
| BSDF_PRINCIPLED
| OUTPUT_MATERIAL
| EMISSION
| VALUE
| TEX_IMAGE
| OTHER_NODE (kind : string).

Definition NodeType_eqb (a b : NodeType) : bool :=
  match a, b with
  | BSDF_PRINCIPLED, BSDF_PRINCIPLED => true
  | OUTPUT_MATERIAL, OUTPUT_MATERIAL => true
  | EMISSION, EMISSION => true
  | VALUE, VALUE => true
  | TEX_IMAGE, TEX_IMAGE => true
  | OTHER_NODE x, OTHER_NODE y => String.eqb x y
  | _, _ => false
  end.

(** The node classes the script instantiates with [nodes.new]. *)
Inductive bl_idname : Type :=
| ShaderNodeTexImage
| ShaderNodeEmission
| ShaderNodeOutputMaterial
| ShaderNodeBsdfPrincipled
| ShaderNodeValue.

Definition type_of_idname (c : bl_idname) : NodeType :=
  match c with
  | ShaderNodeTexImage => TEX_IMAGE
  | ShaderNodeEmission => EMISSION
  | ShaderNodeOutputMaterial => OUTPUT_MATERIAL
  | ShaderNodeBsdfPrincipled => BSDF_PRINCIPLED
  | ShaderNodeValue => VALUE
  end.

Definition label_of_idname (c : bl_idname) : string :=
  match c with
  | ShaderNodeTexImage => "Image Texture"
  | ShaderNodeEmission => "Emission"
  | ShaderNodeOutputMaterial => "Material Output"
  | ShaderNodeBsdfPrincipled => "Principled BSDF"
  | ShaderNodeValue => "Value"
  end.

Abbreviation node_id := nat (only parsing).

Record Node : Type := {
  node_ident : node_id;
  node_name : string;
  node_type : NodeType;
  node_select : bool;
  node_image : option string;
  metallic_default : Q;
  output_default : Q
}.

Record Socket : Type := {
  sock_node : node_id;
  sock_is_output : bool;
  sock_key : string
}.

Definition Socket_eqb (a b : Socket) : bool :=
  Nat.eqb (sock_node a) (sock_node b)
  && Bool.eqb (sock_is_output a) (sock_is_output b)
  && String.eqb (sock_key a) (sock_key b).

(** [node.inputs[key]] *)
Definition node_input (n : Node) (key : string) : Socket :=
  {| sock_node := node_ident n; sock_is_output := false; sock_key := key |}.

(** [node.outputs[0]]: the first output of the kinds the script creates. *)
Definition output0_key (t : NodeType) : string :=
  match t with
  | BSDF_PRINCIPLED => "BSDF"
  | OUTPUT_MATERIAL => ""
  | EMISSION => "Emission"
  | VALUE => "Value"
  | TEX_IMAGE => "Color"
  | OTHER_NODE _ => "Output"
  end.

Definition node_output0 (n : Node) : Socket :=
  {| sock_node := node_ident n; sock_is_output := true;
     sock_key := output0_key (node_type n) |}.

Record Link : Type := {
  from_socket : Socket;
  to_socket : Socket
}.

Record NodeTree : Type := {
  nodes : list Node;
  links : list Link;
  nodes_active : option node_id
}.

(** The identity of a node created next: one not borne by any present node. *)
Definition fresh_node_id (t : NodeTree) : node_id :=
  S (list_max (map node_ident (nodes t))).

Definition has_node (t : NodeTree) (i : node_id) : bool :=
  existsb (fun n => Nat.eqb (node_ident n) i) (nodes t).

(** [nodes.new(idname)]: Blender hands out the new node selected. *)
Definition nodes_new (c : bl_idname) (t : NodeTree) : Node * NodeTree :=
  let n := {| node_ident := fresh_node_id t;
              node_name := label_of_idname c;
              node_type := type_of_idname c;
              node_select := true;
              node_image := None;
              metallic_default := 0%Q;
              output_default := 0%Q |} in
  (n, {| nodes := nodes t ++ [n];
         links := links t;
         nodes_active := nodes_active t |}).

(** [nodes.get(name)] *)
Definition nodes_get (name : string) (t : NodeTree) : option Node :=
  find (fun n => String.eqb (node_name n) name) (nodes t).

Definition link_touches (i : node_id) (l : Link) : bool :=
  Nat.eqb (sock_node (from_socket l)) i || Nat.eqb (sock_node (to_socket l)) i.

(** [nodes.remove(node)] *)
Definition nodes_remove (i : node_id) (t : NodeTree) : NodeTree :=
  {| nodes := filter (fun n => negb (Nat.eqb (node_ident n) i)) (nodes t);
     links := filter (fun l => negb (link_touches i l)) (links t);
     nodes_active :=
       match nodes_active t with
       | Some a => if Nat.eqb a i then None else Some a
       | None => None
       end |}.

(** [links.new(from_socket, to_socket)]: when the node of one of the sockets
    is not in the tree, Blender makes no link and returns [None]; that is no
    error, and the script does not look at the value returned. *)
Definition links_new (src dst : Socket) (t : NodeTree) : result NodeTree :=
  if has_node t (sock_node src) && has_node t (sock_node dst) then
    Ok {| nodes := nodes t;
          links := filter (fun l => negb (Socket_eqb (to_socket l) dst)) (links t)
                   ++ [{| from_socket := src; to_socket := dst |}];
          nodes_active := nodes_active t |}
  else Ok t.

(** [socket.links] of an input socket *)
Definition socket_links (t : NodeTree) (s : Socket) : list Link :=
  filter (fun l => Socket_eqb (to_socket l) s) (links t).

Definition update_node (i : node_id) (f : Node -> Node) (t : NodeTree) : NodeTree :=
  {| nodes := map (fun n => if Nat.eqb (node_ident n) i then f n else n) (nodes t);
     links := links t;
     nodes_active := nodes_active t |}.

Definition set_name (s : string) (n : Node) : Node :=
  {| node_ident := node_ident n; node_name := s; node_type := node_type n;
     node_select := node_select n; node_image := node_image n;
     metallic_default := metallic_default n; output_default := output_default n |}.

Definition set_select (b : bool) (n : Node) : Node :=
  {| node_ident := node_ident n; node_name := node_name n; node_type := node_type n;
     node_select := b; node_image := node_image n;
     metallic_default := metallic_default n; output_default := output_default n |}.

Definition set_image (img : string) (n : Node) : Node :=
  {| node_ident := node_ident n; node_name := node_name n; node_type := node_type n;
     node_select := node_select n; node_image := Some img;
     metallic_default := metallic_default n; output_default := output_default n |}.

Definition set_output_default (v : Q) (n : Node) : Node :=
  {| node_ident := node_ident n; node_name := node_name n; node_type := node_type n;
     node_select := node_select n; node_image := node_image n;
     metallic_default := metallic_default n; output_default := v |}.

Definition set_active (i : node_id) (t : NodeTree) : NodeTree :=
  {| nodes := nodes t; links := links t;
     nodes_active := Some i |}.

(** The tree Blender builds when [use_nodes] is first switched on: a
    Principled BSDF wired into a Material Output. *)
Definition default_tree : NodeTree :=
  let bsdf := {| node_ident := 0; node_name := "Principled BSDF";
                 node_type := BSDF_PRINCIPLED; node_select := false;
                 node_image := None; metallic_default := 0%Q; output_default := 0%Q |} in
  let out := {| node_ident := 1; node_name := "Material Output";
                node_type := OUTPUT_MATERIAL; node_select := false;
                node_image := None; metallic_default := 0%Q; output_default := 0%Q |} in
  {| nodes := [bsdf; out];
     links := [{| from_socket := node_output0 bsdf;
                  to_socket := node_input out "Surface" |}];
     nodes_active := None |}.

(** *** MaterialManager.setup_bake_node, on the tree *)

Definition setup_bake_node_tree (t : NodeTree) : node_id * NodeTree :=
  let t1 := match nodes_get "Bake_Target" t with
            | Some existing => nodes_remove (node_ident existing) t
            | None => t
            end in
  let '(bake_node, t2) := nodes_new ShaderNodeTexImage t1 in
  let t3 := update_node (node_ident bake_node) (set_name "Bake_Target") t2 in
  let t4 := update_node (node_ident bake_node) (set_select true) t3 in
  (node_ident bake_node, set_active (node_ident bake_node) t4).

(** *** MaterialManager.setup_metallic_nodes, on the tree *)

Definition setup_metallic_nodes_tree (t : NodeTree)
  : result (list Link) * NodeTree :=
  let original_links := links t in
  let '(emit, t1) := nodes_new ShaderNodeEmission t in
  let '(output, t2) :=
    match nodes_get "Material Output" t1 with
    | Some o => (o, t1)
    | None => nodes_new ShaderNodeOutputMaterial t1
    end in
  let '(principled, t3) :=
    match find (fun n => NodeType_eqb (node_type n) BSDF_PRINCIPLED) (nodes t2) with
    | Some p => (p, t2)
    | None => nodes_new ShaderNodeBsdfPrincipled t2
    end in
  let metallic_socket := node_input principled "Metallic" in
  let '(linked, t5) :=
    match socket_links t3 metallic_socket with
    | l :: _ => (links_new (from_socket l) (node_input emit "Strength") t3, t3)
    | [] =>
        let '(value, t4) := nodes_new ShaderNodeValue t3 in
        let t4' := update_node (node_ident value)
                     (set_output_default (metallic_default principled)) t4 in
        (links_new (node_output0 value) (node_input emit "Strength") t4', t4')
    end in
  match linked with
  | Raise e => (Raise e, t5)
  | Ok t6 =>
      match links_new (node_output0 emit) (node_input output "Surface") t6 with
      | Raise e => (Raise e, t6)
      | Ok t7 => (Ok original_links, t7)
      end
  end.

(** *** MaterialManager.restore_material_links, on the tree *)

Definition is_temporary (n : Node) : bool :=
  match node_type n with
  | EMISSION | VALUE => true
  | _ => false
  end.

Definition remove_temporary_nodes (t : NodeTree) : NodeTree :=
  fold_left (fun acc n => if is_temporary n then nodes_remove (node_ident n) acc else acc)
            (nodes t) t.

Fixpoint relink (original_links : list Link) (t : NodeTree)
  : result unit * NodeTree :=
  match original_links with
  | [] => (Ok tt, t)
  | l :: rest =>
      match links_new (from_socket l) (to_socket l) t with
      | Raise e => (Raise e, t)
      | Ok t' => relink rest t'
      end
  end.

Definition restore_material_links_tree (original_links : list Link) (t : NodeTree)
  : result unit * NodeTree :=
  relink original_links (remove_temporary_nodes t).

(** *** Conditions on a tree under which the metallic reroute can be undone *)

(** Every link joins sockets of nodes of the tree. *)
Definition links_attached (t : NodeTree) : Prop :=
  forall l, In l (links t) ->
            has_node t (sock_node (from_socket l)) = true
            /\ has_node t (sock_node (to_socket l)) = true.




(** The identities of the nodes [restore_material_links] removes. *)
Definition temporary_ids (l : list Node) : list node_id :=
  map node_ident (filter is_temporary l).

Definition id_in (ids : list node_id) (i : node_id) : bool :=
  existsb (Nat.eqb i) ids.

(** ** Materials, the world and the trace *)

Record Material : Type := {
  mat_ident : mat_id;
  mat_name : string;
  use_nodes : bool;
  node_tree : option NodeTree;
  (** users other than the material slots of the scene (fake user, other data) *)
  extra_users : nat;
  (** [material.library is not None]: the material is linked from another
      file *)
  mat_linked : bool
}.

(** What a run does to the outside, in order.  A bake event carries the
    material being processed, the active object the renderer reads and
    whether the call raised; a save event carries the path handed to
    [save_render] and the file name it was joined from. *)
Inductive Event : Type :=
| EvMaterial (material : mat_id)
| EvReroute (material : mat_id)
| EvRestore (material : mat_id)
| EvBake (bake_type : string) (material : mat_id) (active : option obj_id)
         (raised : bool)
| EvSave (filepath filename : string) (raised : bool).

Record World : Type := {
  scene_objects : list Object;
  bpy_materials : list Material;
  bpy_images : list string;
  selected_objects : list obj_id;
  active_object : option obj_id;
  directories : list string;
  bake_calls : nat;
  save_calls : nat;
  events : list Event
}.

Definition with_objects (f : list Object -> list Object) (w : World) : World :=
  {| scene_objects := f (scene_objects w); bpy_materials := bpy_materials w;
     bpy_images := bpy_images w; selected_objects := selected_objects w;
     active_object := active_object w; directories := directories w;
     bake_calls := bake_calls w;
     save_calls := save_calls w; events := events w |}.

Definition with_materials (f : list Material -> list Material) (w : World) : World :=
  {| scene_objects := scene_objects w; bpy_materials := f (bpy_materials w);
     bpy_images := bpy_images w; selected_objects := selected_objects w;
     active_object := active_object w; directories := directories w;
     bake_calls := bake_calls w;
     save_calls := save_calls w; events := events w |}.

Definition with_images (f : list string -> list string) (w : World) : World :=
  {| scene_objects := scene_objects w; bpy_materials := bpy_materials w;
     bpy_images := f (bpy_images w); selected_objects := selected_objects w;
     active_object := active_object w; directories := directories w;
     bake_calls := bake_calls w;
     save_calls := save_calls w; events := events w |}.

Definition with_selection (sel : list obj_id) (act : option obj_id) (w : World) : World :=
  {| scene_objects := scene_objects w; bpy_materials := bpy_materials w;
     bpy_images := bpy_images w; selected_objects := sel;
     active_object := act; directories := directories w;
     bake_calls := bake_calls w;
     save_calls := save_calls w; events := events w |}.

Definition with_directories (f : list string -> list string) (w : World) : World :=
  {| scene_objects := scene_objects w; bpy_materials := bpy_materials w;
     bpy_images := bpy_images w; selected_objects := selected_objects w;
     active_object := active_object w; directories := f (directories w);
     bake_calls := bake_calls w;
     save_calls := save_calls w; events := events w |}.

Definition with_counters (b s : nat) (w : World) : World :=
  {| scene_objects := scene_objects w; bpy_materials := bpy_materials w;
     bpy_images := bpy_images w; selected_objects := selected_objects w;
     active_object := active_object w; directories := directories w;
     bake_calls := b;
     save_calls := s; events := events w |}.

Definition with_event (e : Event) (w : World) : World :=
  {| scene_objects := scene_objects w; bpy_materials := bpy_materials w;
     bpy_images := bpy_images w; selected_objects := selected_objects w;
     active_object := active_object w; directories := directories w;
     bake_calls := bake_calls w;
     save_calls := save_calls w; events := events w ++ [e] |}.

(** ** Stateful code that may raise *)

Definition M (A : Type) : Type := World -> result A * World.

Definition ret {A} (a : A) : M A := fun w => (Ok a, w).

Definition raise {A} (e : exn) : M A := fun w => (Raise e, w).

Definition bind {A B} (m : M A) (k : A -> M B) : M B :=
  fun w => match m w with
           | (Ok a, w') => k a w'
           | (Raise e, w') => (Raise e, w')
           end.

Notation "x <- m ;; k" := (bind m (fun x => k))
  (at level 61, m at next level, right associativity).
Notation "m ;;; k" := (bind m (fun _ => k))
  (at level 61, right associativity).

(** [try: m  except Exception: handler] *)
Definition try_except {A} (m : M A) (handler : exn -> M A) : M A :=
  fun w => match m w with
           | (Ok a, w') => (Ok a, w')
           | (Raise e, w') => handler e w'
           end.

(** [try: m  finally: cleanup] *)
Definition try_finally {A} (m : M A) (cleanup : M unit) : M A :=
  fun w => match m w with
           | (r, w') =>
               match cleanup w' with
               | (Ok _, w'') => (r, w'')
               | (Raise e, w'') => (Raise e, w'')
               end
           end.

Definition lift {A} (r : result A) : M A := fun w => (r, w).

Definition modify (f : World -> World) : M unit := fun w => (Ok tt, f w).

Definition log (e : Event) : M unit := modify (with_event e).

Fixpoint for_each {A} (l : list A) (body : A -> M unit) : M unit :=
  match l with
  | [] => ret tt
  | x :: xs => body x ;;; for_each xs body
  end.

(** *** Handles *)

Definition find_material (m : mat_id) (w : World) : option Material :=
  find (fun mat => Nat.eqb (mat_ident mat) m) (bpy_materials w).

Definition get_material (m : mat_id) : M Material :=
  fun w => match find_material m w with
           | Some mat => (Ok mat, w)
           | None => (Raise (ReferenceError "material"), w)
           end.

Definition put_material (mat : Material) : M unit :=
  modify (with_materials
            (map (fun old => if Nat.eqb (mat_ident old) (mat_ident mat)
                             then mat else old))).

Definition get_object (o : obj_id) : M Object :=
  fun w => match nth_error (scene_objects w) o with
           | Some obj => (Ok obj, w)
           | None => (Raise (ReferenceError "object"), w)
           end.

Definition rename_material (name : string) (mat : Material) : Material :=
  {| mat_ident := mat_ident mat; mat_name := name; use_nodes := use_nodes mat;
     node_tree := node_tree mat; extra_users := extra_users mat;
     mat_linked := mat_linked mat |}.

Definition with_tree (use : bool) (t : option NodeTree) (mat : Material) : Material :=
  {| mat_ident := mat_ident mat; mat_name := mat_name mat; use_nodes := use;
     node_tree := t; extra_users := extra_users mat;
     mat_linked := mat_linked mat |}.

(** The names of the materials other than [m]. *)
Definition other_names (m : mat_id) (w : World) : list string :=
  map mat_name
      (filter (fun mat => negb (Nat.eqb (mat_ident mat) m)) (bpy_materials w)).

(** A usage is the pair [(obj, slot)] the resolver stores: the object and the
    position of the slot in its slot list. *)
Abbreviation usage := (obj_id * nat)%type (only parsing).

(** [slot.material] *)
Definition read_slot (u : usage) : M (option mat_id) :=
  obj <- get_object (fst u) ;;
  match nth_error (material_slots obj) (snd u) with
  | Some s => ret s
  | None => raise (ReferenceError "slot")
  end.

Fixpoint list_set {A} (l : list A) (i : nat) (x : A) : list A :=
  match l, i with
  | [], _ => []
  | _ :: t, O => x :: t
  | h :: t, S j => h :: list_set t j x
  end.

Definition set_slots (slots : list (option mat_id)) (obj : Object) : Object :=
  {| obj_name := obj_name obj; obj_type := obj_type obj;
     material_slots := slots; data := data obj;
     in_view_layer := in_view_layer obj |}.

(** [slot.material = material] *)
Definition write_slot (u : usage) (m : option mat_id) : M unit :=
  obj <- get_object (fst u) ;;
  modify (with_objects
            (fun objs => list_set objs (fst u)
                           (set_slots (list_set (material_slots obj) (snd u) m) obj))).

(** [material.users] *)
Definition slot_count (m : mat_id) (obj : Object) : nat :=
  List.length (filter (slot_eqb (Some m)) (material_slots obj)).

Definition users (w : World) (mat : Material) : nat :=
  extra_users mat
  + list_sum (map (slot_count (mat_ident mat)) (scene_objects w)).

(** ** BakeConstants *)

Definition TEXTURE_SIZE : nat := 2048.
Definition SAMPLES : nat := 512.

(** [BAKE_TYPES.items()], in the order the dict literal lists them. *)
Definition BAKE_TYPES : list (string * string) :=
  [("DIFFUSE", "diffuse"); ("NORMAL", "normal"); ("ROUGHNESS", "roughness");
   ("AO", "ao"); ("EMIT", "metallic")].

(** The naming convention of [_bake_all_maps]. *)
Definition map_name_of (material_name suffix : string) : string :=
  let material_parts := PyStr.split PyStr.underscore material_name in
  if Nat.ltb 1 (List.length material_parts) then
    let base_material_name := hd "" material_parts in
    let object_name := PyStr.join "_" (tl material_parts) in
    base_material_name ++ "_" ++ object_name ++ "_" ++ suffix
  else material_name ++ "_" ++ suffix.

(** ** The resolver's dict: [(material, uv_hash) -> [(obj, slot), ...]] *)

Abbreviation usage_key := (mat_id * fingerprint)%type (only parsing).

Definition usage_key_eqb (a b : usage_key) : bool :=
  Nat.eqb (fst a) (fst b) && fingerprint_eqb (snd a) (snd b).

Fixpoint usage_append (d : list (usage_key * list usage)) (k : usage_key) (u : usage)
  : list (usage_key * list usage) :=
  match d with
  | [] => [(k, [u])]
  | (k', us) :: d' =>
      if usage_key_eqb k' k then (k', us ++ [u]) :: d'
      else (k', us) :: usage_append d' k u
  end.

(** [uv_groups] of [bake_material]: fingerprint -> objects *)
Fixpoint group_append (d : list (fingerprint * list obj_id)) (k : fingerprint)
  (o : obj_id) : list (fingerprint * list obj_id) :=
  match d with
  | [] => [(k, [o])]
  | (k', os) :: d' =>
      if fingerprint_eqb k' k then (k', os ++ [o]) :: d'
      else (k', os) :: group_append d' k o
  end.

Record Report : Type := {
  success_count : nat;
  total : nat;
  output_path : string
}.

(** ** Example scenes

    Two meshes [A] and [B] that share one material [M], once with different
    UV layouts and once with the same layout; graphs without links and with
    an emission node placed by the artist; a renderer that never fails and
    one that fails on its first call. *)

Module Example.

(** Blender storing names as they are written, as it does with the names of
    the scenes below: none is long, none is taken. *)
Definition as_written (others : list string) (name : string) : string := name.

Definition code (c : coord) : Z :=
  match c with
  | Num z => z
  | Inf true => 314159
  | Inf false => -314159
  | NotANumber => 271828
  end%Z.

Definition hash (l : list uv_coord) : Z :=
  fold_left (fun acc p => (acc * 31 + code (fst p) * 7 + code (snd p))%Z) l 17%Z.

(** A [list.sort] that leaves every list with a NaN as it finds it. *)
Definition unsorted (l : list uv_coord) : list uv_coord := l.

Definition finite (l : list (Q * Q)) : list (pyfloat * pyfloat) :=
  map (fun p => (Finite (fst p), Finite (snd p))) l.

Definition pairs (l : list (Z * Z)) : list uv_coord :=
  map (fun p => (Num (fst p), Num (snd p))) l.

Definition order (l : list mat_id) : list mat_id := nodup Nat.eq_dec l.

Definition never (_ : nat) : bool := false.
Definition first_call (n : nat) : bool := Nat.eqb n 0.
Definition fifth_call (n : nat) : bool := Nat.eqb n 4.
Definition no_path_fails (_ : string) : bool := false.
Definition dirname (_ : string) : string := "/project".
Definition join (a b : string) : string := (a ++ "/" ++ b)%string.

Definition layout1 : UVLayer :=
  {| uv_data := finite [(0 # 1, 0 # 1); (1 # 1, 0 # 1); (1 # 2, 1 # 3)]%Q |}.
Definition layout2 : UVLayer :=
  {| uv_data := finite [(0 # 1, 0 # 1); (1 # 1, 1 # 1); (1 # 2, 1 # 3)]%Q |}.
(** [layout1] with its loops stored in another order *)
Definition layout1_shuffled : UVLayer :=
  {| uv_data := finite [(1 # 2, 1 # 3); (0 # 1, 0 # 1); (1 # 1, 0 # 1)]%Q |}.

Definition triangle : Polygon :=
  {| material_index := 0; loop_indices := [0; 1; 2] |}.
(** a face whose material index names no slot *)
Definition stray : Polygon :=
  {| material_index := 7; loop_indices := [0; 1; 2] |}.

Definition mesh_of (layer : UVLayer) (polys : list Polygon) : Mesh :=
  {| uv_layers := [layer]; uv_active_index := 0; polygons := polys |}.

Definition object_of (name : string) (mesh : Mesh) : Object :=
  {| obj_name := name; obj_type := MESH; material_slots := [Some 0];
     data := mesh; in_view_layer := true |}.

Definition A : Object := object_of "A" (mesh_of layout1 [triangle]).
Definition B : Object := object_of "B" (mesh_of layout2 [triangle]).
Definition B_like_A : Object := object_of "B" (mesh_of layout1_shuffled [triangle]).
Definition A_stray : Object := object_of "A" (mesh_of layout1 [stray]).


(** a mesh of two one-loop faces, the first with a NaN for its [u], and the
    same mesh with the two faces in the other order *)
Definition layout_nan : UVLayer :=
  {| uv_data := [(NaN, Finite 0); (Finite 0, Finite 0)] |}.
Definition face0 : Polygon := {| material_index := 0; loop_indices := [0] |}.
Definition face1 : Polygon := {| material_index := 0; loop_indices := [1] |}.
Definition D : Object := object_of "D" (mesh_of layout_nan [face0; face1]).
Definition D_reversed : Object := object_of "D" (mesh_of layout_nan [face1; face0]).
Definition no_uv_object : Object :=
  {| obj_name := "N"; obj_type := MESH; material_slots := [Some 0];
     data := {| uv_layers := []; uv_active_index := 0; polygons := [triangle] |};
     in_view_layer := true |}.

Definition material_of (t : NodeTree) : Material :=
  {| mat_ident := 0; mat_name := "M"; use_nodes := true; node_tree := Some t;
     extra_users := 0; mat_linked := false |}.

Definition world_of (objs : list Object) (t : NodeTree) : World :=
  {| scene_objects := objs; bpy_materials := [material_of t]; bpy_images := [];
     selected_objects := []; active_object := None; directories := [];
     bake_calls := 0; save_calls := 0; events := [] |}.

Definition principled : Node :=
  {| node_ident := 0; node_name := "Principled BSDF"; node_type := BSDF_PRINCIPLED;
     node_select := false; node_image := None;
     metallic_default := 0%Q; output_default := 0%Q |}.
Definition output : Node :=
  {| node_ident := 1; node_name := "Material Output"; node_type := OUTPUT_MATERIAL;
     node_select := false; node_image := None;
     metallic_default := 0%Q; output_default := 0%Q |}.
Definition artist_emission : Node :=
  {| node_ident := 2; node_name := "Glow"; node_type := EMISSION;
     node_select := false; node_image := None;
     metallic_default := 0%Q; output_default := 0%Q |}.

(** a Principled BSDF and a Material Output that nothing links *)
Definition tree_no_links : NodeTree :=
  {| nodes := [principled; output]; links := []; nodes_active := None |}.

(** the default graph and an emission node of the artist's own *)
Definition tree_with_emission : NodeTree :=
  {| nodes := [principled; output; artist_emission];
     links := links default_tree; nodes_active := None |}.

(** a second material [N] and a mesh [C] of its own *)
Definition C : Object :=
  {| obj_name := "C"; obj_type := MESH; material_slots := [Some 1];
     data := mesh_of layout2 [triangle]; in_view_layer := true |}.

Definition two_materials : World :=
  {| scene_objects := [A; C];
     bpy_materials :=
       [material_of default_tree;
        {| mat_ident := 1; mat_name := "N"; use_nodes := true;
           node_tree := Some default_tree; extra_users := 0;
           mat_linked := false |}];
     bpy_images := []; selected_objects := []; active_object := None;
     directories := []; bake_calls := 0; save_calls := 0; events := [] |}.

Definition different_uvs : World := world_of [A; B] default_tree.
Definition same_uvs : World := world_of [A; B_like_A] default_tree.
Definition unlinked : World := world_of [A] tree_no_links.

(** The file names of the saves of a trace. *)
Definition saved_files (evs : list Event) : list string :=
  flat_map (fun e => match e with EvSave _ f _ => [f] | _ => [] end) evs.

Definition restores (evs : list Event) : list mat_id :=
  flat_map (fun e => match e with EvRestore m => [m] | _ => [] end) evs.

Definition reroutes (evs : list Event) : list mat_id :=
  flat_map (fun e => match e with EvReroute m => [m] | _ => [] end) evs.

End Example.

Section Script.

(** Python's [hash] on a tuple of coordinate pairs, as a function of the
    values of the coordinates.  (Python hashes a NaN by the address of the
    float object; for a tuple with a NaN [py_hash] is the hash of one
    evaluation.) *)
Variable py_hash : list uv_coord -> Z.

(** The list [list.sort] leaves of a list in which some pair holds a NaN and
    some pair is less than the pair before it.  The comparisons are then no
    total order, and what comes out depends on the order of the input and on
    the sorting algorithm. *)
Variable sort_with_nan : list uv_coord -> list uv_coord.

(** The name Blender stores when a name is written to a material: the name
    written, cut to the length a name can have and given a numeric suffix
    when one of the other materials, whose names are the first argument,
    bears it already. *)
Variable unique_name : list string -> string -> string.

(** The order in which [list(materials)] enumerates the set built from the
    given insertions. *)
Variable set_order : list mat_id -> list mat_id.

(** The renderer and the file system: whether the n-th call of
    [bpy.ops.object.bake], the n-th call of [image.save_render] and
    [os.makedirs] on a path raise. *)
Variable bake_raises : nat -> bool.
Variable save_raises : nat -> bool.
Variable makedirs_raises : string -> bool.

(** [bpy.data.filepath], [os.path.dirname], [os.path.join] and whether the
    Cycles add-on is registered. *)
Variable blend_filepath : string.
Variable os_path_dirname : string -> string.
Variable os_path_join : string -> string -> string.
Variable cycles_registered : bool.

(** *** Writing [material.name], and [material.copy()] *)

(** [material.name = name]: the name of a material linked from a library is
    read-only ([AttributeError]); otherwise Blender stores what
    [unique_name] makes of the name written. *)
Definition set_material_name (m : mat_id) (name : string) : M unit :=
  mat <- get_material m ;;
  if mat_linked mat then raise (AttributeError "name")
  else
    fun w =>
      put_material (rename_material (unique_name (other_names m w) name) mat) w.

(** [material.copy()]: a new local material with its own copy of the node
    tree, under a name of its own made from the name of the original. *)
Definition material_copy (m : mat_id) : M mat_id :=
  mat <- get_material m ;;
  fun w =>
    let new_id := S (list_max (map mat_ident (bpy_materials w))) in
    let copy := {| mat_ident := new_id;
                   mat_name :=
                     unique_name (map mat_name (bpy_materials w)) (mat_name mat);
                   use_nodes := use_nodes mat; node_tree := node_tree mat;
                   extra_users := 0; mat_linked := false |} in
    (Ok new_id,
     with_materials (fun l => l ++ [copy]) w).

(** *** MaterialManager.get_uv_hash *)

(** [uv_coords.sort()] *)
Definition sort (l : list uv_coord) : list uv_coord :=
  if existsb has_nan l then
    if ascending l then l else sort_with_nan l
  else sort_numbers l.

Definition get_uv_hash (obj : Object) (material : option mat_id)
  : result fingerprint :=
  match uv_layers (data obj) with
  | [] => Ok no_uv
  | _ :: _ =>
      if negb (dict_mem material (material_indices (material_slots obj)))
      then Ok material_not_found
      else
        match collect_polygons obj material (polygons (data obj)) [] with
        | Raise e => Raise e
        | Ok uv_coords =>
            match sort uv_coords with
            | [] => Ok empty_uv
            | sorted => Ok (uv_hash (py_hash sorted))
            end
        end
  end.

(** *** FileManager *)

Definition path_exists (p : string) (w : World) : bool :=
  existsb (String.eqb p) (directories w).

Definition makedirs (p : string) : M unit :=
  if makedirs_raises p then raise (OSError p)
  else modify (with_directories (fun ds => ds ++ [p])).

Definition get_output_path : M string :=
  if String.eqb blend_filepath "" then raise (Exception "please save blender file")
  else
    let blend_dir := os_path_dirname blend_filepath in
    let output_path := os_path_join blend_dir "BakedTextures" in
    fun w =>
      ((if path_exists output_path w then ret tt else makedirs output_path) ;;;
       ret output_path) w.

Definition create_material_folder (material_name output_path : string) : M string :=
  let material_path := os_path_join output_path material_name in
  fun w =>
    ((if path_exists material_path w then ret tt else makedirs material_path) ;;;
     ret material_path) w.

(** *** MaterialManager *)

Definition collect_slot_materials (obj : Object) : list mat_id :=
  flat_map (fun slot => match slot with Some m => [m] | None => [] end)
           (material_slots obj).

Definition get_all_materials (w : World) : list mat_id :=
  set_order
    (flat_map (fun obj => if is_mesh (obj_type obj) then collect_slot_materials obj
                          else [])
              (scene_objects w)).

(** Pass 1 of [duplicate_shared_materials] for one slot: an error in the
    fingerprint skips the usage. *)
Definition pass1_slot (obj : Object) (o : obj_id)
  (d : list (usage_key * list usage)) (p : nat * option mat_id)
  : list (usage_key * list usage) :=
  match snd p with
  | None => d
  | Some m =>
      match get_uv_hash obj (Some m) with
      | Ok uv => usage_append d (m, uv) (o, fst p)
      | Raise _ => d
      end
  end.

Definition pass1_object (d : list (usage_key * list usage)) (p : obj_id * Object)
  : list (usage_key * list usage) :=
  if is_mesh (obj_type (snd p)) then
    fold_left (pass1_slot (snd p) (fst p))
              (enumerate_from 0 (material_slots (snd p))) d
  else d.

Definition collect_material_usage (objs : list Object)
  : list (usage_key * list usage) :=
  fold_left pass1_object (enumerate_from 0 objs) [].

(** Pass 2, the body of the loop over [usages[1:]]. *)
Definition process_other_usage (original_material : mat_id) (uv : fingerprint)
  (u : usage) : M unit :=
  try_except
    (obj <- get_object (fst u) ;;
     slot_material <- read_slot u ;;
     current_uv_hash <- lift (get_uv_hash obj slot_material) ;;
     if negb (fingerprint_eqb current_uv_hash uv)
        && negb (is_sentinel current_uv_hash)
     then
       new_material <- material_copy original_material ;;
       original <- get_material original_material ;;
       set_material_name new_material
         (mat_name original ++ "_INSTANCE_" ++ obj_name obj) ;;;
       write_slot u (Some new_material)
     else ret tt)
    (fun _ => ret tt).

(** Pass 2, one entry of [material_usage.items()]. *)
Definition process_group (entry : usage_key * list usage) : M unit :=
  let '((original_material, uv), usages) := entry in
  if Nat.ltb 1 (List.length usages) && negb (is_sentinel uv) then
    match usages with
    | [] => raise (IndexError "usages")
    | first :: others =>
        first_obj <- get_object (fst first) ;;
        original <- get_material original_material ;;
        set_material_name original_material
          (mat_name original ++ "_MASTER_" ++ obj_name first_obj) ;;;
        for_each others (process_other_usage original_material uv)
    end
  else ret tt.

Definition duplicate_shared_materials : M unit :=
  fun w => for_each (collect_material_usage (scene_objects w)) process_group w.

Definition cleanup_unused_materials : M unit :=
  fun w =>
    (Ok tt,
     with_materials (filter (fun mat => negb (Nat.eqb (users w mat) 0))) w).

Definition setup_bake_node (material : mat_id) : M node_id :=
  mat <- get_material material ;;
  let t := match node_tree mat with
           | Some t => t
           | None => default_tree
           end in
  let '(bake_node, t') := setup_bake_node_tree t in
  put_material (with_tree true (Some t') mat) ;;;
  ret bake_node.

Definition setup_metallic_nodes (material : mat_id) : M (list Link) :=
  log (EvReroute material) ;;;
  mat <- get_material material ;;
  match node_tree mat with
  | None => raise (AttributeError "nodes")
  | Some t =>
      let '(r, t') := setup_metallic_nodes_tree t in
      put_material (with_tree (use_nodes mat) (Some t') mat) ;;;
      lift r
  end.

Definition restore_material_links (material : mat_id) (original_links : list Link)
  : M unit :=
  log (EvRestore material) ;;;
  mat <- get_material material ;;
  match node_tree mat with
  | None => raise (AttributeError "nodes")
  | Some t =>
      let '(r, t') := restore_material_links_tree original_links t in
      put_material (with_tree (use_nodes mat) (Some t') mat) ;;;
      lift r
  end.

(** *** BakeSettings.setup: the render settings are not part of the world;
    the lookup [addons['cycles']] fails when the add-on is not registered. *)
Definition BakeSettings_setup : M unit :=
  if cycles_registered then ret tt else raise (Exception "KeyError: cycles").

(** *** TextureBaker *)

Definition _create_bake_image (name : string) : M string :=
  modify (with_images
            (fun imgs => filter (fun i => negb (String.eqb i name)) imgs ++ [name])) ;;;
  ret name.

Definition _save_baked_image (image path filename : string) : M unit :=
  let filepath := os_path_join path filename in
  fun w =>
    let raised := save_raises (save_calls w) in
    let w' := with_event (EvSave filepath filename raised)
                (with_counters (bake_calls w) (S (save_calls w)) w) in
    if raised then (Raise (Exception "save_render"), w') else (Ok tt, w').

(** [bpy.ops.object.bake(type=bake_type)], issued while [material] is processed *)
Definition bake (bake_type : string) (material : mat_id) : M unit :=
  fun w =>
    let raised := bake_raises (bake_calls w) in
    let w' := with_event (EvBake bake_type material (active_object w) raised)
                (with_counters (S (bake_calls w)) (save_calls w) w) in
    if raised then (Raise (Exception "bake"), w') else (Ok tt, w').

(** [bake_node.image = image] *)
Definition set_node_image (material : mat_id) (bake_node : node_id) (image : string)
  : M unit :=
  mat <- get_material material ;;
  match node_tree mat with
  | None => raise (ReferenceError "node")
  | Some t =>
      if has_node t bake_node then
        put_material (with_tree (use_nodes mat)
                        (Some (update_node bake_node (set_image image) t)) mat)
      else raise (ReferenceError "node")
  end.

(** The part of the loop body of [_bake_all_maps] from [original_links = None]
    to the end of the [finally] block. *)
Definition bake_and_restore (material : mat_id) (bake_type suffix : string)
  (image output_path map_name : string) : M unit :=
  p <- (if String.eqb suffix "metallic" then
          original_links <- setup_metallic_nodes material ;;
          ret (Some original_links, "EMIT")
        else ret (None, bake_type)) ;;
  try_finally
    (bake (snd p) material ;;;
     _save_baked_image image output_path (map_name ++ ".png"))
    (match fst p with
     | Some (l :: ls) => restore_material_links material (l :: ls)
     | _ => ret tt
     end).

(** The body of the [try] of one iteration of [_bake_all_maps]. *)
Definition bake_one_map (material : mat_id) (bake_node : node_id)
  (output_path : string) (channel : string * string) : M unit :=
  let '(bake_type, suffix) := channel in
  mat <- get_material material ;;
  let map_name := map_name_of (mat_name mat) suffix in
  image <- _create_bake_image map_name ;;
  set_node_image material bake_node image ;;;
  bake_and_restore material bake_type suffix image output_path map_name.

Fixpoint bake_maps_from (channels : list (string * string)) (material : mat_id)
  (bake_node : node_id) (output_path : string) : M bool :=
  match channels with
  | [] => ret true
  | channel :: rest =>
      fun w =>
        match bake_one_map material bake_node output_path channel w with
        | (Ok _, w') => bake_maps_from rest material bake_node output_path w'
        | (Raise _, w') => (Ok false, w')
        end
  end.

Definition _bake_all_maps (material : mat_id) (bake_node : node_id)
  (output_path : string) : M bool :=
  bake_maps_from BAKE_TYPES material bake_node output_path.

(** The grouping loop of [bake_material]. *)
Fixpoint group_by_uv (material : mat_id) (objs : list (obj_id * Object))
  (uv_groups : list (fingerprint * list obj_id))
  : result (list (fingerprint * list obj_id)) :=
  match objs with
  | [] => Ok uv_groups
  | (o, obj) :: rest =>
      if is_mesh (obj_type obj)
         && existsb (fun slot => slot_eqb slot (Some material)) (material_slots obj)
      then
        match get_uv_hash obj (Some material) with
        | Raise e => Raise e
        | Ok uv =>
            if negb (is_sentinel uv)
            then group_by_uv material rest (group_append uv_groups uv o)
            else group_by_uv material rest uv_groups
        end
      else group_by_uv material rest uv_groups
  end.

Definition uv_groups_of (material : mat_id) (w : World)
  : result (list (fingerprint * list obj_id)) :=
  group_by_uv material (enumerate_from 0 (scene_objects w)) [].

(** [select_all(action='DESELECT')], [objects[0].select_set(True)] and
    [view_layer.objects.active = objects[0]]; [select_set] raises a
    [RuntimeError] for an object that is not in the view layer. *)
Definition select_representative (objects : list obj_id) : M unit :=
  modify (fun w => with_selection [] (active_object w) w) ;;;
  match objects with
  | [] => raise (IndexError "objects")
  | first :: _ =>
      obj <- get_object first ;;
      if in_view_layer obj then modify (with_selection [first] (Some first))
      else raise (RuntimeError "object is not in the View Layer")
  end.

(** The loop of [bake_material] over [uv_groups.items()]. *)
Fixpoint bake_groups (material : mat_id) (material_path : string)
  (uv_groups : list (fingerprint * list obj_id)) : M bool :=
  match uv_groups with
  | [] => ret true
  | (_, objects) :: rest =>
      select_representative objects ;;;
      bake_node <- setup_bake_node material ;;
      success <- _bake_all_maps material bake_node material_path ;;
      if negb success then ret false
      else bake_groups material material_path rest
  end.

Definition bake_material (material : mat_id) (output_path : string) : M bool :=
  try_except
    (mat <- get_material material ;;
     material_path <- create_material_folder (mat_name mat) output_path ;;
     uv_groups <- (fun w => lift (uv_groups_of material w) w) ;;
     match uv_groups with
     | [] => ret false
     | _ :: _ => bake_groups material material_path uv_groups
     end)
    (fun _ => ret false).

(** The loop of [execute] over the materials. *)
Fixpoint bake_materials (materials : list mat_id) (output_path : string)
  (success_count : nat) : M nat :=
  match materials with
  | [] => ret success_count
  | material :: rest =>
      log (EvMaterial material) ;;;
      ok <- bake_material material output_path ;;
      bake_materials rest output_path
        (if ok then S success_count else success_count)
  end.

(** The steps of [execute] before the loop over the materials. *)
Definition prepare : M (string * list mat_id) :=
  duplicate_shared_materials ;;;
  output_path <- get_output_path ;;
  BakeSettings_setup ;;;
  materials <- (fun w => ret (get_all_materials w) w) ;;
  match materials with
  | [] => raise (Exception "No usable materials in the scene")
  | _ :: _ => ret (output_path, materials)
  end.

(** [execute]: every exception is caught and printed; the report is what the
    final [print]s show, [None] when the run ended in the [except] branch. *)
Definition execute (w : World) : option Report * World :=
  match (p <- prepare ;;
         n <- bake_materials (snd p) (fst p) 0 ;;
         cleanup_unused_materials ;;;
         ret {| success_count := n; total := List.length (snd p);
                output_path := fst p |}) w with
  | (Ok r, w') => (Some r, w')
  | (Raise _, w') => (None, w')
  end.

(** ** Notions used in the statements *)

(** The node tree of a material of the world. *)
Definition tree_of (m : mat_id) (w : World) : option NodeTree :=
  match find_material m w with
  | Some mat => node_tree mat
  | None => None
  end.

(** The material holds the image-texture node named [Bake_Target]. *)
Definition has_bake_target (m : mat_id) (w : World) : Prop :=
  exists t n, tree_of m w = Some t /\ In n (nodes t)
              /\ node_name n = "Bake_Target" /\ node_type n = TEX_IMAGE.

(** A [Bake_Target] node whose identity no emission or value node shares. *)
Definition target_safe (t : NodeTree) : Prop :=
  exists n, In n (nodes t)
            /\ node_name n = "Bake_Target" /\ node_type n = TEX_IMAGE
            /\ forall n', In n' (nodes t) -> is_temporary n' = true ->
                          node_ident n' <> node_ident n.

Definition has_safe_target (m : mat_id) (w : World) : Prop :=
  exists t, tree_of m w = Some t /\ target_safe t.

(** Some mesh or other object of the scene holds the material in a slot. *)
Definition in_use (m : mat_id) (w : World) : Prop :=
  exists obj, In obj (scene_objects w) /\ In (Some m) (material_slots obj).

Definition is_bake (e : Event) : bool :=
  match e with
  | EvBake _ _ _ _ => true
  | _ => false
  end.

Definition is_bake_of (m : mat_id) (e : Event) : bool :=
  match e with
  | EvBake _ m' _ _ => Nat.eqb m' m
  | _ => false
  end.

Definition bake_raised (e : Event) : bool :=
  match e with
  | EvBake _ _ _ raised => raised
  | _ => false
  end.

(** The trace holds a bake call made for the material. *)
Definition baked (m : mat_id) (evs : list Event) : Prop :=
  exists e, In e evs /\ is_bake_of m e = true.

(** The bake calls of a trace. *)
Definition bakes (evs : list Event) : list Event := filter is_bake evs.

(** A material one of whose bake calls raised. *)
Definition failed_by_bake (evs : list Event) (m : mat_id) : bool :=
  existsb (fun e => is_bake_of m e && bake_raised e) evs.

(** The materials announced at the head of the loop of [execute]. *)
Definition visited (evs : list Event) : list mat_id :=
  flat_map (fun e => match e with EvMaterial m => [m] | _ => [] end) evs.

(** The bake type passed to the renderer for a channel. *)
Definition effective_type (channel : string * string) : string :=
  if String.eqb (snd channel) "metallic" then "EMIT" else fst channel.

(** The bake calls of one UV group when nothing fails: one per channel, with
    the first object of the group active. *)
Definition group_bakes (m : mat_id) (group : fingerprint * list obj_id)
  : list Event :=
  map (fun channel => EvBake (effective_type channel) m (hd_error (snd group)) false)
      BAKE_TYPES.


(** What every step taken while material [m] is processed leaves in place:
    the objects and their slots, the [Bake_Target] nodes already inserted,
    and a trace that grows by bake calls of [m] only and announces no
    material. *)
Record steady (m : mat_id) (w w' : World) : Prop := {
  steady_objects : scene_objects w' = scene_objects w;
  steady_targets : forall m', has_safe_target m' w -> has_safe_target m' w';
  steady_events :
    exists new, events w' = events w ++ new
                /\ visited new = []
                /\ forall e, In e new -> is_bake e = true -> is_bake_of m e = true
}.

(** Steps that call no bake and leave the active object alone. *)
Record silent (w w' : World) : Prop := {
  silent_active : active_object w' = active_object w;
  silent_events : exists new, events w' = events w ++ new /\ bakes new = []
}.

(** Steps that only rename materials. *)
Record renaming (w w' : World) : Prop := {
  renaming_objects : scene_objects w' = scene_objects w;
  renaming_events : events w' = events w;
  renaming_idents :
    map mat_ident (bpy_materials w') = map mat_ident (bpy_materials w)
}.

(** Every usage recorded under a key is a slot of an object of the scene that
    holds the material of the key and has the fingerprint of the key. *)
Definition usage_sound (objs : list Object) (d : list (usage_key * list usage))
  : Prop :=
  forall key us u,
    In (key, us) d -> In u us ->
    exists obj, nth_error objs (fst u) = Some obj
                /\ nth_error (material_slots obj) (snd u) = Some (Some (fst key))
                /\ get_uv_hash obj (Some (fst key)) = Ok (snd key).

(** In a list of bake calls, a call that raised is the last one, and the
    step that made them reports failure. *)
Definition fail_last (l : list Event) (ok : bool) : Prop :=
  forall pre e post,
    l = pre ++ e :: post -> bake_raised e = true -> post = [] /\ ok = false.

(** One channel: at most one bake call, of the channel's type, for the
    material and the active object; the step succeeds only if it was made
    and did not raise. *)
Definition one_bake_post (m : mat_id) (channel : string * string)
  (w : World) (r : result unit) (w' : World) : Prop :=
  active_object w' = active_object w
  /\ exists new,
       events w' = events w ++ new
       /\ ((bakes new = [] /\ is_ok r = false)
           \/ exists raised,
                bakes new = [EvBake (effective_type channel) m (active_object w) raised]
                /\ (is_ok r = true -> raised = false)).

(** The channels of one UV group. *)
Definition maps_post (m : mat_id) (channels : list (string * string))
  (w : World) (ok : bool) (w' : World) : Prop :=
  active_object w' = active_object w
  /\ exists new,
       events w' = events w ++ new
       /\ (ok = true ->
           bakes new = map (fun c => EvBake (effective_type c) m (active_object w) false)
                           channels)
       /\ fail_last (bakes new) ok
       /\ (forall e, In e (bakes new) ->
             exists c raised,
               e = EvBake (effective_type c) m (active_object w) raised).

Definition succeeded (r : result bool) : bool :=
  match r with
  | Ok b => b
  | Raise _ => false
  end.

(** The UV groups of one material. *)
Definition groups_post (m : mat_id) (groups : list (fingerprint * list obj_id))
  (w : World) (r : result bool) (w' : World) : Prop :=
  exists new,
    events w' = events w ++ new
    /\ (succeeded r = true -> bakes new = flat_map (group_bakes m) groups)
    /\ fail_last (bakes new) (succeeded r)
    /\ (forall e, In e (bakes new) ->
          exists bt g raised,
            In g groups /\ e = EvBake bt m (hd_error (snd g)) raised).

(** After a bake call of a material raised, the trace holds no further bake
    call of that material. *)
Definition raise_ends (evs : list Event) : Prop :=
  forall pre e post m,
    evs = pre ++ e :: post ->
    is_bake_of m e = true -> bake_raised e = true ->
    forall e', In e' post -> is_bake_of m e' = false.

(** Steps that leave the trace as it is. *)
Definition same_events (w w' : World) : Prop := events w' = events w.

(** Every material with a bake call in the trace holds its target and is
    assigned to a slot. *)
Definition targets_ok (w : World) : Prop :=
  forall m, baked m (events w) -> has_safe_target m w /\ in_use m w.

(** Steps whose saves, if any, write the given file. *)
Definition saves_as (filepath filename : string) (w w' : World) : Prop :=
  exists new,
    events w' = events w ++ new
    /\ forall fp f raised, In (EvSave fp f raised) new ->
                           fp = filepath /\ f = filename.

(** ** The resolver's dict and the names of the materials *)


(** The name a handle resolves to. *)
Definition name_of (m : mat_id) (w : World) : option string :=
  option_map mat_name (find_material m w).






(** ** The bake target *)

(** The node [setup_bake_node] leaves in the tree. *)
Definition target_node (i : node_id) : Node :=
  {| node_ident := i; node_name := "Bake_Target"; node_type := TEX_IMAGE;
     node_select := true; node_image := None;
     metallic_default := 0%Q; output_default := 0%Q |}.

(** The node with this identity is in the tree and is not removed with the
    emission and value nodes. *)
Definition survives (t : NodeTree) (i : node_id) : bool :=
  has_node t i && negb (id_in (temporary_ids (nodes t)) i).

(** ** The UV groups of a material *)




(** ** The faces of a material *)

(** The test of [get_uv_hash] on a face: its material index names a slot, and
    the slot holds the material. *)
Definition face_of (obj : Object) (material : option mat_id) (poly : Polygon)
  : bool :=
  Nat.ltb (material_index poly) (List.length (material_slots obj))
  && match nth_error (material_slots obj) (material_index poly) with
     | Some slot => slot_eqb slot material
     | None => false
     end.

(** The active UV layer has data for the loop. *)
Definition loop_in_layer (m : Mesh) (loop_idx : nat) : Prop :=
  exists layer uv,
    uv_layers_active m = Some layer /\ nth_error (uv_data layer) loop_idx = Some uv.

(** ** Worlds up to the names of the materials *)



(** Usage [u] comes before usage [v] in the order of pass 1: objects in scene
    order, the slots of an object in slot order. *)
Definition before (u v : usage) : Prop :=
  fst u < fst v \/ (fst u = fst v /\ snd u < snd v).

(** What pass 1 has built when it reaches usage [v]: no usage is listed twice
    under a key, every usage listed comes before [v] and is a slot of a
    mesh. *)
Record pass1_inv (objs : list Object) (d : list (usage_key * list usage))
  (v : usage) : Prop := {
  inv_distinct : forall key us, In (key, us) d -> NoDup us;
  inv_before : forall key us u, In (key, us) d -> In u us -> before u v;
  inv_mesh :
    forall key us u, In (key, us) d -> In u us ->
      exists obj, nth_error objs (fst u) = Some obj /\ obj_type obj = MESH
}.

(** ** What a run keeps *)

Definition is_save (e : Event) : bool :=
  match e with
  | EvSave _ _ _ => true
  | _ => false
  end.


(** A stretch of trace in which a save is attempted exactly after each bake
    call that returned, and directly after it. *)
Inductive paired : list Event -> Prop :=
| paired_nil : paired []
| paired_other (e : Event) (l : list Event) :
    is_bake e = false -> is_save e = false -> paired l -> paired (e :: l)
| paired_raised (bake_type : string) (m : mat_id) (active : option obj_id)
    (l : list Event) :
    paired l -> paired (EvBake bake_type m active true :: l)
| paired_saved (bake_type : string) (m : mat_id) (active : option obj_id)
    (filepath filename : string) (raised : bool) (l : list Event) :
    paired l ->
    paired (EvBake bake_type m active false :: EvSave filepath filename raised :: l).

Definition pairs (w w' : World) : Prop :=
  exists new, events w' = events w ++ new /\ paired new.

(** ** The files of a material *)

(** The file [bake_material] writes for a channel of a material called
    [name], under the output folder [path]. *)
Definition is_map_file (path name : string) (filepath filename : string) : Prop :=
  exists suffix,
    In suffix (map snd BAKE_TYPES)
    /\ filename = (name ++ "_" ++ suffix ++ ".png")%string
    /\ filepath = os_path_join (os_path_join path name) filename.

(** Steps that leave the name of a material alone. *)
Definition named (m : mat_id) (name : string) (w w' : World) : Prop :=
  name_of m w = Some name -> name_of m w' = Some name.

(** Steps that leave the name of a material alone and save map files of that
    material only. *)
Definition files (m : mat_id) (name path : string) (w w' : World) : Prop :=
  name_of m w = Some name ->
  name_of m w' = Some name
  /\ exists new,
       events w' = events w ++ new
       /\ forall fp f raised,
            In (EvSave fp f raised) new -> is_map_file path name fp f.

(** ** A material whose channels all bake *)









(** * Properties *)

Set Default Proof Using "Type".

(** ** Sorting the coordinate list *)

Section SortFacts.

Lemma coord_lt_spec (a b : coord) :
  is_nan a = false -> is_nan b = false ->
  (coord_lt a b = true
   <-> (fst (coord_key a) < fst (coord_key b)
        \/ (fst (coord_key a) = fst (coord_key b)
            /\ snd (coord_key a) < snd (coord_key b)))%Z).
Proof.
  destruct a as [x|[]|], b as [y|[]|]; cbn; intros Ha Hb;
    try discriminate; rewrite ?Z.ltb_lt;
    (split; [intros H; try discriminate H; lia | intros H; try reflexivity; lia]).
Qed.

Lemma coord_eq_spec (a b : coord) :
  is_nan a = false -> is_nan b = false ->
  (coord_eq a b = true <-> coord_key a = coord_key b).
Proof.
  destruct a as [x|[]|], b as [y|[]|]; cbn; intros Ha Hb;
    try discriminate; rewrite ?Z.eqb_eq;
    (split; [intros H; try discriminate H; congruence
            | intros H; try reflexivity; try discriminate H; congruence]).
Qed.

Lemma coord_key_inj (a b : coord) :
  is_nan a = false -> is_nan b = false -> coord_key a = coord_key b -> a = b.
Proof.
  destruct a as [x|[]|], b as [y|[]|]; cbn; intros Ha Hb H;
    try discriminate; congruence.
Qed.

Lemma has_nan_false (p : uv_coord) :
  has_nan p = false <-> is_nan (fst p) = false /\ is_nan (snd p) = false.
Proof.
  unfold has_nan. apply orb_false_iff.
Qed.

(** On pairs without NaN, [<] is the lexicographic order of the keys. *)
Lemma uv_lt_spec (a b : uv_coord) :
  has_nan a = false -> has_nan b = false ->
  (uv_lt a b = true
   <-> (fst (coord_key (fst a)) < fst (coord_key (fst b))
        \/ (fst (coord_key (fst a)) = fst (coord_key (fst b))
            /\ (snd (coord_key (fst a)) < snd (coord_key (fst b))
                \/ (snd (coord_key (fst a)) = snd (coord_key (fst b))
                    /\ (fst (coord_key (snd a)) < fst (coord_key (snd b))
                        \/ (fst (coord_key (snd a)) = fst (coord_key (snd b))
                            /\ snd (coord_key (snd a))
                               < snd (coord_key (snd b))))))))%Z).
Proof.
  intros Ha Hb. apply has_nan_false in Ha, Hb.
  destruct Ha as [Ha1 Ha2], Hb as [Hb1 Hb2]. unfold uv_lt.
  assert (E1 := coord_eq_spec (fst a) (fst b) Ha1 Hb1).
  assert (E2 := coord_eq_spec (snd a) (snd b) Ha2 Hb2).
  assert (L1 := coord_lt_spec (fst a) (fst b) Ha1 Hb1).
  assert (L2 := coord_lt_spec (snd a) (snd b) Ha2 Hb2).
  destruct (coord_key (fst a)) as [t1 v1], (coord_key (fst b)) as [t1' v1'],
           (coord_key (snd a)) as [t2 v2], (coord_key (snd b)) as [t2' v2'].
  cbn [fst snd] in *.
  destruct (coord_eq (fst a) (fst b)); cbn [negb].
  - assert (H : (t1, v1) = (t1', v1')) by now apply E1.
    injection H as -> ->.
    destruct (coord_eq (snd a) (snd b)); cbn [negb].
    + assert (H : (t2, v2) = (t2', v2')) by now apply E2.
      injection H as -> ->. split; [discriminate | lia].
    + rewrite L2. split; [lia|]. intros H.
      destruct H as [H|[_ [H|[_ H]]]]; try lia.
  - rewrite L1.
    assert (Hne : (t1, v1) <> (t1', v1')).
    { intros H. apply E1 in H. discriminate H. }
    split; [lia|]. intros H.
    destruct H as [H|[Ht [H|[Hv _]]]]; [lia | lia |].
    subst. now elim Hne.
Qed.

Lemma uv_leb_total (a b : uv_coord) :
  has_nan a = false -> has_nan b = false ->
  uv_leb a b = true \/ uv_leb b a = true.
Proof.
  intros Ha Hb. unfold uv_leb.
  assert (H1 := uv_lt_spec a b Ha Hb). assert (H2 := uv_lt_spec b a Hb Ha).
  destruct (uv_lt b a) eqn:E1; [|now left].
  destruct (uv_lt a b) eqn:E2; [|now right].
  exfalso. assert (T : true = true) by reflexivity.
  apply H1 in T. assert (T' : true = true) by reflexivity. apply H2 in T'. lia.
Qed.

Lemma uv_le_trans (a b c : uv_coord) :
  has_nan a = false -> has_nan b = false -> has_nan c = false ->
  uv_le a b -> uv_le b c -> uv_le a c.
Proof.
  intros Ha Hb Hc. unfold uv_le, uv_leb. rewrite !negb_true_iff.
  assert (H1 := uv_lt_spec b a Hb Ha). assert (H2 := uv_lt_spec c b Hc Hb).
  assert (H3 := uv_lt_spec c a Hc Ha).
  intros Hab Hbc. destruct (uv_lt c a); [|reflexivity]. exfalso.
  assert (T : true = true) by reflexivity. apply H3 in T.
  assert (N1 : ~ uv_lt b a = true) by congruence.
  assert (N2 : ~ uv_lt c b = true) by congruence.
  rewrite H1 in N1. rewrite H2 in N2. lia.
Qed.

Lemma uv_le_antisym (a b : uv_coord) :
  has_nan a = false -> has_nan b = false ->
  uv_le a b -> uv_le b a -> a = b.
Proof.
  intros Ha Hb. unfold uv_le, uv_leb. rewrite !negb_true_iff.
  assert (H1 := uv_lt_spec b a Hb Ha). assert (H2 := uv_lt_spec a b Ha Hb).
  intros Hab Hba.
  assert (N1 : ~ uv_lt b a = true) by congruence.
  assert (N2 : ~ uv_lt a b = true) by congruence.
  rewrite H1 in N1. rewrite H2 in N2.
  apply has_nan_false in Ha, Hb. destruct Ha as [Ha1 Ha2], Hb as [Hb1 Hb2].
  destruct a as [a1 a2], b as [b1 b2]. cbn [fst snd] in *.
  assert (K1 : coord_key a1 = coord_key b1).
  { destruct (coord_key a1), (coord_key b1). cbn [fst snd] in *. f_equal; lia. }
  assert (K2 : coord_key a2 = coord_key b2).
  { destruct (coord_key a1), (coord_key b1), (coord_key a2), (coord_key b2).
    cbn [fst snd] in *. injection K1 as -> ->. f_equal; lia. }
  f_equal; now apply coord_key_inj.
Qed.

Lemma insert_sorted_perm (x : uv_coord) (l : list uv_coord) :
  Permutation (insert_sorted x l) (x :: l).
Proof.
  induction l as [|y ys IH]; simpl.
  - apply Permutation_refl.
  - destruct (uv_leb x y).
    + apply Permutation_refl.
    + eapply perm_trans; [apply perm_skip, IH | apply perm_swap].
Qed.

Lemma sort_numbers_perm (l : list uv_coord) : Permutation (sort_numbers l) l.
Proof.
  induction l as [|x xs IH]; simpl.
  - apply perm_nil.
  - eapply perm_trans; [apply insert_sorted_perm | apply perm_skip, IH].
Qed.

Lemma numbers_perm (l l' : list uv_coord) :
  Permutation l l' -> numbers l -> numbers l'.
Proof.
  intros HP H p Hp. apply H. eapply Permutation_in; [apply Permutation_sym, HP|].
  exact Hp.
Qed.

Lemma numbers_existsb (l : list uv_coord) :
  numbers l <-> existsb has_nan l = false.
Proof.
  unfold numbers. split.
  - intros H. destruct (existsb has_nan l) eqn:E; [|reflexivity].
    apply existsb_exists in E. destruct E as [p [Hp E]].
    rewrite (H p Hp) in E. discriminate E.
  - intros H p Hp. destruct (has_nan p) eqn:E; [|reflexivity].
    assert (T : existsb has_nan l = true) by (apply existsb_exists; eauto).
    congruence.
Qed.

Lemma insert_sorted_sorted (x : uv_coord) (l : list uv_coord) :
  has_nan x = false -> numbers l ->
  StronglySorted uv_le l -> StronglySorted uv_le (insert_sorted x l).
Proof.
  intros Hx. induction l as [|y ys IH]; simpl; intros Hl Hs.
  - constructor; constructor.
  - assert (Hy : has_nan y = false) by (apply Hl; now left).
    assert (Hys : numbers ys) by (intros p Hp; apply Hl; now right).
    destruct (uv_leb x y) eqn:E.
    + constructor; [assumption|].
      constructor; [exact E|].
      inversion Hs as [|? ? _ Hall]; subst.
      rewrite Forall_forall in *. intros z Hz.
      apply (uv_le_trans x y z); auto.
    + inversion Hs as [|? ? Hys' Hall]; subst.
      constructor; [apply IH; assumption|].
      assert (Hyx : uv_le y x).
      { destruct (uv_leb_total x y Hx Hy) as [H|H]; [congruence | exact H]. }
      eapply Permutation_Forall.
      * apply Permutation_sym, insert_sorted_perm.
      * constructor; assumption.
Qed.

Lemma sort_numbers_sorted (l : list uv_coord) :
  numbers l -> StronglySorted uv_le (sort_numbers l).
Proof.
  induction l as [|x xs IH]; simpl; intros Hl.
  - constructor.
  - assert (Hxs : numbers xs) by (intros p Hp; apply Hl; now right).
    apply insert_sorted_sorted; [apply Hl; now left | | now apply IH].
    apply (numbers_perm xs); [apply Permutation_sym, sort_numbers_perm | exact Hxs].
Qed.

Lemma sorted_perm_unique (l1 l2 : list uv_coord) :
  numbers l1 ->
  StronglySorted uv_le l1 -> StronglySorted uv_le l2 ->
  Permutation l1 l2 -> l1 = l2.
Proof.
  revert l2. induction l1 as [|a l1 IH]; intros l2 Hn H1 H2 HP.
  - apply Permutation_nil in HP. now subst.
  - destruct l2 as [|b l2].
    + apply Permutation_sym, Permutation_nil in HP. discriminate.
    + inversion H1 as [|? ? H1' Ha]; subst.
      inversion H2 as [|? ? H2' Hb]; subst.
      assert (Hn2 : numbers (b :: l2)) by (now apply (numbers_perm (a :: l1))).
      assert (a = b).
      { assert (Hin1 : In b (a :: l1)).
        { eapply Permutation_in; [apply Permutation_sym, HP | now left]. }
        assert (Hin2 : In a (b :: l2)).
        { eapply Permutation_in; [exact HP | now left]. }
        destruct Hin1 as [->|Hin1]; [reflexivity|].
        destruct Hin2 as [->|Hin2]; [reflexivity|].
        rewrite Forall_forall in Ha, Hb.
        apply uv_le_antisym; auto.
        - apply Hn. now left.
        - apply Hn2. now left. }
      subst b. f_equal. apply IH; auto.
      * intros p Hp. apply Hn. now right.
      * eapply Permutation_cons_inv; exact HP.
Qed.

(** [sort] on a list without NaN: the pairs in ascending order. *)
Lemma sort_of_numbers (l : list uv_coord) : numbers l -> sort l = sort_numbers l.
Proof.
  intros H. unfold sort. apply numbers_existsb in H. now rewrite H.
Qed.

Lemma sort_perm (l : list uv_coord) : numbers l -> Permutation (sort l) l.
Proof.
  intros H. rewrite (sort_of_numbers l H). apply sort_numbers_perm.
Qed.

Lemma sort_sorted (l : list uv_coord) : numbers l -> StronglySorted uv_le (sort l).
Proof.
  intros H. rewrite (sort_of_numbers l H). now apply sort_numbers_sorted.
Qed.

Lemma sort_permutation_eq (l1 l2 : list uv_coord) :
  numbers l1 -> Permutation l1 l2 -> sort l1 = sort l2.
Proof.
  intros Hn HP.
  assert (Hn2 : numbers l2) by (now apply (numbers_perm l1)).
  apply sorted_perm_unique; try (now apply sort_sorted).
  - apply (numbers_perm l1); [apply Permutation_sym, sort_perm | ]; assumption.
  - eapply perm_trans; [now apply sort_perm|].
    eapply perm_trans; [exact HP | apply Permutation_sym; now apply sort_perm].
Qed.

End SortFacts.

(** ** The fingerprint *)

Section FingerprintFacts.

Lemma slot_eqb_eq (a b : option mat_id) : slot_eqb a b = true <-> a = b.
Proof.
  destruct a as [x|], b as [y|]; simpl; try (split; congruence).
  rewrite Nat.eqb_eq. split; congruence.
Qed.

Lemma slot_eqb_refl (a : option mat_id) : slot_eqb a a = true.
Proof.
  now apply slot_eqb_eq.
Qed.

Lemma slot_eqb_sym (a b : option mat_id) : slot_eqb a b = slot_eqb b a.
Proof.
  destruct (slot_eqb a b) eqn:E1, (slot_eqb b a) eqn:E2; auto.
  - apply slot_eqb_eq in E1. subst. now rewrite slot_eqb_refl in E2.
  - apply slot_eqb_eq in E2. subst. now rewrite slot_eqb_refl in E1.
Qed.

Lemma dict_mem_set {V} (d : list (option mat_id * V)) k k' (v : V) :
  dict_mem k (dict_set d k' v) = dict_mem k d || slot_eqb k' k.
Proof.
  unfold dict_mem. induction d as [|[k0 v0] d IH]; simpl.
  - now rewrite orb_false_r.
  - destruct (slot_eqb k0 k') eqn:E; simpl.
    + apply slot_eqb_eq in E. subst k0.
      destruct (slot_eqb k' k); simpl; [reflexivity | now rewrite orb_false_r].
    + rewrite IH. now rewrite orb_assoc.
Qed.

Lemma dict_mem_fold (l : list (nat * option mat_id)) d k :
  dict_mem k (fold_left (fun d p => dict_set d (snd p) (fst p)) l d)
  = dict_mem k d || existsb (fun p => slot_eqb (snd p) k) l.
Proof.
  revert d. induction l as [|p l IH]; intros d; simpl.
  - now rewrite orb_false_r.
  - rewrite IH, dict_mem_set. now rewrite orb_assoc.
Qed.

Lemma existsb_enumerate {A} (f : A -> bool) (l : list A) i :
  existsb (fun p => f (snd p)) (enumerate_from i l) = existsb f l.
Proof.
  revert i. induction l as [|x l IH]; intros i; simpl; [reflexivity|].
  now rewrite IH.
Qed.

(** Membership in the dict of slot materials is membership in the slot list. *)
Lemma material_indices_mem (slots : list (option mat_id)) k :
  dict_mem k (material_indices slots) = existsb (fun s => slot_eqb s k) slots.
Proof.
  unfold material_indices. rewrite dict_mem_fold. simpl.
  apply (existsb_enumerate (fun s => slot_eqb s k)).
Qed.

Lemma material_indices_mem_In (slots : list (option mat_id)) k :
  dict_mem k (material_indices slots) = true <-> In k slots.
Proof.
  rewrite material_indices_mem, existsb_exists. split.
  - intros [x [Hin Hx]]. apply slot_eqb_eq in Hx. now subst.
  - intros Hin. exists k. split; [assumption | apply slot_eqb_refl].
Qed.

Lemma collect_loops_app (m : Mesh) (idxs : list nat) (acc : list uv_coord) :
  collect_loops m idxs acc =
  match collect_loops m idxs [] with
  | Ok c => Ok (acc ++ c)
  | Raise e => Raise e
  end.
Proof.
  revert acc. induction idxs as [|i idxs IH]; intros acc; simpl.
  - now rewrite app_nil_r.
  - destruct (uv_layers_active m) as [layer|]; [|reflexivity].
    destruct (nth_error (uv_data layer) i) as [uv|]; [|reflexivity].
    rewrite (IH (acc ++ _)), (IH [_]).
    destruct (collect_loops m idxs []); [|reflexivity].
    now rewrite <- app_assoc.
Qed.

Lemma collect_loops_raise (m : Mesh) idxs acc e :
  collect_loops m idxs acc = Raise e -> e = loop_error m.
Proof.
  unfold loop_error. revert acc. induction idxs as [|i idxs IH]; intros acc; simpl.
  - discriminate.
  - destruct (uv_layers_active m) as [layer|] eqn:E; [|congruence].
    destruct (nth_error (uv_data layer) i); [|congruence].
    intros H. apply IH in H. exact H.
Qed.

Lemma collect_loops_same_layers (m m' : Mesh) idxs acc :
  uv_layers_active m = uv_layers_active m' ->
  collect_loops m idxs acc = collect_loops m' idxs acc.
Proof.
  intros E. revert acc. induction idxs as [|i idxs IH]; intros acc; simpl.
  - reflexivity.
  - rewrite <- E. destruct (uv_layers_active m); [|reflexivity].
    destruct (nth_error _ i); [apply IH | reflexivity].
Qed.

Lemma nth_error_in_range {A} (l : list A) i :
  Nat.ltb i (List.length l) = true -> exists x, nth_error l i = Some x.
Proof.
  intros H. apply Nat.ltb_lt in H.
  destruct (nth_error l i) eqn:E; [eauto|].
  apply nth_error_None in E. lia.
Qed.

Lemma collect_polygons_app obj material polys acc :
  collect_polygons obj material polys acc =
  match collect_polygons obj material polys [] with
  | Ok c => Ok (acc ++ c)
  | Raise e => Raise e
  end.
Proof.
  revert acc. induction polys as [|p polys IH]; intros acc; simpl.
  - now rewrite app_nil_r.
  - destruct (Nat.ltb _ _); [|apply IH].
    destruct (nth_error _ _) as [slot|]; [|reflexivity].
    destruct (slot_eqb slot material); [|apply IH].
    rewrite (collect_loops_app _ _ acc).
    destruct (collect_loops (data obj) (loop_indices p) []) as [c|e]; [|reflexivity].
    rewrite (IH (acc ++ c)), (IH c).
    destruct (collect_polygons obj material polys []); [|reflexivity].
    now rewrite app_assoc.
Qed.

Lemma collect_polygons_raise obj material polys acc e :
  collect_polygons obj material polys acc = Raise e -> e = loop_error (data obj).
Proof.
  revert acc. induction polys as [|p polys IH]; intros acc; simpl.
  - discriminate.
  - destruct (Nat.ltb _ _) eqn:Hr; [|apply IH].
    destruct (nth_error_in_range _ _ Hr) as [slot ->].
    destruct (slot_eqb slot material); [|apply IH].
    destruct (collect_loops _ _ _) eqn:El.
    + apply IH.
    + intros H. injection H as <-. eapply collect_loops_raise; eauto.
Qed.

Lemma collect_polygons_same_object obj obj' material polys acc :
  material_slots obj = material_slots obj' ->
  uv_layers_active (data obj) = uv_layers_active (data obj') ->
  collect_polygons obj material polys acc
  = collect_polygons obj' material polys acc.
Proof.
  intros Es El. revert acc. induction polys as [|p polys IH]; intros acc; simpl.
  - reflexivity.
  - rewrite <- Es. destruct (Nat.ltb _ _); [|apply IH].
    destruct (nth_error _ _) as [slot|]; [|reflexivity].
    destruct (slot_eqb slot material); [|apply IH].
    rewrite (collect_loops_same_layers (data obj) (data obj')) by assumption.
    destruct (collect_loops _ _ _); [apply IH | reflexivity].
Qed.

(** Polygons with an out-of-range material index are passed over. *)
Lemma collect_polygons_in_range obj material polys polys' acc :
  collect_polygons obj material polys acc =
  collect_polygons (set_polygons polys' obj) material
                   (filter (index_in_range obj) polys) acc.
Proof.
  revert acc. induction polys as [|p polys IH]; intros acc; simpl.
  - reflexivity.
  - unfold index_in_range at 1.
    destruct (Nat.ltb _ _) eqn:Hr; simpl; [|apply IH].
    rewrite Hr.
    destruct (nth_error _ _) as [slot|]; [|reflexivity].
    destruct (slot_eqb slot material); [|apply IH].
    rewrite (collect_loops_same_layers (data obj)
               (data (set_polygons polys' obj))) by reflexivity.
    destruct (collect_loops _ _ _); [apply IH | reflexivity].
Qed.

Lemma collect_polygons_out_of_range obj material polys acc :
  (forall p, In p polys -> index_in_range obj p = false) ->
  collect_polygons obj material polys acc = Ok acc.
Proof.
  revert acc. induction polys as [|p polys IH]; intros acc H; simpl.
  - reflexivity.
  - assert (Hp := H p (or_introl eq_refl)). unfold index_in_range in Hp.
    rewrite Hp. apply IH. intros q Hq. apply H. now right.
Qed.

(** Faces of the material without loops leave the coordinate list empty. *)
Lemma collect_polygons_no_loops obj material polys acc :
  (forall p, In p polys ->
             nth_error (material_slots obj) (material_index p) = Some material ->
             loop_indices p = []) ->
  collect_polygons obj material polys acc = Ok acc.
Proof.
  revert acc. induction polys as [|p polys IH]; intros acc H; simpl.
  - reflexivity.
  - assert (IH' : collect_polygons obj material polys acc = Ok acc).
    { apply IH. intros q Hq. apply H. now right. }
    destruct (Nat.ltb _ _) eqn:Hr; [|exact IH'].
    destruct (nth_error_in_range _ _ Hr) as [slot En]. rewrite En.
    destruct (slot_eqb slot material) eqn:Es; [|exact IH'].
    apply slot_eqb_eq in Es. subst slot.
    rewrite (H p (or_introl eq_refl) En). simpl. exact IH'.
Qed.

Lemma collect_polygons_cons obj material p polys :
  collect_polygons obj material (p :: polys) [] =
  match collect_polygons obj material [p] [] with
  | Ok cx =>
      match collect_polygons obj material polys [] with
      | Ok c => Ok (cx ++ c)
      | Raise e => Raise e
      end
  | Raise e => Raise e
  end.
Proof.
  simpl.
  destruct (Nat.ltb _ _); [|now destruct (collect_polygons obj material polys [])].
  destruct (nth_error _ _) as [slot|]; [|reflexivity].
  destruct (slot_eqb slot material);
    [|now destruct (collect_polygons obj material polys [])].
  destruct (collect_loops _ _ _) as [cx|e]; [|reflexivity].
  apply collect_polygons_app.
Qed.

(** Two results of the collecting loop agree up to the order of the
    coordinates, or both are an exception. *)
Definition same_coords (r1 r2 : result (list uv_coord)) : Prop :=
  match r1, r2 with
  | Ok c1, Ok c2 => Permutation c1 c2
  | Raise _, Raise _ => True
  | _, _ => False
  end.

Lemma collect_polygons_perm obj material polys polys' :
  Permutation polys polys' ->
  same_coords (collect_polygons obj material polys [])
              (collect_polygons obj material polys' []).
Proof.
  clear py_hash os_path_join os_path_dirname makedirs_raises blend_filepath sort_with_nan.
  induction 1 as [|x l l' HP IH|x y l|l l' l'' HP1 IH1 HP2 IH2].
  - simpl. apply perm_nil.
  - rewrite (collect_polygons_cons _ _ x l), (collect_polygons_cons _ _ x l').
    destruct (collect_polygons obj material [x] []) as [cx|]; [|exact I].
    unfold same_coords in *.
    destruct (collect_polygons obj material l []),
             (collect_polygons obj material l' []); try assumption.
    now apply Permutation_app_head.
  - rewrite (collect_polygons_cons _ _ y (x :: l)), (collect_polygons_cons _ _ x l),
            (collect_polygons_cons _ _ x (y :: l)), (collect_polygons_cons _ _ y l).
    destruct (collect_polygons obj material [y] []) as [cy|],
             (collect_polygons obj material [x] []) as [cx|],
             (collect_polygons obj material l []) as [c|]; simpl; try exact I.
    rewrite !app_assoc. apply Permutation_app_tail, Permutation_app_comm.
  - unfold same_coords in *.
    destruct (collect_polygons obj material l []),
             (collect_polygons obj material l' []),
             (collect_polygons obj material l'' []); try tauto.
    eapply perm_trans; eauto.
Qed.

Lemma get_uv_hash_no_uv obj material :
  uv_layers (data obj) = [] -> get_uv_hash obj material = Ok no_uv.
Proof.
  unfold get_uv_hash. now intros ->.
Qed.

Lemma get_uv_hash_material_not_found obj material :
  uv_layers (data obj) <> [] -> ~ In material (material_slots obj) ->
  get_uv_hash obj material = Ok material_not_found.
Proof.
  unfold get_uv_hash. intros Huv Hin.
  destruct (uv_layers (data obj)); [congruence|].
  destruct (dict_mem material _) eqn:E; [|reflexivity].
  apply material_indices_mem_In in E. contradiction.
Qed.

Lemma get_uv_hash_collected obj material c :
  uv_layers (data obj) <> [] -> In material (material_slots obj) ->
  collect_polygons obj material (polygons (data obj)) [] = Ok c ->
  get_uv_hash obj material =
  Ok (match sort c with [] => empty_uv | s => uv_hash (py_hash s) end).
Proof.
  unfold get_uv_hash. intros Huv Hin Hc.
  destruct (uv_layers (data obj)); [congruence|].
  apply material_indices_mem_In in Hin. rewrite Hin. simpl.
  rewrite Hc. now destruct (sort c).
Qed.

Lemma get_uv_hash_empty_uv obj material :
  uv_layers (data obj) <> [] -> In material (material_slots obj) ->
  (forall p, In p (polygons (data obj)) ->
             nth_error (material_slots obj) (material_index p) = Some material ->
             loop_indices p = []) ->
  get_uv_hash obj material = Ok empty_uv.
Proof.
  intros Huv Hin Hp.
  rewrite (get_uv_hash_collected obj material []); auto.
  now apply collect_polygons_no_loops.
Qed.

(** On a mesh whose UV coordinates hold no NaN the fingerprint does not
    depend on the order in which the faces are visited, whether it is a value
    or an exception. *)
Lemma get_uv_hash_face_order obj material polys' :
  (forall c, collect_polygons obj material (polygons (data obj)) [] = Ok c ->
             numbers c) ->
  Permutation (polygons (data obj)) polys' ->
  get_uv_hash obj material
  = get_uv_hash (set_polygons polys' obj) material.
Proof.
  intros Hn HP. unfold get_uv_hash. simpl.
  destruct (uv_layers (data obj)); [reflexivity|].
  destruct (negb _); [reflexivity|].
  assert (H := collect_polygons_perm obj material _ _ HP).
  rewrite (collect_polygons_same_object obj (set_polygons polys' obj)
             material polys' []) in H by reflexivity.
  unfold same_coords in H.
  destruct (collect_polygons obj material (polygons (data obj)) []) as [c1|e1] eqn:E1,
           (collect_polygons (set_polygons polys' obj) material polys' []) as [c2|e2] eqn:E2;
    try contradiction.
  - now rewrite (sort_permutation_eq _ _ (Hn c1 eq_refl) H).
  - apply collect_polygons_raise in E1, E2. subst. reflexivity.
Qed.

Lemma uv_le_numbers (x1 y1 x2 y2 : Z) :
  uv_le (Num x1, Num y1) (Num x2, Num y2)
  <-> (x1 < x2 \/ (x1 = x2 /\ y1 <= y2))%Z.
Proof.
  unfold uv_le, uv_leb, uv_lt. cbn [fst snd coord_eq coord_lt].
  destruct (Z.eqb_spec x2 x1) as [->|Hx]; cbn [negb].
  - destruct (Z.eqb_spec y2 y1) as [->|Hy]; cbn [negb].
    + split; [lia | reflexivity].
    + rewrite negb_true_iff, Z.ltb_ge. lia.
  - rewrite negb_true_iff, Z.ltb_ge. lia.
Qed.

(** C5, as the code has it: the fingerprint of a mesh/material pair whose
    rounded UV coordinates hold no NaN is a function of the multiset of those
    coordinates.  Whenever two pairs (two traversal orders of the faces of
    one mesh among them) contribute the same coordinates with the same
    multiplicities, in whatever order, the two fingerprints are equal: the
    list that is hashed is the contributed list put in ascending order, by
    [u] and then by [v], so both calls hash the same list. *)
Theorem get_uv_hash_order_independent :
  forall (obj1 obj2 : Object) (m1 m2 : option mat_id) (c1 c2 : list uv_coord),
    uv_layers (data obj1) <> [] -> uv_layers (data obj2) <> [] ->
    In m1 (material_slots obj1) -> In m2 (material_slots obj2) ->
    collect_polygons obj1 m1 (polygons (data obj1)) [] = Ok c1 ->
    collect_polygons obj2 m2 (polygons (data obj2)) [] = Ok c2 ->
    numbers c1 ->
    Permutation c1 c2 ->
    get_uv_hash obj1 m1 = get_uv_hash obj2 m2
    /\ Permutation (sort c1) c1
    /\ StronglySorted uv_le (sort c1)
    /\ (forall x1 y1 x2 y2 : Z,
          uv_le (Num x1, Num y1) (Num x2, Num y2)
          <-> (x1 < x2 \/ (x1 = x2 /\ y1 <= y2))%Z)
    /\ get_uv_hash obj1 m1 =
       Ok (match sort c1 with [] => empty_uv | s => uv_hash (py_hash s) end).
Proof.
  intros obj1 obj2 m1 m2 c1 c2 Hu1 Hu2 Hi1 Hi2 Hc1 Hc2 Hn HP.
  rewrite (get_uv_hash_collected obj1 m1 c1), (get_uv_hash_collected obj2 m2 c2);
    auto.
  rewrite <- (sort_permutation_eq c1 c2 Hn HP).
  split; [reflexivity|]. split; [now apply sort_perm|].
  split; [now apply sort_sorted|]. split; [apply uv_le_numbers | reflexivity].
Qed.

(** C9: a polygon whose [material_index] is not below the number of material
    slots is skipped.  The fingerprint is the one of the mesh without these
    polygons, indexing the slot list never raises, and a mesh made of such
    polygons only gets a fingerprint without any exception. *)
Theorem get_uv_hash_bad_material_index :
  forall (obj : Object) (material : option mat_id),
    get_uv_hash obj material
    = get_uv_hash
        (set_polygons (filter (index_in_range obj) (polygons (data obj))) obj)
        material
    /\ get_uv_hash obj material <> Raise (IndexError "material_slots")
    /\ ((forall p, In p (polygons (data obj)) -> index_in_range obj p = false) ->
        get_uv_hash obj material = Ok empty_uv
        \/ get_uv_hash obj material = Ok material_not_found
        \/ get_uv_hash obj material = Ok no_uv).
Proof.
  intros obj material. split; [|split].
  - unfold get_uv_hash. simpl.
    destruct (uv_layers (data obj)); [reflexivity|].
    destruct (negb _); [reflexivity|].
    now rewrite <- collect_polygons_in_range.
  - unfold get_uv_hash.
    destruct (uv_layers (data obj)); [discriminate|].
    destruct (negb _); [discriminate|].
    destruct (collect_polygons _ _ _ _) as [c|e] eqn:E.
    + destruct (sort c); discriminate.
    + apply collect_polygons_raise in E. subst e. unfold loop_error.
      destruct (uv_layers_active (data obj)); discriminate.
  - intros H. unfold get_uv_hash.
    destruct (uv_layers (data obj)); [now right; right|].
    destruct (negb _); [now right; left|].
    rewrite collect_polygons_out_of_range by assumption. now left.
Qed.

End FingerprintFacts.

(** ** Shading graphs: reroute and restore *)

Section GraphFacts.

Lemma Socket_eqb_eq (a b : Socket) : Socket_eqb a b = true <-> a = b.
Proof.
  unfold Socket_eqb. destruct a as [an ao ak], b as [bn bo bk]; simpl.
  rewrite !andb_true_iff, Nat.eqb_eq, Bool.eqb_true_iff, String.eqb_eq.
  split; [intros [[-> ->] ->]; reflexivity | intros H; injection H; auto].
Qed.



Lemma has_node_In (t : NodeTree) (i : node_id) :
  has_node t i = true <-> exists n, In n (nodes t) /\ node_ident n = i.
Proof.
  unfold has_node. rewrite existsb_exists.
  split; intros [n [Hin H]]; exists n; split; auto; now apply Nat.eqb_eq.
Qed.

Lemma fresh_node_id_above (t : NodeTree) (n : Node) :
  In n (nodes t) -> node_ident n < fresh_node_id t.
Proof.
  intros Hin. unfold fresh_node_id.
  assert (H : Forall (fun k => k <= list_max (map node_ident (nodes t)))
                     (map node_ident (nodes t))).
  { apply list_max_le. apply Nat.le_refl. }
  rewrite Forall_forall in H.
  specialize (H (node_ident n) (in_map _ _ _ Hin)). lia.
Qed.




Lemma filter_all {A} (f : A -> bool) (l : list A) :
  (forall x, In x l -> f x = true) -> filter f l = l.
Proof.
  induction l as [|a l IH]; simpl; intros H; [reflexivity|].
  rewrite (H a (or_introl eq_refl)). f_equal. apply IH. auto.
Qed.

Lemma filter_none {A} (f : A -> bool) (l : list A) :
  (forall x, In x l -> f x = false) -> filter f l = [].
Proof.
  induction l as [|a l IH]; simpl; intros H; [reflexivity|].
  rewrite (H a (or_introl eq_refl)). apply IH. auto.
Qed.

Lemma filter_twice {A} (f g : A -> bool) (l : list A) :
  filter f (filter g l) = filter (fun x => g x && f x) l.
Proof.
  induction l as [|a l IH]; simpl; [reflexivity|].
  destruct (g a); simpl; [destruct (f a)|]; now rewrite IH.
Qed.

Lemma map_id_on {A} (f : A -> A) (l : list A) :
  (forall x, In x l -> f x = x) -> map f l = l.
Proof.
  induction l as [|a l IH]; simpl; intros H; [reflexivity|].
  rewrite (H a (or_introl eq_refl)). f_equal. apply IH. auto.
Qed.

Lemma NoDup_snoc {A} (l : list A) (x : A) :
  NoDup l -> ~ In x l -> NoDup (l ++ [x]).
Proof.
  clear os_path_join os_path_dirname makedirs_raises blend_filepath.
  intros Hl Hx. apply NoDup_app; auto.
  - constructor; [simpl; tauto | constructor].
  - intros y Hy [<-|[]]. contradiction.
Qed.

(** *** What the loop of [restore_material_links] removes *)

Lemma remove_temporary_fold (l : list Node) (t : NodeTree) :
  let t' := fold_left (fun acc n => if is_temporary n
                                    then nodes_remove (node_ident n) acc else acc)
                      l t in
  nodes t' = filter (fun n => negb (id_in (temporary_ids l) (node_ident n))) (nodes t)
  /\ links t' =
     filter (fun x => negb (id_in (temporary_ids l) (sock_node (from_socket x)))
                      && negb (id_in (temporary_ids l) (sock_node (to_socket x))))
            (links t).
Proof.
  revert t. induction l as [|n l IH]; intros t; simpl.
  - split; symmetry; apply filter_all; reflexivity.
  - unfold temporary_ids. simpl. destruct (is_temporary n) eqn:En; simpl.
    + destruct (IH (nodes_remove (node_ident n) t)) as [Hn Hl].
      fold (temporary_ids l). split.
      * rewrite Hn. simpl. rewrite filter_twice. apply filter_ext.
        intros a. unfold id_in. simpl.
        now destruct (Nat.eqb (node_ident a) (node_ident n)).
      * rewrite Hl. simpl. rewrite filter_twice. apply filter_ext.
        intros a. unfold link_touches, id_in. simpl.
        destruct (Nat.eqb (sock_node (from_socket a)) (node_ident n)),
                 (Nat.eqb (sock_node (to_socket a)) (node_ident n)); simpl;
          rewrite ?andb_false_r, ?andb_true_r; reflexivity.
    + apply IH.
Qed.

Lemma remove_temporary_nodes_spec (t : NodeTree) :
  nodes (remove_temporary_nodes t)
  = filter (fun n => negb (id_in (temporary_ids (nodes t)) (node_ident n))) (nodes t)
  /\ links (remove_temporary_nodes t)
     = filter (fun x =>
                 negb (id_in (temporary_ids (nodes t)) (sock_node (from_socket x)))
                 && negb (id_in (temporary_ids (nodes t)) (sock_node (to_socket x))))
              (links t).
Proof.
  apply remove_temporary_fold.
Qed.

(** *** Calling [links.new] on each link of the snapshot *)



(** *** The reroute followed by the restore *)






Lemma id_in_spec (ids : list node_id) (i : node_id) :
  id_in ids i = true <-> In i ids.
Proof.
  unfold id_in. rewrite existsb_exists. split.
  - intros [x [Hx E]]. apply Nat.eqb_eq in E. now subst.
  - intros H. exists i. split; [assumption | apply Nat.eqb_refl].
Qed.




End GraphFacts.


(** ** Reasoning about stateful code *)

Section Respects.

Variable R : World -> World -> Prop.
Hypothesis R_refl : forall w, R w w.
Hypothesis R_trans : forall a b c, R a b -> R b c -> R a c.

(** Whatever the outcome, the world after [m] is related to the one before. *)
Definition respects {A} (m : M A) : Prop := forall w, R w (snd (m w)).

Lemma respects_ret {A} (a : A) : respects (ret a).
Proof using R_refl.
  intros w. apply R_refl.
Qed.

Lemma respects_raise {A} (e : exn) : respects (@raise A e).
Proof using R_refl.
  intros w. apply R_refl.
Qed.

Lemma respects_lift {A} (r : result A) : respects (lift r).
Proof using R_refl.
  intros w. apply R_refl.
Qed.

Lemma respects_bind {A B} (m : M A) (k : A -> M B) :
  respects m -> (forall a, respects (k a)) -> respects (bind m k).
Proof using R_trans.
  intros Hm Hk w. unfold bind. specialize (Hm w).
  destruct (m w) as [[a|e] w1]; simpl in *; [|assumption].
  eapply R_trans; [exact Hm | apply Hk].
Qed.

Lemma respects_try_except {A} (m : M A) (h : exn -> M A) :
  respects m -> (forall e, respects (h e)) -> respects (try_except m h).
Proof using R_trans.
  intros Hm Hh w. unfold try_except. specialize (Hm w).
  destruct (m w) as [[a|e] w1]; simpl in *; [assumption|].
  eapply R_trans; [exact Hm | apply Hh].
Qed.

Lemma respects_try_finally {A} (m : M A) (c : M unit) :
  respects m -> respects c -> respects (try_finally m c).
Proof using R_trans.
  intros Hm Hc w. unfold try_finally. specialize (Hm w).
  destruct (m w) as [r w1]; simpl in *. specialize (Hc w1).
  destruct (c w1) as [[u|e] w2]; simpl in *; eapply R_trans; eauto.
Qed.

Lemma respects_modify (f : World -> World) :
  (forall w, R w (f w)) -> respects (modify f).
Proof.
  intros H w. apply H.
Qed.

Lemma respects_for_each {A} (l : list A) (body : A -> M unit) :
  (forall x, respects (body x)) -> respects (for_each l body).
Proof using R_refl R_trans.
  intros H. induction l as [|x l IH]; simpl.
  - apply respects_ret.
  - apply respects_bind; auto.
Qed.

Lemma respects_get_material (m : mat_id) : respects (get_material m).
Proof using R_refl.
  intros w. unfold get_material. destruct (find_material m w); apply R_refl.
Qed.

Lemma respects_get_object (o : obj_id) : respects (get_object o).
Proof using R_refl.
  intros w. unfold get_object. destruct (nth_error _ o); apply R_refl.
Qed.

Lemma respects_read_slot (u : usage) : respects (read_slot u).
Proof using R_refl R_trans.
  unfold read_slot. apply respects_bind; [apply respects_get_object|].
  intros obj. destruct (nth_error _ _); [apply respects_ret | apply respects_raise].
Qed.

(** A computation that reads the world before it chooses what to run. *)
Lemma respects_reading {A} (f : World -> M A) :
  (forall w0, respects (f w0)) -> respects (fun w => f w w).
Proof.
  intros H w. apply (H w w).
Qed.

End Respects.

Lemma silent_refl (w : World) : silent w w.
Proof.
  split; [reflexivity|]. exists []. now rewrite app_nil_r.
Qed.

Lemma bakes_app (a b : list Event) : bakes (a ++ b) = bakes a ++ bakes b.
Proof.
  apply filter_app.
Qed.

Lemma silent_trans (a b c : World) : silent a b -> silent b c -> silent a c.
Proof.
  intros [Ha [n1 [E1 B1]]] [Hb [n2 [E2 B2]]]. split; [congruence|].
  exists (n1 ++ n2). split.
  - now rewrite E2, E1, app_assoc.
  - now rewrite bakes_app, B1, B2.
Qed.

Lemma visited_app (a b : list Event) : visited (a ++ b) = visited a ++ visited b.
Proof.
  apply flat_map_app.
Qed.

Lemma steady_refl (m : mat_id) (w : World) : steady m w w.
Proof.
  split; [reflexivity | auto |]. exists []. split; [now rewrite app_nil_r|].
  split; [reflexivity | intros e []].
Qed.

Lemma steady_trans (m : mat_id) (a b c : World) :
  steady m a b -> steady m b c -> steady m a c.
Proof.
  intros [Oa Ta [n1 [E1 [V1 B1]]]] [Ob Tb [n2 [E2 [V2 B2]]]]. split.
  - congruence.
  - auto.
  - exists (n1 ++ n2). split; [now rewrite E2, E1, app_assoc|].
    split; [now rewrite visited_app, V1, V2|].
    intros e He. apply in_app_or in He. destruct He; auto.
Qed.

Lemma renaming_refl (w : World) : renaming w w.
Proof.
  now split.
Qed.

Lemma renaming_trans (a b c : World) : renaming a b -> renaming b c -> renaming a c.
Proof.
  intros [] []. split; congruence.
Qed.


(** ** Running the monad *)

Lemma bind_ok {A B} (m : M A) (k : A -> M B) w a w1 :
  m w = (Ok a, w1) -> bind m k w = k a w1.
Proof.
  unfold bind. now intros ->.
Qed.

Lemma bind_raise {A B} (m : M A) (k : A -> M B) w e w1 :
  m w = (Raise e, w1) -> bind m k w = (Raise e, w1).
Proof.
  unfold bind. now intros ->.
Qed.

Lemma get_object_ok o obj w :
  nth_error (scene_objects w) o = Some obj -> get_object o w = (Ok obj, w).
Proof.
  unfold get_object. now intros ->.
Qed.

Lemma get_material_ok m mat w :
  find_material m w = Some mat -> get_material m w = (Ok mat, w).
Proof.
  unfold get_material. now intros ->.
Qed.

Lemma get_material_none m w :
  find_material m w = None ->
  get_material m w = (Raise (ReferenceError "material"), w).
Proof.
  unfold get_material. now intros ->.
Qed.

Lemma read_slot_ok u obj s w :
  nth_error (scene_objects w) (fst u) = Some obj ->
  nth_error (material_slots obj) (snd u) = Some s ->
  read_slot u w = (Ok s, w).
Proof.
  intros Ho Hs. unfold read_slot.
  rewrite (bind_ok _ _ _ _ _ (get_object_ok _ _ _ Ho)). cbv beta. now rewrite Hs.
Qed.

(** ** The resolver *)

Section ResolverFacts.

Lemma fingerprint_eqb_eq (a b : fingerprint) : fingerprint_eqb a b = true <-> a = b.
Proof.
  destruct a, b; simpl; try (split; congruence).
  rewrite Z.eqb_eq. split; congruence.
Qed.

Lemma fingerprint_eqb_refl (a : fingerprint) : fingerprint_eqb a a = true.
Proof.
  now apply fingerprint_eqb_eq.
Qed.

Lemma usage_key_eqb_eq (a b : usage_key) : usage_key_eqb a b = true <-> a = b.
Proof.
  unfold usage_key_eqb. destruct a as [am af], b as [bm bf]; simpl.
  rewrite andb_true_iff, Nat.eqb_eq, fingerprint_eqb_eq.
  split; [intros [-> ->]; reflexivity | intros H; injection H; auto].
Qed.

Lemma usage_append_In d k u key us :
  In (key, us) (usage_append d k u) ->
  In (key, us) d
  \/ (key = k /\ exists old, us = old ++ [u] /\ (old = [] \/ In (key, old) d)).
Proof.
  induction d as [|[k' us'] d IH]; simpl.
  - intros [H|[]]. injection H as <- <-. right. split; [reflexivity|].
    exists []. split; [reflexivity | now left].
  - destruct (usage_key_eqb k' k) eqn:E; simpl.
    + intros [H|H]; [|left; now right].
      injection H as <- <-. apply usage_key_eqb_eq in E. subst k'.
      right. split; [reflexivity|]. exists us'. split; [reflexivity|].
      right. now left.
    + intros [H|H]; [left; now left|].
      destruct (IH H) as [H'|[-> [old [-> Hold]]]]; [left; now right|].
      right. split; [reflexivity|]. exists old. split; [reflexivity|].
      destruct Hold; [now left | right; now right].
Qed.

Lemma usage_sound_append objs d m uv o si obj :
  usage_sound objs d ->
  nth_error objs o = Some obj ->
  nth_error (material_slots obj) si = Some (Some m) ->
  get_uv_hash obj (Some m) = Ok uv ->
  usage_sound objs (usage_append d (m, uv) (o, si)).
Proof.
  intros Hs Ho Hsl Hh key us u Hin Hu.
  apply usage_append_In in Hin.
  destruct Hin as [Hin|[-> [old [-> Hold]]]]; [eapply Hs; eauto|].
  apply in_app_or in Hu. destruct Hu as [Hu|[<-|[]]].
  - destruct Hold as [->|Hold]; [destruct Hu | eapply Hs; eauto].
  - exists obj. auto.
Qed.

Lemma enumerate_from_nth {A} (l : list A) k i x :
  In (i, x) (enumerate_from k l) -> k <= i /\ nth_error l (i - k) = Some x.
Proof.
  clear save_raises os_path_join os_path_dirname makedirs_raises blend_filepath bake_raises.
  revert k. induction l as [|a l IH]; intros k; simpl; [tauto|].
  intros [H|H].
  - injection H as <- <-. split; [lia|]. now rewrite Nat.sub_diag.
  - apply IH in H. destruct H as [Hk Hn]. split; [lia|].
    replace (i - k) with (S (i - S k)) by lia. exact Hn.
Qed.

Lemma enumerate_nth {A} (l : list A) i x :
  In (i, x) (enumerate_from 0 l) -> nth_error l i = Some x.
Proof.
  intros H. apply enumerate_from_nth in H. now rewrite Nat.sub_0_r in H.
Qed.

Lemma pass1_slots_sound objs o obj (ps : list (nat * option mat_id)) d :
  nth_error objs o = Some obj ->
  (forall p, In p ps -> nth_error (material_slots obj) (fst p) = Some (snd p)) ->
  usage_sound objs d ->
  usage_sound objs (fold_left (pass1_slot obj o) ps d).
Proof.
  intros Ho. revert d. induction ps as [|[si slot] ps IH]; intros d Hps Hd; simpl.
  - exact Hd.
  - apply IH; [intros p Hp; apply Hps; now right|].
    unfold pass1_slot. simpl. destruct slot as [m|]; [|exact Hd].
    destruct (get_uv_hash obj (Some m)) as [uv|] eqn:E; [|exact Hd].
    eapply usage_sound_append; eauto.
    apply (Hps (si, Some m)). now left.
Qed.

Lemma pass1_objects_sound objs (ps : list (obj_id * Object)) d :
  (forall p, In p ps -> nth_error objs (fst p) = Some (snd p)) ->
  usage_sound objs d ->
  usage_sound objs (fold_left pass1_object ps d).
Proof.
  revert d. induction ps as [|[o obj] ps IH]; intros d Hps Hd; simpl.
  - exact Hd.
  - apply IH; [intros p Hp; apply Hps; now right|].
    unfold pass1_object. simpl. destruct (is_mesh _); [|exact Hd].
    apply pass1_slots_sound; auto.
    + apply (Hps (o, obj)). now left.
    + intros [si slot] Hp. now apply enumerate_nth.
Qed.

Lemma collect_material_usage_sound (objs : list Object) :
  usage_sound objs (collect_material_usage objs).
Proof.
  apply pass1_objects_sound.
  - intros [o obj] Hp. now apply enumerate_nth.
  - intros key us u [].
Qed.

(** The re-check of pass 2 finds the fingerprint of the group again and
    leaves the usage alone. *)
Lemma process_other_usage_unchanged original_material uv u obj w :
  nth_error (scene_objects w) (fst u) = Some obj ->
  nth_error (material_slots obj) (snd u) = Some (Some original_material) ->
  get_uv_hash obj (Some original_material) = Ok uv ->
  process_other_usage original_material uv u w = (Ok tt, w).
Proof.
  intros Ho Hs Hh.
  unfold process_other_usage, try_except.
  rewrite (bind_ok _ _ _ _ _ (get_object_ok _ _ _ Ho)). cbv beta.
  rewrite (bind_ok _ _ _ _ _ (read_slot_ok _ _ _ _ Ho Hs)). cbv beta.
  rewrite Hh. unfold bind, lift.
  now rewrite fingerprint_eqb_refl.
Qed.

Lemma for_each_others_unchanged original_material uv others w :
  (forall u, In u others ->
     exists obj, nth_error (scene_objects w) (fst u) = Some obj
                 /\ nth_error (material_slots obj) (snd u)
                    = Some (Some original_material)
                 /\ get_uv_hash obj (Some original_material) = Ok uv) ->
  for_each others (process_other_usage original_material uv) w = (Ok tt, w).
Proof.
  induction others as [|u others IH]; intros H; simpl; [reflexivity|].
  destruct (H u (or_introl eq_refl)) as [obj [Ho [Hs Hh]]].
  unfold bind. rewrite (process_other_usage_unchanged _ _ _ obj) by assumption.
  apply IH. intros u' Hu'. apply H. now right.
Qed.

Lemma put_material_renaming (mat : Material) (name : string) (w : World) :
  renaming w (snd (put_material (rename_material name mat) w)).
Proof.
  unfold put_material, modify. simpl. split; simpl; try reflexivity.
  - rewrite map_map. apply map_ext_in. intros old _. simpl.
    destruct (Nat.eqb_spec (mat_ident old) (mat_ident mat)); [|reflexivity].
    simpl. congruence.
Qed.

(** One entry of the dict: nothing happens, or the rename fails (the material
    of the key is missing or linked from a library) and nothing has changed,
    or it is renamed and every slot of the group is left as it is. *)
Lemma process_group_spec m uv usages w :
  (forall u, In u usages ->
     exists obj, nth_error (scene_objects w) (fst u) = Some obj
                 /\ nth_error (material_slots obj) (snd u) = Some (Some m)
                 /\ get_uv_hash obj (Some m) = Ok uv) ->
  (Nat.ltb 1 (List.length usages) && negb (is_sentinel uv) = false
   /\ process_group ((m, uv), usages) w = (Ok tt, w))
  \/ (Nat.ltb 1 (List.length usages) && negb (is_sentinel uv) = true
      /\ (find_material m w = None
          \/ exists mat, find_material m w = Some mat /\ mat_linked mat = true)
      /\ exists e, process_group ((m, uv), usages) w = (Raise e, w))
  \/ (Nat.ltb 1 (List.length usages) && negb (is_sentinel uv) = true
      /\ exists mat first first_obj,
           find_material m w = Some mat
           /\ hd_error usages = Some first
           /\ nth_error (scene_objects w) (fst first) = Some first_obj
           /\ process_group ((m, uv), usages) w
              = (Ok tt,
                 snd (put_material
                        (rename_material
                           (unique_name (other_names m w)
                              (mat_name mat ++ "_MASTER_" ++ obj_name first_obj))
                           mat)
                        w))
           /\ mat_linked mat = false).
Proof.
  intros Hs. unfold process_group. cbv beta iota.
  destruct (Nat.ltb 1 (List.length usages) && negb (is_sentinel uv)) eqn:Ec;
    [right | left; auto].
  destruct usages as [|first others]; [discriminate|].
  destruct (Hs first (or_introl eq_refl)) as [first_obj [Ho _]].
  cbv beta iota.
  rewrite (bind_ok _ _ _ _ _ (get_object_ok _ _ _ Ho)). cbv beta.
  destruct (find_material m w) as [mat|] eqn:Em.
  - rewrite (bind_ok _ _ _ _ _ (get_material_ok _ _ _ Em)). cbv beta.
    unfold set_material_name.
    destruct (mat_linked mat) eqn:El.
    + left. split; [reflexivity|]. split; [right; now exists mat|].
      exists (AttributeError "name").
      unfold bind, get_material. rewrite Em, El. reflexivity.
    + right. split; [reflexivity|]. exists mat, first, first_obj.
      split; [reflexivity|]. split; [reflexivity|]. split; [exact Ho|].
      split; [|exact El].
      unfold bind at 1. unfold bind at 1. unfold get_material at 1.
      rewrite Em, El.
      unfold put_material at 1, modify at 1.
      apply for_each_others_unchanged.
      intros u Hu. simpl. apply Hs. now right.
  - left. split; [reflexivity|]. split; [now left|].
    exists (ReferenceError "material").
    now rewrite (bind_raise _ _ _ _ _ (get_material_none _ _ Em)).
Qed.

Lemma process_group_renaming m uv usages w :
  (forall u, In u usages ->
     exists obj, nth_error (scene_objects w) (fst u) = Some obj
                 /\ nth_error (material_slots obj) (snd u) = Some (Some m)
                 /\ get_uv_hash obj (Some m) = Ok uv) ->
  renaming w (snd (process_group ((m, uv), usages) w)).
Proof.
  intros Hs.
  destruct (process_group_spec m uv usages w Hs)
    as [[_ ->]|[[_ [_ [e0 ->]]]|[_ [mat [first [fo [_ [_ [_ [-> _]]]]]]]]]]; simpl.
  - apply renaming_refl.
  - apply renaming_refl.
  - apply put_material_renaming.
Qed.

Lemma for_each_groups_renaming d w :
  usage_sound (scene_objects w) d ->
  renaming w (snd (for_each d process_group w)).
Proof.
  revert w. induction d as [|[[m uv] usages] d IH]; intros w Hs; cbn [for_each].
  - apply renaming_refl.
  - assert (H1 : renaming w (snd (process_group ((m, uv), usages) w))).
    { apply process_group_renaming. intros u Hu.
      apply (Hs (m, uv) usages u); [now left | assumption]. }
    unfold bind. destruct (process_group ((m, uv), usages) w) as [[[]|e] w1];
      cbn [snd] in *; [|assumption].
    eapply renaming_trans; [exact H1|]. apply IH.
    rewrite (renaming_objects _ _ H1).
    intros key us u Hin Hu. apply (Hs key us u); [now right | assumption].
Qed.

(** The resolver leaves every slot as it found it and adds no material: it
    only renames. *)
Lemma duplicate_shared_materials_renaming (w : World) :
  renaming w (snd (duplicate_shared_materials w)).
Proof.
  unfold duplicate_shared_materials.
  apply for_each_groups_renaming, collect_material_usage_sound.
Qed.

End ResolverFacts.


(** ** Sentinel fingerprints *)

Lemma process_group_sentinel original_material uv usages w :
  is_sentinel uv = true ->
  process_group ((original_material, uv), usages) w = (Ok tt, w).
Proof.
  intros H. unfold process_group. cbv beta iota. rewrite H.
  now rewrite andb_false_r.
Qed.

Lemma for_each_skips_sentinels d w :
  for_each d process_group w
  = for_each (filter (fun entry => negb (is_sentinel (snd (fst entry)))) d)
             process_group w.
Proof.
  revert w. induction d as [|[[m uv] usages] d IH]; intros w; [reflexivity|].
  cbn [for_each filter fst snd].
  destruct (is_sentinel uv) eqn:E; cbn [negb for_each].
  - unfold bind. rewrite process_group_sentinel by assumption. apply IH.
  - unfold bind. destruct (process_group _ w) as [[[]|e] w1]; [apply IH | reflexivity].
Qed.

(** C6: the fingerprint is [no_uv] for a mesh without UV layer; with a UV
    layer it is [material_not_found] when no slot holds the material, and
    [empty_uv] when a slot holds it but no face assigned to it has a loop.
    A group of the resolver whose key carries one of these three values is
    passed over: neither renamed nor split, also when it gathers several
    usages, so the resolver acts as if these usages had not been recorded. *)
Theorem sentinel_fingerprints :
  forall (obj : Object) (material : option mat_id),
    (uv_layers (data obj) = [] -> get_uv_hash obj material = Ok no_uv)
    /\ (uv_layers (data obj) <> [] -> ~ In material (material_slots obj) ->
        get_uv_hash obj material = Ok material_not_found)
    /\ (uv_layers (data obj) <> [] -> In material (material_slots obj) ->
        (forall p, In p (polygons (data obj)) ->
                   nth_error (material_slots obj) (material_index p) = Some material ->
                   loop_indices p = []) ->
        get_uv_hash obj material = Ok empty_uv)
    /\ (forall original_material uv usages w,
          is_sentinel uv = true ->
          process_group ((original_material, uv), usages) w = (Ok tt, w))
    /\ (forall w,
          duplicate_shared_materials w
          = for_each (filter (fun entry => negb (is_sentinel (snd (fst entry))))
                             (collect_material_usage (scene_objects w)))
                     process_group w).
Proof.
  intros obj material. repeat split.
  - apply get_uv_hash_no_uv.
  - apply get_uv_hash_material_not_found.
  - apply get_uv_hash_empty_uv.
  - intros. now apply process_group_sentinel.
  - intros w. unfold duplicate_shared_materials. apply for_each_skips_sentinels.
Qed.


(** ** The [Bake_Target] node through the operations on a tree *)

Section TargetFacts.

Lemma target_safe_update_node (i : node_id) (f : Node -> Node) (t : NodeTree) :
  (forall n, node_ident (f n) = node_ident n) ->
  (forall n, node_name (f n) = node_name n) ->
  (forall n, node_type (f n) = node_type n) ->
  target_safe t -> target_safe (update_node i f t).
Proof.
  intros Hi Hn Ht [n [Hin [Hname [Htype Hsafe]]]].
  set (g := fun n => if Nat.eqb (node_ident n) i then f n else n).
  assert (Hgi : forall x, node_ident (g x) = node_ident x).
  { intros x. unfold g. destruct (Nat.eqb _ _); auto. }
  assert (Hgn : forall x, node_name (g x) = node_name x).
  { intros x. unfold g. destruct (Nat.eqb _ _); auto. }
  assert (Hgt : forall x, node_type (g x) = node_type x).
  { intros x. unfold g. destruct (Nat.eqb _ _); auto. }
  exists (g n). simpl. fold g. repeat split.
  - now apply in_map.
  - now rewrite Hgn.
  - now rewrite Hgt.
  - intros n' Hin' Htmp. apply in_map_iff in Hin'.
    destruct Hin' as [x [<- Hx]]. rewrite !Hgi. apply Hsafe; [assumption|].
    unfold is_temporary in *. now rewrite Hgt in Htmp.
Qed.

Lemma target_safe_nodes_new (c : bl_idname) (t : NodeTree) :
  target_safe t -> target_safe (snd (nodes_new c t)).
Proof.
  intros [n [Hin [Hname [Htype Hsafe]]]]. exists n. simpl. repeat split; auto.
  - apply in_or_app. now left.
  - intros n' Hin' Htmp. apply in_app_or in Hin'.
    destruct Hin' as [Hin'|[<-|[]]]; [now apply Hsafe|]. simpl.
    apply fresh_node_id_above in Hin. lia.
Qed.

Lemma target_safe_same_nodes (t t' : NodeTree) :
  nodes t' = nodes t -> target_safe t -> target_safe t'.
Proof.
  unfold target_safe. now intros ->.
Qed.

Lemma links_new_nodes src dst t t' :
  links_new src dst t = Ok t' -> nodes t' = nodes t.
Proof.
  unfold links_new. destruct (_ && _); intros H; injection H as <-; reflexivity.
Qed.

Lemma relink_nodes (ls : list Link) (t : NodeTree) :
  nodes (snd (relink ls t)) = nodes t.
Proof.
  revert t. induction ls as [|l ls IH]; intros t; simpl; [reflexivity|].
  destruct (links_new _ _ t) as [t'|e] eqn:E; [|reflexivity].
  rewrite IH. eapply links_new_nodes; eauto.
Qed.

Lemma target_safe_remove_temporary (t : NodeTree) :
  target_safe t -> target_safe (remove_temporary_nodes t).
Proof.
  intros [n [Hin [Hname [Htype Hsafe]]]].
  destruct (remove_temporary_nodes_spec t) as [Hn _].
  exists n. rewrite Hn. repeat split; auto.
  - apply filter_In. split; [assumption|]. apply negb_true_iff.
    destruct (id_in _ _) eqn:E; [|reflexivity].
    apply id_in_spec in E. unfold temporary_ids in E.
    apply in_map_iff in E. destruct E as [n' [Eid Hn']].
    apply filter_In in Hn'. destruct Hn' as [Hn' Htmp].
    exfalso. now apply (Hsafe n' Hn' Htmp).
  - intros n' Hin' Htmp. apply filter_In in Hin'. now apply Hsafe.
Qed.

Lemma target_safe_restore (ls : list Link) (t : NodeTree) :
  target_safe t -> target_safe (snd (restore_material_links_tree ls t)).
Proof.
  intros H. unfold restore_material_links_tree.
  eapply target_safe_same_nodes; [apply relink_nodes|].
  now apply target_safe_remove_temporary.
Qed.

Lemma target_safe_setup_metallic (t : NodeTree) :
  target_safe t -> target_safe (snd (setup_metallic_nodes_tree t)).
Proof.
  intros H. unfold setup_metallic_nodes_tree.
  destruct (nodes_new ShaderNodeEmission t) as [emit t1] eqn:E1.
  assert (H1 : target_safe t1).
  { replace t1 with (snd (nodes_new ShaderNodeEmission t)) by now rewrite E1.
    now apply target_safe_nodes_new. }
  destruct (match nodes_get "Material Output" t1 with
            | Some o => (o, t1)
            | None => nodes_new ShaderNodeOutputMaterial t1
            end) as [output t2] eqn:E2.
  assert (H2 : target_safe t2).
  { destruct (nodes_get "Material Output" t1).
    - injection E2 as _ <-. exact H1.
    - replace t2 with (snd (nodes_new ShaderNodeOutputMaterial t1)) by now rewrite E2.
      now apply target_safe_nodes_new. }
  destruct (match find (fun n => NodeType_eqb (node_type n) BSDF_PRINCIPLED) (nodes t2) with
            | Some p => (p, t2)
            | None => nodes_new ShaderNodeBsdfPrincipled t2
            end) as [principled t3] eqn:E3.
  assert (H3 : target_safe t3).
  { destruct (find _ (nodes t2)).
    - injection E3 as _ <-. exact H2.
    - replace t3 with (snd (nodes_new ShaderNodeBsdfPrincipled t2)) by now rewrite E3.
      now apply target_safe_nodes_new. }
  destruct (socket_links t3 (node_input principled "Metallic")) as [|l0 ls0].
  - destruct (nodes_new ShaderNodeValue t3) as [value t4] eqn:E4.
    assert (H4 : target_safe (update_node (node_ident value)
                                (set_output_default (metallic_default principled)) t4)).
    { apply target_safe_update_node; try reflexivity.
      replace t4 with (snd (nodes_new ShaderNodeValue t3)) by now rewrite E4.
      now apply target_safe_nodes_new. }
    destruct (links_new _ _ _) as [t6|e] eqn:E6; [|exact H4].
    assert (H6 : target_safe t6).
    { eapply target_safe_same_nodes; [eapply links_new_nodes; eauto | exact H4]. }
    destruct (links_new _ _ t6) as [t7|e] eqn:E7; [|exact H6].
    eapply target_safe_same_nodes; [eapply links_new_nodes; eauto | exact H6].
  - destruct (links_new _ _ _) as [t6|e] eqn:E6; [|exact H3].
    assert (H6 : target_safe t6).
    { eapply target_safe_same_nodes; [eapply links_new_nodes; eauto | exact H3]. }
    destruct (links_new _ _ t6) as [t7|e] eqn:E7; [|exact H6].
    eapply target_safe_same_nodes; [eapply links_new_nodes; eauto | exact H6].
Qed.

(** Whatever the tree was, [setup_bake_node] leaves a [Bake_Target] node. *)
Lemma target_safe_setup_bake_node (t : NodeTree) :
  target_safe (snd (setup_bake_node_tree t)).
Proof.
  unfold setup_bake_node_tree.
  set (t1 := match nodes_get "Bake_Target" t with
             | Some existing => nodes_remove (node_ident existing) t
             | None => t
             end).
  destruct (nodes_new ShaderNodeTexImage t1) as [bake_node t2] eqn:E2.
  unfold nodes_new in E2. injection E2 as Eb Et2. cbn [snd fst].
  assert (Hid : node_ident bake_node = fresh_node_id t1) by (rewrite <- Eb; reflexivity).
  set (f1 := fun n => if Nat.eqb (node_ident n) (node_ident bake_node)
                      then set_name "Bake_Target" n else n).
  set (f2 := fun n => if Nat.eqb (node_ident n) (node_ident bake_node)
                      then set_select true n else n).
  assert (Hi : forall n, node_ident (f2 (f1 n)) = node_ident n).
  { intros n. unfold f1, f2.
    destruct (Nat.eqb (node_ident n) _) eqn:E; simpl; rewrite E; reflexivity. }
  assert (Ht : forall n, node_type (f2 (f1 n)) = node_type n).
  { intros n. unfold f1, f2.
    destruct (Nat.eqb (node_ident n) _) eqn:E; simpl; rewrite E; reflexivity. }
  assert (Hnodes : nodes (set_active (node_ident bake_node)
                    (update_node (node_ident bake_node) (set_select true)
                       (update_node (node_ident bake_node) (set_name "Bake_Target") t2)))
                   = map (fun n => f2 (f1 n)) (nodes t1 ++ [bake_node])).
  { rewrite Eb in Et2. rewrite <- Et2. unfold set_active, update_node.
    cbn [nodes]. now rewrite map_map. }
  exists (f2 (f1 bake_node)). rewrite Hnodes. repeat split.
  - apply (in_map (fun n => f2 (f1 n))). apply in_or_app. right. now left.
  - unfold f1, f2. rewrite Nat.eqb_refl. simpl. now rewrite Nat.eqb_refl.
  - rewrite Ht. rewrite <- Eb. reflexivity.
  - intros n' Hin' Htmp. apply in_map_iff in Hin'. destruct Hin' as [x [<- Hx]].
    rewrite !Hi. unfold is_temporary in Htmp. rewrite Ht in Htmp.
    apply in_app_or in Hx. destruct Hx as [Hx|[<-|[]]].
    + apply fresh_node_id_above in Hx. lia.
    + rewrite <- Eb in Htmp. discriminate.
Qed.

End TargetFacts.


(** ** Materials of the world *)

Section WorldFacts.

Lemma find_material_ident m mat w :
  find_material m w = Some mat -> mat_ident mat = m.
Proof.
  unfold find_material. intros H. apply find_some in H.
  now apply Nat.eqb_eq.
Qed.

Lemma find_material_put mat' m w :
  find_material m (snd (put_material mat' w)) =
  if Nat.eqb m (mat_ident mat')
  then match find_material m w with
       | Some _ => Some mat'
       | None => None
       end
  else find_material m w.
Proof.
  unfold find_material, put_material, modify. simpl.
  induction (bpy_materials w) as [|old l IH]; simpl.
  - now destruct (Nat.eqb m (mat_ident mat')).
  - destruct (Nat.eqb_spec (mat_ident old) (mat_ident mat')) as [E|E].
    + destruct (Nat.eqb_spec m (mat_ident mat')) as [E'|E'].
      * subst m. rewrite Nat.eqb_refl.
        rewrite E. now rewrite Nat.eqb_refl.
      * destruct (Nat.eqb_spec (mat_ident mat') m); [congruence|].
        destruct (Nat.eqb_spec (mat_ident old) m); [congruence|].
        rewrite IH. destruct (Nat.eqb_spec m (mat_ident mat')); [congruence|reflexivity].
    + destruct (Nat.eqb_spec (mat_ident old) m) as [E'|E'].
      * destruct (Nat.eqb_spec m (mat_ident mat')); [congruence | reflexivity].
      * exact IH.
Qed.

Lemma tree_of_put_same m mat mat' w :
  find_material m w = Some mat -> mat_ident mat' = m ->
  tree_of m (snd (put_material mat' w)) = node_tree mat'.
Proof.
  intros Hf Hi. unfold tree_of. rewrite find_material_put, Hi, Nat.eqb_refl, Hf.
  reflexivity.
Qed.

Lemma tree_of_put_other m mat' w :
  m <> mat_ident mat' ->
  tree_of m (snd (put_material mat' w)) = tree_of m w.
Proof.
  intros Hi. unfold tree_of. rewrite find_material_put.
  destruct (Nat.eqb_spec m (mat_ident mat')); [contradiction | reflexivity].
Qed.

Lemma tree_of_frame m w w' :
  bpy_materials w' = bpy_materials w -> tree_of m w' = tree_of m w.
Proof.
  unfold tree_of, find_material. now intros ->.
Qed.

Lemma steady_frame m w w' new :
  scene_objects w' = scene_objects w ->
  bpy_materials w' = bpy_materials w ->
  events w' = events w ++ new ->
  visited new = [] ->
  (forall e, In e new -> is_bake e = true -> is_bake_of m e = true) ->
  steady m w w'.
Proof.
  intros Ho Hm He Hv Hb. split; [assumption | | eauto].
  intros m' [t [Ht Hs]]. exists t. split; [|assumption].
  now rewrite (tree_of_frame m' w w').
Qed.

(** Storing a tree that still holds the target whenever the old one did. *)
Lemma steady_put_tree m m0 mat use t' w :
  find_material m0 w = Some mat ->
  (forall t, node_tree mat = Some t -> target_safe t -> target_safe t') ->
  steady m w (snd (put_material (with_tree use (Some t') mat) w)).
Proof.
  intros Hf Ht. assert (Hi := find_material_ident _ _ _ Hf). split.
  - reflexivity.
  - intros m' [t [Htree Hs]]. destruct (Nat.eq_dec m' m0) as [->|Hne].
    + exists t'. split.
      * now rewrite (tree_of_put_same m0 mat).
      * apply (Ht t); [|assumption]. unfold tree_of in Htree. now rewrite Hf in Htree.
    + exists t. split; [|assumption].
      rewrite tree_of_put_other; [assumption|]. simpl. congruence.
  - exists []. split; [now rewrite app_nil_r|].
    split; [reflexivity | intros e []].
Qed.

Lemma silent_frame w w' new :
  active_object w' = active_object w ->
  events w' = events w ++ new -> bakes new = [] ->
  silent w w'.
Proof.
  intros Ha He Hb. split; eauto.
Qed.

Lemma put_material_ok mat w :
  put_material mat w = (Ok tt, snd (put_material mat w)).
Proof.
  reflexivity.
Qed.

Lemma silent_put_material mat w : silent w (snd (put_material mat w)).
Proof.
  apply (silent_frame _ _ []); [reflexivity | now rewrite app_nil_r | reflexivity].
Qed.

End WorldFacts.

(** ** The steps of a bake leave the scene steady *)

Section StepFacts.

Variable m : mat_id.

Local Abbreviation steady_bind := (respects_bind (steady m) (steady_trans m)).
Local Abbreviation steady_ret := (respects_ret (steady m) (steady_refl m)).
Local Abbreviation steady_raise := (respects_raise (steady m) (steady_refl m)).
Local Abbreviation steady_lift := (respects_lift (steady m) (steady_refl m)).
Local Abbreviation steady_get_material := (respects_get_material (steady m) (steady_refl m)).
Local Abbreviation silent_bind := (respects_bind silent silent_trans).
Local Abbreviation silent_ret := (respects_ret silent silent_refl).
Local Abbreviation silent_raise := (respects_raise silent silent_refl).
Local Abbreviation silent_lift := (respects_lift silent silent_refl).
Local Abbreviation silent_get_material := (respects_get_material silent silent_refl).

Lemma steady_makedirs p : respects (steady m) (makedirs p).
Proof.
  unfold makedirs. destruct (makedirs_raises p); [apply steady_raise|].
  intros w. apply (steady_frame m _ _ []); try reflexivity.
  - now rewrite app_nil_r.
  - intros e [].
Qed.

Lemma silent_makedirs p : respects silent (makedirs p).
Proof.
  unfold makedirs. destruct (makedirs_raises p); [apply silent_raise|].
  intros w. apply (silent_frame _ _ []); try reflexivity. now rewrite app_nil_r.
Qed.

Lemma steady_create_material_folder name path :
  respects (steady m) (create_material_folder name path).
Proof.
  unfold create_material_folder.
  apply (respects_reading (steady m)
           (fun w0 => (if path_exists (os_path_join path name) w0 then ret tt
                       else makedirs (os_path_join path name)) ;;;
                      ret (os_path_join path name))).
  intros w0.
  apply steady_bind; [|intros; apply steady_ret].
  destruct (path_exists _ w0); [apply steady_ret | apply steady_makedirs].
Qed.

Lemma silent_create_material_folder name path :
  respects silent (create_material_folder name path).
Proof.
  unfold create_material_folder.
  apply (respects_reading silent
           (fun w0 => (if path_exists (os_path_join path name) w0 then ret tt
                       else makedirs (os_path_join path name)) ;;;
                      ret (os_path_join path name))).
  intros w0.
  apply silent_bind; [|intros; apply silent_ret].
  destruct (path_exists _ w0); [apply silent_ret | apply silent_makedirs].
Qed.

Lemma steady_create_bake_image name : respects (steady m) (_create_bake_image name).
Proof.
  unfold _create_bake_image. apply steady_bind; [|intros; apply steady_ret].
  intros w. apply (steady_frame m _ _ []); try reflexivity.
  - now rewrite app_nil_r.
  - intros e [].
Qed.

Lemma silent_create_bake_image name : respects silent (_create_bake_image name).
Proof.
  unfold _create_bake_image. apply silent_bind; [|intros; apply silent_ret].
  intros w. apply (silent_frame _ _ []); try reflexivity. now rewrite app_nil_r.
Qed.

Lemma steady_save image path filename :
  respects (steady m) (_save_baked_image image path filename).
Proof.
  intros w. unfold _save_baked_image.
  destruct (save_raises (save_calls w)); simpl;
    (eapply steady_frame; [reflexivity | reflexivity | reflexivity | reflexivity |]);
    intros e [<-|[]]; discriminate.
Qed.

Lemma silent_save image path filename :
  respects silent (_save_baked_image image path filename).
Proof.
  intros w. unfold _save_baked_image.
  destruct (save_raises (save_calls w)); simpl;
    (eapply silent_frame; [reflexivity | reflexivity | reflexivity]).
Qed.

Lemma steady_bake bake_type : respects (steady m) (bake bake_type m).
Proof.
  intros w. unfold bake.
  destruct (bake_raises (bake_calls w)); simpl;
    (eapply steady_frame; [reflexivity | reflexivity | reflexivity | reflexivity |]);
    intros e [<-|[]] _; simpl; apply Nat.eqb_refl.
Qed.

Lemma steady_log e :
  is_bake e = false -> visited [e] = [] -> respects (steady m) (log e).
Proof.
  intros He Hv w. unfold log, modify. simpl.
  eapply steady_frame; [reflexivity | reflexivity | reflexivity | exact Hv |].
  intros e' [<-|[]]. congruence.
Qed.

Lemma silent_log e : is_bake e = false -> respects silent (log e).
Proof.
  intros He w. unfold log, modify. simpl.
  eapply silent_frame; [reflexivity | reflexivity |].
  unfold bakes. simpl. now rewrite He.
Qed.

Lemma steady_set_node_image m0 bake_node image :
  respects (steady m) (set_node_image m0 bake_node image).
Proof.
  intros w. unfold set_node_image, bind, get_material.
  destruct (find_material m0 w) as [mat|] eqn:Ef; simpl; [|apply steady_refl].
  destruct (node_tree mat) as [t|] eqn:Et; simpl; [|apply steady_refl].
  destruct (has_node t bake_node); simpl; [|apply steady_refl].
  apply (steady_put_tree m m0 mat); [assumption|].
  intros t0 E Hs. rewrite Et in E. injection E as <-.
  now apply target_safe_update_node.
Qed.

Lemma silent_set_node_image m0 bake_node image :
  respects silent (set_node_image m0 bake_node image).
Proof.
  intros w. unfold set_node_image, bind, get_material.
  destruct (find_material m0 w) as [mat|]; cbv beta iota; [|apply silent_refl].
  destruct (node_tree mat) as [t|]; [|apply silent_refl].
  destruct (has_node t bake_node); [|apply silent_refl].
  apply silent_put_material.
Qed.

Lemma steady_setup_metallic_nodes m0 :
  respects (steady m) (setup_metallic_nodes m0).
Proof.
  unfold setup_metallic_nodes.
  apply steady_bind; [now apply steady_log|]. intros _.
  intros w. unfold bind, get_material.
  destruct (find_material m0 w) as [mat|] eqn:Ef; simpl; [|apply steady_refl].
  destruct (node_tree mat) as [t|] eqn:Et; simpl; [|apply steady_refl].
  destruct (setup_metallic_nodes_tree t) as [r t'] eqn:E.
  unfold bind.
  destruct (put_material (with_tree (use_nodes mat) (Some t') mat) w)
    as [[[]|e] w1] eqn:Ep.
  - unfold lift. simpl.
    replace w1 with (snd (put_material (with_tree (use_nodes mat) (Some t') mat) w))
      by now rewrite Ep.
    apply (steady_put_tree m m0 mat); [assumption|].
    intros t0 E0 Hs. rewrite Et in E0. injection E0 as <-.
    replace t' with (snd (setup_metallic_nodes_tree t)) by now rewrite E.
    now apply target_safe_setup_metallic.
  - discriminate.
Qed.

Lemma silent_setup_metallic_nodes m0 : respects silent (setup_metallic_nodes m0).
Proof.
  unfold setup_metallic_nodes.
  apply silent_bind; [now apply silent_log|]. intros _.
  apply silent_bind; [apply silent_get_material|]. intros mat.
  destruct (node_tree mat) as [t|]; [|apply silent_raise].
  destruct (setup_metallic_nodes_tree t) as [r t'].
  apply silent_bind; [|intros; apply silent_lift].
  intros w. apply silent_put_material.
Qed.

Lemma steady_restore_material_links m0 original_links :
  respects (steady m) (restore_material_links m0 original_links).
Proof.
  unfold restore_material_links.
  apply steady_bind; [now apply steady_log|]. intros _.
  intros w. unfold bind, get_material.
  destruct (find_material m0 w) as [mat|] eqn:Ef; simpl; [|apply steady_refl].
  destruct (node_tree mat) as [t|] eqn:Et; simpl; [|apply steady_refl].
  destruct (restore_material_links_tree original_links t) as [r t'] eqn:E.
  unfold bind.
  destruct (put_material (with_tree (use_nodes mat) (Some t') mat) w)
    as [[[]|e] w1] eqn:Ep.
  - unfold lift. simpl.
    replace w1 with (snd (put_material (with_tree (use_nodes mat) (Some t') mat) w))
      by now rewrite Ep.
    apply (steady_put_tree m m0 mat); [assumption|].
    intros t0 E0 Hs. rewrite Et in E0. injection E0 as <-.
    replace t' with (snd (restore_material_links_tree original_links t)) by now rewrite E.
    now apply target_safe_restore.
  - discriminate.
Qed.

Lemma silent_restore_material_links m0 original_links :
  respects silent (restore_material_links m0 original_links).
Proof.
  unfold restore_material_links.
  apply silent_bind; [now apply silent_log|]. intros _.
  apply silent_bind; [apply silent_get_material|]. intros mat.
  destruct (node_tree mat) as [t|]; [|apply silent_raise].
  destruct (restore_material_links_tree original_links t) as [r t'].
  apply silent_bind; [|intros; apply silent_lift].
  intros w. apply silent_put_material.
Qed.

Lemma steady_setup_bake_node m0 : respects (steady m) (setup_bake_node m0).
Proof.
  intros w. unfold setup_bake_node, bind, get_material.
  destruct (find_material m0 w) as [mat|] eqn:Ef; cbv beta iota; [|apply steady_refl].
  set (t := match node_tree mat with Some t => t | None => default_tree end).
  destruct (setup_bake_node_tree t) as [bake_node t'] eqn:E.
  rewrite put_material_ok. cbn [snd].
  apply (steady_put_tree m m0 mat); [assumption|].
  intros t0 _ _.
  replace t' with (snd (setup_bake_node_tree t)) by now rewrite E.
  apply target_safe_setup_bake_node.
Qed.

Lemma silent_setup_bake_node m0 : respects silent (setup_bake_node m0).
Proof.
  intros w. unfold setup_bake_node, bind, get_material.
  destruct (find_material m0 w) as [mat|]; cbv beta iota; [|apply silent_refl].
  set (t := match node_tree mat with Some t => t | None => default_tree end).
  destruct (setup_bake_node_tree t) as [bake_node t'].
  rewrite put_material_ok. cbn [snd].
  apply silent_put_material.
Qed.

(** After [setup_bake_node] returned, the material holds its target. *)
Lemma setup_bake_node_target m0 bake_node w w' :
  setup_bake_node m0 w = (Ok bake_node, w') -> has_safe_target m0 w'.
Proof.
  unfold setup_bake_node, bind, get_material.
  destruct (find_material m0 w) as [mat|] eqn:Ef; cbv beta iota; [|discriminate].
  set (t := match node_tree mat with Some t => t | None => default_tree end).
  destruct (setup_bake_node_tree t) as [bn t'] eqn:E.
  rewrite put_material_ok. unfold ret.
  intros H.
  assert (Hw : w' = snd (put_material (with_tree true (Some t') mat) w))
    by congruence.
  subst w'. clear H.
  exists t'. split.
  - rewrite (tree_of_put_same m0 mat); [reflexivity | assumption |].
    simpl. now apply find_material_ident in Ef.
  - replace t' with (snd (setup_bake_node_tree t)) by now rewrite E.
    apply target_safe_setup_bake_node.
Qed.

End StepFacts.


(** ** The trace of the bake calls *)

Section TraceFacts.

Variable m : mat_id.

Lemma fail_last_nil ok : fail_last [] ok.
Proof.
  intros pre e post H. destruct pre; discriminate.
Qed.

Lemma fail_last_single e ok :
  (bake_raised e = true -> ok = false) -> fail_last [e] ok.
Proof.
  intros H pre e' post E He.
  destruct pre as [|a pre].
  - injection E as <- <-. auto.
  - injection E as _ E. destruct pre; discriminate.
Qed.

Lemma fail_last_app_clean l1 l2 ok :
  (forall e, In e l1 -> bake_raised e = false) ->
  fail_last l2 ok -> fail_last (l1 ++ l2) ok.
Proof.
  induction l1 as [|a l1 IH]; intros Hc H2; simpl; [assumption|].
  intros pre e post E He.
  destruct pre as [|b pre].
  - injection E as <- _. rewrite (Hc a (or_introl eq_refl)) in He. discriminate.
  - injection E as _ E.
    apply (IH (fun x Hx => Hc x (or_intror Hx)) H2 pre e post E He).
Qed.

Lemma fail_last_false l :
  (forall pre e post, l = pre ++ e :: post -> bake_raised e = true -> post = []) ->
  fail_last l false.
Proof.
  intros H pre e post E He. split; [eapply H; eauto | reflexivity].
Qed.

Lemma one_bake_post_prefix c w w1 r w' :
  silent w w1 -> one_bake_post m c w1 r w' -> one_bake_post m c w r w'.
Proof.
  intros [Ha [n1 [E1 B1]]] [Ha' [n2 [E2 H]]]. split; [congruence|].
  exists (n1 ++ n2). split; [now rewrite E2, E1, app_assoc|].
  rewrite bakes_app, B1, <- Ha. exact H.
Qed.

Lemma one_bake_post_suffix c w w1 r r' w' :
  one_bake_post m c w r w1 -> silent w1 w' ->
  (is_ok r' = true -> is_ok r = true) ->
  one_bake_post m c w r' w'.
Proof.
  intros [Ha [n1 [E1 H]]] [Ha' [n2 [E2 B2]]] Hr. split; [congruence|].
  exists (n1 ++ n2). split; [now rewrite E2, E1, app_assoc|].
  rewrite bakes_app, B2, app_nil_r.
  destruct H as [[Hb Hf]|[raised [Hb Hf]]].
  - left. split; [assumption|]. destruct (is_ok r'); [|reflexivity].
    rewrite Hr in Hf by reflexivity. discriminate.
  - right. exists raised. split; [assumption|]. auto.
Qed.

Lemma one_bake_post_fail c w r w' :
  silent w w' -> is_ok r = false -> one_bake_post m c w r w'.
Proof.
  intros [Ha [n [E B]]] Hr. split; [assumption|].
  exists n. split; [assumption|]. now left.
Qed.

Lemma one_bake_post_bake c w :
  one_bake_post m c w (fst (bake (effective_type c) m w))
                (snd (bake (effective_type c) m w)).
Proof.
  unfold bake. split.
  - now destruct (bake_raises (bake_calls w)).
  - exists [EvBake (effective_type c) m (active_object w) (bake_raises (bake_calls w))].
    split; [now destruct (bake_raises (bake_calls w))|].
    right. exists (bake_raises (bake_calls w)). split; [reflexivity|].
    now destruct (bake_raises (bake_calls w)).
Qed.

Lemma one_bake_post_bind {A} c (m1 : M A) (k : A -> M unit) w :
  respects silent m1 ->
  (forall a w1, m1 w = (Ok a, w1) ->
                one_bake_post m c w1 (fst (k a w1)) (snd (k a w1))) ->
  one_bake_post m c w (fst (bind m1 k w)) (snd (bind m1 k w)).
Proof.
  intros H1 Hk. unfold bind. specialize (H1 w).
  destruct (m1 w) as [[a|e] w1]; cbn [snd fst] in *.
  - eapply one_bake_post_prefix; [exact H1 | now apply Hk].
  - now apply one_bake_post_fail.
Qed.

Lemma one_bake_post_finally c (body cleanup : M unit) w :
  one_bake_post m c w (fst (body w)) (snd (body w)) ->
  respects silent cleanup ->
  one_bake_post m c w (fst (try_finally body cleanup w))
                (snd (try_finally body cleanup w)).
Proof.
  intros Hb Hc. unfold try_finally.
  destruct (body w) as [rb w1]. cbn [fst snd] in Hb.
  specialize (Hc w1).
  destruct (cleanup w1) as [[u|e] w2]; cbn [fst snd] in *.
  - eapply one_bake_post_suffix; eauto.
  - eapply one_bake_post_suffix; eauto. discriminate.
Qed.

Lemma bake_then_save_post c image path filename w :
  one_bake_post m c w
    (fst ((bake (effective_type c) m ;;; _save_baked_image image path filename) w))
    (snd ((bake (effective_type c) m ;;; _save_baked_image image path filename) w)).
Proof.
  unfold bind.
  assert (Hb := one_bake_post_bake c w).
  destruct (bake (effective_type c) m w) as [[u|e] w1]; cbn [fst snd] in *;
    [|assumption].
  eapply one_bake_post_suffix; [exact Hb | apply silent_save | reflexivity].
Qed.

Lemma bake_and_restore_post bake_type suffix image path name w :
  one_bake_post m (bake_type, suffix) w
    (fst (bake_and_restore m bake_type suffix image path name w))
    (snd (bake_and_restore m bake_type suffix image path name w)).
Proof.
  unfold bake_and_restore.
  apply one_bake_post_bind.
  - destruct (String.eqb suffix "metallic").
    + apply (respects_bind silent silent_trans);
        [apply silent_setup_metallic_nodes|].
      intros a. apply (respects_ret silent silent_refl).
    + apply (respects_ret silent silent_refl).
  - intros p w1 Hp.
    assert (Ep : snd p = effective_type (bake_type, suffix)).
    { unfold effective_type. cbn [fst snd].
      destruct (String.eqb suffix "metallic").
      - unfold bind in Hp. destruct (setup_metallic_nodes m w) as [[ol|e] w0];
          [|discriminate].
        unfold ret in Hp. injection Hp as <- _. reflexivity.
      - unfold ret in Hp. injection Hp as <- _. reflexivity. }
    rewrite Ep.
    apply one_bake_post_finally; [apply bake_then_save_post|].
    destruct (fst p) as [[|l ls]|].
    + apply (respects_ret silent silent_refl).
    + apply silent_restore_material_links.
    + apply (respects_ret silent silent_refl).
Qed.

Lemma bake_one_map_post bake_node path channel w :
  one_bake_post m channel w
    (fst (bake_one_map m bake_node path channel w))
    (snd (bake_one_map m bake_node path channel w)).
Proof.
  destruct channel as [bake_type suffix]. unfold bake_one_map.
  apply one_bake_post_bind; [apply (respects_get_material silent silent_refl)|].
  intros mat w1 _.
  apply one_bake_post_bind; [apply silent_create_bake_image|].
  intros image w2 _.
  apply one_bake_post_bind; [apply silent_set_node_image|].
  intros _ w3 _.
  apply bake_and_restore_post.
Qed.

Lemma bake_maps_from_post channels bake_node path w :
  exists ok,
    fst (bake_maps_from channels m bake_node path w) = Ok ok
    /\ maps_post m channels w ok
         (snd (bake_maps_from channels m bake_node path w)).
Proof.
  revert w. induction channels as [|c rest IH]; intros w.
  - exists true. split; [reflexivity|]. split; [reflexivity|].
    exists []. simpl. rewrite app_nil_r.
    split; [reflexivity|]. split; [reflexivity|]. split.
    + apply fail_last_nil.
    + intros e [].
  - cbn [bake_maps_from].
    assert (H1 := bake_one_map_post bake_node path c w).
    destruct (bake_one_map m bake_node path c w) as [[u|e] w1];
      cbn [fst snd] in H1.
    + destruct H1 as [Ha [n1 [E1 [[_ Hf]|[raised [B1 Hr]]]]]]; [discriminate|].
      rewrite (Hr eq_refl) in B1. clear Hr raised.
      destruct (IH w1) as [ok [Er [Ha' [n2 [E2 [Hok [Hfl Hsh]]]]]]].
      exists ok. split; [assumption|]. split; [congruence|].
      exists (n1 ++ n2). split; [now rewrite E2, E1, app_assoc|].
      rewrite bakes_app, B1. rewrite Ha in Hok, Hsh.
      split; [|split].
      * intros Hk. cbn [map]. now rewrite (Hok Hk).
      * apply (fail_last_app_clean [_]); [|assumption].
        intros e [<-|[]]. reflexivity.
      * intros e [<-|He]; [eauto | now apply Hsh].
    + exists false. split; [reflexivity|]. cbn [fst snd].
      destruct H1 as [Ha [n1 [E1 H1]]]. split; [assumption|].
      exists n1. split; [assumption|]. split; [|split].
      * discriminate.
      * destruct H1 as [[-> _]|[raised [-> _]]];
          [apply fail_last_nil | now apply fail_last_single].
      * destruct H1 as [[-> _]|[raised [-> _]]]; [intros x [] |].
        intros x [<-|[]]. eauto.
Qed.

Lemma select_representative_first first others w :
  select_representative (first :: others) w
  = (Ok tt, with_selection [first] (Some first)
              (with_selection [] (active_object w) w))
  \/ exists e, select_representative (first :: others) w
                = (Raise e, with_selection [] (active_object w) w).
Proof.
  unfold select_representative, bind, modify, get_object.
  cbn [scene_objects with_selection].
  destruct (nth_error (scene_objects w) first) as [obj|]; [|right; eexists; reflexivity].
  destruct (in_view_layer obj); [now left | right; eexists; reflexivity].
Qed.

Lemma select_representative_none w :
  select_representative [] w
  = (Raise (IndexError "objects"), with_selection [] (active_object w) w).
Proof.
  reflexivity.
Qed.

Lemma group_bakes_clean g e : In e (group_bakes m g) -> bake_raised e = false.
Proof.
  unfold group_bakes. intros H. apply in_map_iff in H.
  destruct H as [c [<- _]]. reflexivity.
Qed.

Lemma bake_groups_post path groups w :
  groups_post m groups w (fst (bake_groups m path groups w))
              (snd (bake_groups m path groups w)).
Proof.
  revert w. induction groups as [|[k objects] rest IH]; intros w.
  - exists []. simpl. rewrite app_nil_r.
    split; [reflexivity|]. split; [reflexivity|]. split.
    + apply fail_last_nil.
    + intros e [].
  - cbn [bake_groups]. destruct objects as [|first others].
    + rewrite (bind_raise _ _ _ _ _ (select_representative_none w)).
      exists []. cbn [fst snd succeeded]. simpl. rewrite app_nil_r.
      split; [reflexivity|]. split; [discriminate|]. split.
      * apply fail_last_nil.
      * intros e [].
    + destruct (select_representative_first first others w) as [Es0|[e0 Es0]].
      2:{ rewrite (bind_raise _ _ _ _ _ Es0).
          exists []. cbn [fst snd succeeded]. simpl. rewrite app_nil_r.
          split; [reflexivity|]. split; [discriminate|]. split.
          - apply fail_last_nil.
          - intros e []. }
      rewrite (bind_ok _ _ _ _ _ Es0).
      cbv beta.
      set (w1 := with_selection [first] (Some first)
                   (with_selection [] (active_object w) w)).
      assert (E1 : events w1 = events w) by reflexivity.
      assert (A1 : active_object w1 = Some first) by reflexivity.
      assert (H2 := silent_setup_bake_node m w1).
      destruct (setup_bake_node m w1) as [[bake_node|e] w2] eqn:Es; cbn [snd] in H2.
      * rewrite (bind_ok _ _ _ _ _ Es). cbv beta.
        destruct H2 as [A2 [n2 [E2 B2]]].
        unfold _bake_all_maps.
        destruct (bake_maps_from_post BAKE_TYPES bake_node path w2)
          as [ok [Er [A3 [n3 [E3 [Hok [Hfl Hsh]]]]]]].
        destruct (bake_maps_from BAKE_TYPES m bake_node path w2) as [r3 w3] eqn:Eb.
        cbn [fst snd] in *. subst r3.
        rewrite (bind_ok _ _ _ _ _ Eb).
        rewrite A2, A1 in Hok, Hsh.
        destruct ok; cbn [negb]; cbv beta iota.
        -- destruct (IH w3) as [n4 [E4 [Hok4 [Hfl4 Hsh4]]]].
           exists (n2 ++ n3 ++ n4). split.
           { rewrite E4, E3, E2, E1. now rewrite !app_assoc. }
           rewrite !bakes_app, B2. cbn [app]. rewrite (Hok eq_refl).
           change (map _ BAKE_TYPES) with (group_bakes m (k, first :: others)).
           split; [|split].
           ++ intros Hs. cbn [flat_map]. now rewrite (Hok4 Hs).
           ++ apply fail_last_app_clean; [apply group_bakes_clean | assumption].
           ++ intros e He. apply in_app_or in He. destruct He as [He|He].
              ** unfold group_bakes in He. apply in_map_iff in He.
                 destruct He as [c [<- _]].
                 exists (effective_type c), (k, first :: others), false.
                 split; [now left | reflexivity].
              ** destruct (Hsh4 e He) as [bt [g [raised [Hg ->]]]].
                 exists bt, g, raised. split; [now right | reflexivity].
        -- exists (n2 ++ n3). unfold ret. cbn [fst snd succeeded]. split.
           { rewrite E3, E2, E1. now rewrite !app_assoc. }
           rewrite bakes_app, B2. cbn [app].
           split; [discriminate|]. split; [assumption|].
           intros e He. destruct (Hsh e He) as [c [raised ->]].
           exists (effective_type c), (k, first :: others), raised.
           split; [now left | reflexivity].
      * rewrite (bind_raise _ _ _ _ _ Es).
        destruct H2 as [A2 [n2 [E2 B2]]].
        exists n2. cbn [fst snd succeeded]. split; [now rewrite E2, E1|].
        rewrite B2. split; [discriminate|]. split.
        -- apply fail_last_nil.
        -- intros x [].
Qed.

Lemma uv_groups_of_objects w w' :
  scene_objects w' = scene_objects w -> uv_groups_of m w' = uv_groups_of m w.
Proof.
  unfold uv_groups_of. now intros ->.
Qed.

(** One material: [bake_material] always returns; when it returns [True]
    the bake calls are those of its UV groups, and in any case they are made
    with the first object of a group active and stop at a call that raised. *)
Lemma bake_material_post path w :
  exists ok,
    fst (bake_material m path w) = Ok ok
    /\ exists new,
         events (snd (bake_material m path w)) = events w ++ new
         /\ (ok = true ->
             exists groups, uv_groups_of m w = Ok groups
                            /\ bakes new = flat_map (group_bakes m) groups)
         /\ fail_last (bakes new) ok
         /\ (forall e, In e (bakes new) ->
               exists groups bt g raised,
                 uv_groups_of m w = Ok groups /\ In g groups
                 /\ e = EvBake bt m (hd_error (snd g)) raised).
Proof.
  assert (Hfail : forall w', silent w w' ->
            exists new, events w' = events w ++ new
              /\ (false = true ->
                  exists groups, uv_groups_of m w = Ok groups
                                 /\ bakes new = flat_map (group_bakes m) groups)
              /\ fail_last (bakes new) false
              /\ (forall e, In e (bakes new) ->
                    exists groups bt g raised,
                      uv_groups_of m w = Ok groups /\ In g groups
                      /\ e = EvBake bt m (hd_error (snd g)) raised)).
  { intros w' [_ [n [E B]]]. exists n. split; [assumption|]. rewrite B.
    split; [discriminate|]. split; [apply fail_last_nil | intros e []]. }
  destruct (bake_material m path w) as [r wf] eqn:Erun. cbn [fst snd].
  unfold bake_material, try_except in Erun.
  destruct (find_material m w) as [mat|] eqn:Em.
  2:{ rewrite (bind_raise _ _ _ _ _ (get_material_none _ _ Em)) in Erun.
      injection Erun as <- <-.
      exists false. split; [reflexivity|]. apply Hfail, silent_refl. }
  rewrite (bind_ok _ _ _ _ _ (get_material_ok _ _ _ Em)) in Erun. cbv beta in Erun.
  assert (Hs1 := silent_create_material_folder (mat_name mat) path w).
  assert (Ho1 := steady_objects _ _ _
                   (steady_create_material_folder m (mat_name mat) path w)).
  destruct (create_material_folder (mat_name mat) path w) as [[mp|e] w1] eqn:Ec;
    cbn [snd] in Hs1, Ho1.
  2:{ rewrite (bind_raise _ _ _ _ _ Ec) in Erun. injection Erun as <- <-.
      exists false. split; [reflexivity|]. now apply Hfail. }
  rewrite (bind_ok _ _ _ _ _ Ec) in Erun. cbv beta in Erun.
  unfold bind at 1 in Erun. unfold lift in Erun.
  rewrite (uv_groups_of_objects w w1 Ho1) in Erun.
  destruct (uv_groups_of m w) as [groups|e] eqn:Eg.
  2:{ injection Erun as <- <-.
      exists false. split; [reflexivity|]. now apply Hfail. }
  destruct groups as [|g groups].
  { injection Erun as <- <-.
    exists false. split; [reflexivity|]. now apply Hfail. }
  assert (Hg := bake_groups_post mp (g :: groups) w1).
  destruct (bake_groups m mp (g :: groups) w1) as [[ok|e] w2] eqn:Eb;
    cbn [fst snd succeeded] in Hg; injection Erun as <- <-.
  - exists ok. split; [reflexivity|].
    destruct Hs1 as [_ [n1 [E1 B1]]].
    destruct Hg as [n2 [E2 [Hok [Hfl Hsh]]]].
    exists (n1 ++ n2). split; [now rewrite E2, E1, app_assoc|].
    rewrite bakes_app, B1. cbn [app]. split; [|split].
    + intros Hk. exists (g :: groups). split; [reflexivity | now apply Hok].
    + assumption.
    + intros x Hx. destruct (Hsh x Hx) as [bt [g' [raised [Hin ->]]]].
      exists (g :: groups), bt, g', raised. auto.
  - exists false. split; [reflexivity|].
    destruct Hs1 as [_ [n1 [E1 B1]]].
    destruct Hg as [n2 [E2 [Hok [Hfl Hsh]]]].
    exists (n1 ++ n2). split; [now rewrite E2, E1, app_assoc|].
    rewrite bakes_app, B1. cbn [app]. split; [|split].
    + discriminate.
    + assumption.
    + intros x Hx. destruct (Hsh x Hx) as [bt [g' [raised [Hin ->]]]].
      exists (g :: groups), bt, g', raised. auto.
Qed.

End TraceFacts.


(** ** Counting the bake calls of a material *)

Section CountFacts.





End CountFacts.


(** ** Processing one material leaves the scene steady *)

Section MaterialFacts.

Variable m : mat_id.

Local Abbreviation st_bind := (respects_bind (steady m) (steady_trans m)).
Local Abbreviation st_ret := (respects_ret (steady m) (steady_refl m)).
Local Abbreviation st_raise := (respects_raise (steady m) (steady_refl m)).

Lemma steady_bake_and_restore bake_type suffix image path name :
  respects (steady m) (bake_and_restore m bake_type suffix image path name).
Proof.
  unfold bake_and_restore. apply st_bind.
  - destruct (String.eqb suffix "metallic"); [|apply st_ret].
    apply st_bind; [apply steady_setup_metallic_nodes | intros; apply st_ret].
  - intros p. apply (respects_try_finally (steady m) (steady_trans m)).
    + apply st_bind; [apply steady_bake | intros; apply steady_save].
    + destruct (fst p) as [[|l ls]|];
        [apply st_ret | apply steady_restore_material_links | apply st_ret].
Qed.

Lemma steady_bake_one_map bake_node path channel :
  respects (steady m) (bake_one_map m bake_node path channel).
Proof.
  destruct channel as [bake_type suffix]. unfold bake_one_map.
  apply st_bind; [apply (respects_get_material (steady m) (steady_refl m))|].
  intros mat. apply st_bind; [apply steady_create_bake_image|].
  intros image. apply st_bind; [apply steady_set_node_image|].
  intros _. apply steady_bake_and_restore.
Qed.

Lemma steady_bake_maps_from channels bake_node path :
  respects (steady m) (bake_maps_from channels m bake_node path).
Proof.
  induction channels as [|c rest IH]; intros w; cbn [bake_maps_from].
  - apply steady_refl.
  - assert (H := steady_bake_one_map bake_node path c w).
    destruct (bake_one_map m bake_node path c w) as [[u|e] w1]; cbn [snd] in *.
    + eapply steady_trans; [exact H | apply IH].
    + exact H.
Qed.

Lemma steady_select_representative objects :
  respects (steady m) (select_representative objects).
Proof.
  intros w. destruct objects as [|first others].
  - rewrite select_representative_none. cbn [snd].
    apply (steady_frame m _ _ []); try reflexivity.
    + now rewrite app_nil_r.
    + intros e [].
  - destruct (select_representative_first first others w) as [->|[e0 ->]];
      cbn [snd]; apply (steady_frame m _ _ []); try reflexivity;
      try (now rewrite app_nil_r); intros e [].
Qed.

Lemma steady_bake_groups path groups :
  respects (steady m) (bake_groups m path groups).
Proof.
  induction groups as [|[k objects] rest IH]; cbn [bake_groups].
  - apply st_ret.
  - apply st_bind; [apply steady_select_representative|]. intros _.
    apply st_bind; [apply steady_setup_bake_node|]. intros bake_node.
    apply st_bind; [apply steady_bake_maps_from|]. intros success.
    destruct (negb success); [apply st_ret | apply IH].
Qed.

Lemma steady_bake_material path : respects (steady m) (bake_material m path).
Proof.
  unfold bake_material.
  apply (respects_try_except (steady m) (steady_trans m)); [|intros; apply st_ret].
  apply st_bind; [apply (respects_get_material (steady m) (steady_refl m))|].
  intros mat. apply st_bind; [apply steady_create_material_folder|].
  intros material_path. apply st_bind.
  - intros w. apply steady_refl.
  - intros [|g groups]; [apply st_ret | apply steady_bake_groups].
Qed.

(** *** The target of a baked material *)

Lemma in_use_objects m0 w w' :
  scene_objects w' = scene_objects w -> in_use m0 w -> in_use m0 w'.
Proof.
  unfold in_use. now intros ->.
Qed.

Lemma group_by_uv_in_use objs acc groups :
  group_by_uv m objs acc = Ok groups ->
  groups = acc
  \/ exists o obj, In (o, obj) objs /\ In (Some m) (material_slots obj).
Proof.
  revert acc. induction objs as [|[o obj] objs IH]; intros acc; cbn [group_by_uv].
  - intros H. injection H as <-. now left.
  - destruct (is_mesh (obj_type obj) && existsb _ (material_slots obj)) eqn:E.
    + intros _. right. exists o, obj. split; [now left|].
      apply andb_true_iff in E. destruct E as [_ E].
      apply existsb_exists in E. destruct E as [s [Hs Es]].
      apply slot_eqb_eq in Es. now subst s.
    + intros H. destruct (IH _ H) as [->|[o' [obj' [Hin Hs]]]]; [now left|].
      right. exists o', obj'. split; [now right | assumption].
Qed.

Lemma uv_groups_in_use g groups w :
  uv_groups_of m w = Ok (g :: groups) -> in_use m w.
Proof.
  unfold uv_groups_of. intros H.
  destruct (group_by_uv_in_use _ _ _ H) as [E|[o [obj [Hin Hs]]]]; [discriminate|].
  exists obj. split; [|assumption].
  apply enumerate_nth in Hin. eapply nth_error_In; eauto.
Qed.

Lemma baked_is_bake m0 e : is_bake_of m0 e = true -> is_bake e = true.
Proof.
  destruct e; simpl; auto; discriminate.
Qed.

Lemma baked_bakes m0 evs : baked m0 evs -> bakes evs <> [].
Proof.
  intros [e [Hin He]] E.
  assert (H : In e (bakes evs)).
  { apply filter_In. split; [assumption | eapply baked_is_bake; eauto]. }
  rewrite E in H. destruct H.
Qed.

(** Once a bake call of [m] is in the trace of [bake_groups], the material
    holds its target and is in use. *)
Lemma bake_groups_target path groups w new :
  in_use m w ->
  events (snd (bake_groups m path groups w)) = events w ++ new ->
  baked m new ->
  has_safe_target m (snd (bake_groups m path groups w)).
Proof.
  intros Hu He Hb. destruct groups as [|[k objects] rest].
  - simpl in He. exfalso. destruct Hb as [e [Hin _]].
    assert (new = []) by (apply (app_inv_head (events w)); now rewrite app_nil_r).
    subst new. destruct Hin.
  - cbn [bake_groups] in *. destruct objects as [|first others].
    + rewrite (bind_raise _ _ _ _ _ (select_representative_none w)) in He.
      cbn [snd] in He. exfalso. destruct Hb as [e [Hin _]].
      assert (new = []).
      { apply (app_inv_head (events w)). rewrite app_nil_r. now rewrite <- He. }
      subst new. destruct Hin.
    + destruct (select_representative_first first others w) as [Es0|[e0 Es0]].
      2:{ rewrite (bind_raise _ _ _ _ _ Es0) in He.
          cbn [snd] in He. exfalso. destruct Hb as [e [Hin _]].
          assert (new = []).
          { apply (app_inv_head (events w)). rewrite app_nil_r. now rewrite <- He. }
          subst new. destruct Hin. }
      rewrite (bind_ok _ _ _ _ _ Es0) in *. cbv beta in *.
      set (w1 := with_selection [first] (Some first)
                   (with_selection [] (active_object w) w)) in *.
      assert (Hs := silent_setup_bake_node m w1).
      destruct (setup_bake_node m w1) as [[bake_node|e] w2] eqn:Es; cbn [snd] in Hs.
      * rewrite (bind_ok _ _ _ _ _ Es) in *. cbv beta in *.
        assert (Ht := setup_bake_node_target m bake_node w1 w2 Es).
        match goal with |- has_safe_target m (snd (?k w2)) =>
          assert (Hk : steady m w2 (snd (k w2))) end.
        { apply st_bind; [apply steady_bake_maps_from|]. intros success.
          destruct (negb success); [apply st_ret | apply steady_bake_groups]. }
        now apply (steady_targets _ _ _ Hk).
      * rewrite (bind_raise _ _ _ _ _ Es) in He. cbn [snd] in He.
        destruct Hs as [_ [n [E B]]].
        exfalso. apply (baked_bakes m new Hb).
        assert (new = n).
        { apply (app_inv_head (events w)). rewrite <- He, E. reflexivity. }
        now subst.
Qed.

Lemma bake_material_target path w new :
  events (snd (bake_material m path w)) = events w ++ new ->
  baked m new ->
  has_safe_target m (snd (bake_material m path w))
  /\ in_use m (snd (bake_material m path w)).
Proof.
  intros He Hb.
  assert (Hst := steady_bake_material path w).
  destruct (bake_material m path w) as [r wf] eqn:Erun. cbn [snd] in *.
  assert (Hquiet : forall w', silent w w' -> wf = w' -> False).
  { intros w' [_ [n [E B]]] ->. apply (baked_bakes m new Hb).
    assert (new = n) by (apply (app_inv_head (events w)); congruence).
    now subst. }
  unfold bake_material, try_except in Erun.
  destruct (find_material m w) as [mat|] eqn:Em.
  2:{ rewrite (bind_raise _ _ _ _ _ (get_material_none _ _ Em)) in Erun.
      injection Erun as _ <-. exfalso. eapply Hquiet; [apply silent_refl | reflexivity]. }
  rewrite (bind_ok _ _ _ _ _ (get_material_ok _ _ _ Em)) in Erun. cbv beta in Erun.
  assert (Hs1 := silent_create_material_folder (mat_name mat) path w).
  assert (Ho1 := steady_objects _ _ _
                   (steady_create_material_folder m (mat_name mat) path w)).
  destruct (create_material_folder (mat_name mat) path w) as [[mp|e] w1] eqn:Ec;
    cbn [snd] in Hs1, Ho1.
  2:{ rewrite (bind_raise _ _ _ _ _ Ec) in Erun. injection Erun as _ <-.
      exfalso. eapply Hquiet; [exact Hs1 | reflexivity]. }
  rewrite (bind_ok _ _ _ _ _ Ec) in Erun. cbv beta in Erun.
  unfold bind at 1 in Erun. unfold lift in Erun.
  destruct (uv_groups_of m w1) as [groups|e] eqn:Eg.
  2:{ injection Erun as _ <-. exfalso. eapply Hquiet; [exact Hs1 | reflexivity]. }
  destruct groups as [|g groups].
  { injection Erun as _ <-. exfalso. eapply Hquiet; [exact Hs1 | reflexivity]. }
  assert (Hu1 : in_use m w1) by (eapply uv_groups_in_use; eauto).
  assert (Hwf : wf = snd (bake_groups m mp (g :: groups) w1)).
  { destruct (bake_groups m mp (g :: groups) w1) as [[ok|e] w2];
      injection Erun as _ <-; reflexivity. }
  split.
  - destruct Hs1 as [_ [n1 [E1 B1]]].
    assert (Hnew : exists n2, new = n1 ++ n2
                              /\ events wf = events w1 ++ n2).
    { assert (Hg := steady_bake_groups mp (g :: groups) w1).
      rewrite <- Hwf in Hg. destruct Hg as [_ _ [n2 [E2 _]]].
      exists n2. split; [|assumption].
      apply (app_inv_head (events w)). rewrite <- He, E2, E1.
      now rewrite app_assoc. }
    destruct Hnew as [n2 [-> E2]].
    rewrite Hwf. apply (bake_groups_target mp (g :: groups) w1 n2); auto.
    + now rewrite <- Hwf.
    + destruct Hb as [e [Hin Hbe]]. exists e. split; [|assumption].
      apply in_app_or in Hin. destruct Hin as [Hin|Hin]; [|assumption].
      exfalso. assert (H : In e (bakes n1)).
      { apply filter_In. split; [assumption | eapply baked_is_bake; eauto]. }
      rewrite B1 in H. destruct H.
  - apply (in_use_objects m w1 wf); [|assumption].
    rewrite Hwf. apply (steady_objects _ _ _
                          (steady_bake_groups mp (g :: groups) w1)).
Qed.

End MaterialFacts.


(** ** The loop over the materials *)

Section LoopFacts.

Lemma raise_ends_nil : raise_ends [].
Proof.
  intros pre e post m0 H. destruct pre; discriminate.
Qed.

Lemma raise_ends_tail x l : raise_ends (x :: l) -> raise_ends l.
Proof.
  intros H pre e post m0 E. apply (H (x :: pre) e post m0). simpl. now rewrite E.
Qed.

Lemma raise_ends_app a b :
  raise_ends a -> raise_ends b ->
  (forall e m0, In e a -> is_bake_of m0 e = true -> bake_raised e = true ->
                forall e', In e' b -> is_bake_of m0 e' = false) ->
  raise_ends (a ++ b).
Proof.
  induction a as [|x a IH]; intros Ha Hb Hab; [exact Hb|].
  intros pre e post m0 E Hm Hr e' He'.
  destruct pre as [|y pre]; simpl in E.
  - injection E as <- <-. apply in_app_or in He'. destruct He' as [He'|He'].
    + apply (Ha [] x a m0 eq_refl Hm Hr e' He').
    + apply (Hab x m0 (or_introl eq_refl) Hm Hr e' He').
  - injection E as <- E.
    apply (IH (raise_ends_tail _ _ Ha) Hb
              (fun e0 m1 Hin => Hab e0 m1 (or_intror Hin))
              pre e post m0 E Hm Hr e' He').
Qed.

Lemma bakes_split pre e post :
  is_bake e = true -> bakes (pre ++ e :: post) = bakes pre ++ e :: bakes post.
Proof.
  intros H. unfold bakes. rewrite filter_app. simpl. now rewrite H.
Qed.

Lemma bakes_nil_In evs e : bakes evs = [] -> In e evs -> is_bake e = false.
Proof.
  intros H Hin. destruct (is_bake e) eqn:E; [|reflexivity].
  assert (Hb : In e (bakes evs)) by (apply filter_In; auto).
  rewrite H in Hb. destruct Hb.
Qed.

Lemma is_bake_of_false m0 e : is_bake e = false -> is_bake_of m0 e = false.
Proof.
  destruct e; simpl; auto; discriminate.
Qed.

Lemma is_bake_of_inj m1 m2 e :
  is_bake_of m1 e = true -> is_bake_of m2 e = true -> m1 = m2.
Proof.
  destruct e; simpl; try discriminate.
  rewrite !Nat.eqb_eq. congruence.
Qed.

Lemma raised_is_bake e : bake_raised e = true -> is_bake e = true.
Proof.
  destruct e; simpl; auto; discriminate.
Qed.

Lemma fail_last_raise_ends new ok :
  fail_last (bakes new) ok -> raise_ends new.
Proof.
  intros Hf pre e post m0 E Hm Hr e' He'. subst new.
  rewrite bakes_split in Hf by now apply raised_is_bake.
  destruct (Hf _ _ _ eq_refl Hr) as [Hp _].
  apply is_bake_of_false. eapply bakes_nil_In; eauto.
Qed.

Lemma failed_by_bake_app a b m0 :
  failed_by_bake (a ++ b) m0 = failed_by_bake a m0 || failed_by_bake b m0.
Proof.
  apply existsb_app.
Qed.

Lemma failed_by_bake_false evs m0 :
  (forall e, In e evs -> is_bake_of m0 e = false) -> failed_by_bake evs m0 = false.
Proof.
  intros H. unfold failed_by_bake.
  destruct (existsb _ evs) eqn:E; [|reflexivity].
  apply existsb_exists in E. destruct E as [e [Hin He]].
  rewrite (H e Hin) in He. discriminate.
Qed.

Lemma failed_by_bake_not_ok new m0 ok :
  fail_last (bakes new) ok -> failed_by_bake new m0 = true -> ok = false.
Proof.
  intros Hf H. unfold failed_by_bake in H. apply existsb_exists in H.
  destruct H as [e [Hin He]]. apply andb_true_iff in He. destruct He as [_ Hr].
  apply in_split in Hin. destruct Hin as [pre [post ->]].
  rewrite bakes_split in Hf by now apply raised_is_bake.
  now destruct (Hf _ _ _ eq_refl Hr).
Qed.

(** What one material adds to the trace. *)
Lemma bake_material_events m path w :
  exists ok new,
    fst (bake_material m path w) = Ok ok
    /\ events (snd (bake_material m path w)) = events w ++ new
    /\ visited new = []
    /\ (forall e, In e new -> is_bake e = true -> is_bake_of m e = true)
    /\ fail_last (bakes new) ok.
Proof.
  destruct (bake_material_post m path w) as [ok [Er [new [E [_ [Hf _]]]]]].
  destruct (steady_bake_material m path w) as [_ _ [new' [E' [Hv Hb]]]].
  assert (new' = new) by (apply (app_inv_head (events w)); congruence).
  subst new'. exists ok, new. auto.
Qed.

Lemma bake_materials_cons m rest path c w :
  bake_materials (m :: rest) path c w =
  match bake_material m path (with_event (EvMaterial m) w) with
  | (Ok ok, w1) => bake_materials rest path (if ok then S c else c) w1
  | (Raise e, w1) => (Raise e, w1)
  end.
Proof.
  reflexivity.
Qed.

Lemma bake_materials_post mats path c w :
  NoDup mats ->
  exists n new,
    fst (bake_materials mats path c w) = Ok n
    /\ events (snd (bake_materials mats path c w)) = events w ++ new
    /\ visited new = mats
    /\ (forall e m0, In e new -> is_bake_of m0 e = true -> In m0 mats)
    /\ raise_ends new
    /\ n + List.length (filter (failed_by_bake new) mats) <= c + List.length mats.
Proof.
  revert c w. induction mats as [|m rest IH]; intros c w Hnd.
  - exists c, []. simpl. rewrite app_nil_r.
    split; [reflexivity|]. split; [reflexivity|]. split; [reflexivity|].
    split; [intros e m0 []|]. split; [apply raise_ends_nil | lia].
  - inversion Hnd as [|? ? Hnotin Hnd']; subst.
    rewrite bake_materials_cons.
    set (w0 := with_event (EvMaterial m) w).
    destruct (bake_material_events m path w0) as [ok [nm [Er [Em [Vm [Bm Fm]]]]]].
    destruct (bake_material m path w0) as [r1 w1] eqn:E1. cbn [fst snd] in *.
    subst r1.
    destruct (IH (if ok then S c else c) w1 Hnd')
      as [n [nr [En [Enr [Vr [Br [Rr Cr]]]]]]].
    exists n, (EvMaterial m :: nm ++ nr).
    split; [assumption|]. split.
    { rewrite Enr, Em. unfold w0. simpl. rewrite <- !app_assoc. reflexivity. }
    split.
    { cbn [visited flat_map app]. change (flat_map _ (nm ++ nr)) with (visited (nm ++ nr)).
      now rewrite visited_app, Vm, Vr. }
    assert (Hnm : forall e m0, In e nm -> is_bake_of m0 e = true -> m0 = m).
    { intros e m0 Hin He. symmetry. eapply is_bake_of_inj; [|exact He].
      apply Bm; [assumption | eapply baked_is_bake; eauto]. }
    assert (Hnr : forall e, In e nr -> is_bake_of m e = false).
    { intros e Hin. destruct (is_bake_of m e) eqn:E; [|reflexivity].
      exfalso. apply Hnotin. eapply Br; eauto. }
    split.
    { intros e m0 [<-|Hin] He; [discriminate|].
      apply in_app_or in Hin. destruct Hin as [Hin|Hin].
      - left. symmetry. eapply Hnm; eauto.
      - right. eapply Br; eauto. }
    split.
    { apply (raise_ends_app [EvMaterial m]).
      - intros pre e post m0 E. destruct pre as [|y [|z pre]]; try discriminate.
        injection E as <- _. discriminate.
      - apply raise_ends_app; [eapply fail_last_raise_ends; eauto | assumption |].
        intros e m0 Hin He _ e' Hin'.
        rewrite (Hnm e m0 Hin He). now apply Hnr.
      - intros e m0 [<-|[]]. discriminate. }
    assert (Hrest : filter (failed_by_bake (EvMaterial m :: nm ++ nr)) rest
                    = filter (failed_by_bake nr) rest).
    { apply filter_ext_in. intros m0 Hm0.
      change (EvMaterial m :: nm ++ nr) with ([EvMaterial m] ++ nm ++ nr).
      rewrite !failed_by_bake_app.
      rewrite (failed_by_bake_false [EvMaterial m]) by (intros e [<-|[]]; reflexivity).
      rewrite (failed_by_bake_false nm); [reflexivity|].
      intros e Hin. destruct (is_bake_of m0 e) eqn:E; [|reflexivity].
      exfalso. apply Hnotin. now rewrite <- (Hnm e m0 Hin E). }
    cbn [filter List.length]. rewrite Hrest.
    destruct (failed_by_bake (EvMaterial m :: nm ++ nr) m) eqn:Ef.
    + assert (ok = false).
      { apply (failed_by_bake_not_ok nm m); [assumption|].
        change (EvMaterial m :: nm ++ nr) with ([EvMaterial m] ++ nm ++ nr) in Ef.
        rewrite !failed_by_bake_app in Ef.
        rewrite (failed_by_bake_false [EvMaterial m]) in Ef
          by (intros e [<-|[]]; reflexivity).
        rewrite (failed_by_bake_false nr) in Ef by assumption.
        now rewrite orb_false_r in Ef. }
      subst ok. cbn [List.length]. lia.
    + destruct ok; lia.
Qed.

End LoopFacts.


(** ** The whole run *)

Section RunFacts.

Lemma get_output_path_events w : events (snd (get_output_path w)) = events w.
Proof.
  unfold get_output_path. destruct (String.eqb blend_filepath ""); [reflexivity|].
  unfold bind. destruct (path_exists _ w); [reflexivity|].
  unfold makedirs. destruct (makedirs_raises _); reflexivity.
Qed.

Lemma BakeSettings_setup_events w : events (snd (BakeSettings_setup w)) = events w.
Proof.
  unfold BakeSettings_setup. destruct cycles_registered; reflexivity.
Qed.

(** The steps before the loop leave the trace alone and hand the loop the
    materials in the order the set enumerates them. *)
Lemma prepare_spec w path mats w1 :
  prepare w = (Ok (path, mats), w1) ->
  events w1 = events w /\ exists l, mats = set_order l.
Proof.
  unfold prepare. intros H.
  assert (E0 := renaming_events _ _ (duplicate_shared_materials_renaming w)).
  destruct (duplicate_shared_materials w) as [[[]|e] wa] eqn:Ea;
    [|rewrite (bind_raise _ _ _ _ _ Ea) in H; discriminate].
  rewrite (bind_ok _ _ _ _ _ Ea) in H. cbv beta in H. cbn [snd] in E0.
  assert (E1 := get_output_path_events wa).
  destruct (get_output_path wa) as [[p|e] wb] eqn:Eb;
    [|rewrite (bind_raise _ _ _ _ _ Eb) in H; discriminate].
  rewrite (bind_ok _ _ _ _ _ Eb) in H. cbv beta in H. cbn [snd] in E1.
  assert (E2 := BakeSettings_setup_events wb).
  destruct (BakeSettings_setup wb) as [[[]|e] wc] eqn:Ec;
    [|rewrite (bind_raise _ _ _ _ _ Ec) in H; discriminate].
  rewrite (bind_ok _ _ _ _ _ Ec) in H. cbv beta in H. cbn [snd] in E2.
  unfold bind, ret in H.
  destruct (get_all_materials wc) as [|m0 ms] eqn:Em; [discriminate|].
  injection H as <- <- <-. split; [congruence|].
  unfold get_all_materials in Em. eauto.
Qed.

Lemma bake_materials_ok mats path c w :
  exists n, fst (bake_materials mats path c w) = Ok n.
Proof.
  revert c w. induction mats as [|m rest IH]; intros c w.
  - exists c. reflexivity.
  - rewrite bake_materials_cons.
    destruct (bake_material_events m path (with_event (EvMaterial m) w))
      as [ok [_ [Er _]]].
    destruct (bake_material m path _) as [r1 w1]. cbn [fst] in Er. subst r1.
    apply IH.
Qed.

(** A run whose first steps succeed goes through the loop and the clean-up
    and ends with a report. *)
Lemma execute_run w path mats w1 :
  prepare w = (Ok (path, mats), w1) ->
  exists n,
    fst (bake_materials mats path 0 w1) = Ok n
    /\ execute w
       = (Some {| success_count := n; total := List.length mats;
                  output_path := path |},
          snd (cleanup_unused_materials (snd (bake_materials mats path 0 w1)))).
Proof.
  intros Hp. destruct (bake_materials_ok mats path 0 w1) as [n Hn].
  exists n. split; [assumption|].
  unfold execute. rewrite (bind_ok _ _ _ _ _ Hp). cbv beta. cbn [fst snd].
  destruct (bake_materials mats path 0 w1) as [r w2] eqn:Eb. cbn [fst] in Hn.
  subst r. rewrite (bind_ok _ _ _ _ _ Eb). reflexivity.
Qed.

Lemma execute_completed w r w' :
  execute w = (Some r, w') ->
  exists path mats w1, prepare w = (Ok (path, mats), w1).
Proof.
  unfold execute. destruct (prepare w) as [[[path mats]|e] w1] eqn:Ep.
  - eauto.
  - rewrite (bind_raise _ _ _ _ _ Ep). discriminate.
Qed.

(** *** The clean-up keeps the materials in use *)

Lemma list_sum_In x l : In x l -> x <= list_sum l.
Proof.
  clear save_raises os_path_join os_path_dirname makedirs_raises blend_filepath bake_raises.
  induction l as [|a l IH]; simpl; [tauto|].
  intros [->|H]; [lia | specialize (IH H); lia].
Qed.

Lemma users_in_use m mat w :
  in_use m w -> mat_ident mat = m -> users w mat <> 0.
Proof.
  intros [obj [Hobj Hs]] Hi. unfold users. rewrite Hi.
  assert (H1 : 1 <= slot_count m obj).
  { unfold slot_count.
    assert (Hin : In (Some m) (filter (slot_eqb (Some m)) (material_slots obj))).
    { apply filter_In. split; [assumption | apply slot_eqb_refl]. }
    destruct (filter _ _); [destruct Hin | simpl; lia]. }
  assert (H2 := list_sum_In (slot_count m obj)
                  (map (slot_count m) (scene_objects w))
                  (in_map _ _ _ Hobj)).
  lia.
Qed.

Lemma find_filter {A} (f g : A -> bool) (l : list A) :
  (forall x, In x l -> f x = true -> g x = true) ->
  find f (filter g l) = find f l.
Proof.
  induction l as [|a l IH]; intros H; simpl; [reflexivity|].
  destruct (f a) eqn:Ef.
  - rewrite (H a (or_introl eq_refl) Ef). simpl. now rewrite Ef.
  - destruct (g a); simpl; [rewrite Ef|]; apply IH; intros x Hx; apply H; now right.
Qed.

Lemma cleanup_keeps_target m w :
  in_use m w -> has_safe_target m w ->
  has_safe_target m (snd (cleanup_unused_materials w)).
Proof.
  intros Hu [t [Ht Hs]]. exists t. split; [|assumption].
  unfold tree_of, find_material, cleanup_unused_materials in *. simpl.
  rewrite find_filter; [assumption|].
  intros mat _ Hm. apply Nat.eqb_eq in Hm. apply negb_true_iff.
  apply Nat.eqb_neq. now apply (users_in_use m).
Qed.

(** *** Baked materials keep their target through the loop *)

Lemma baked_app m a b : baked m (a ++ b) <-> baked m a \/ baked m b.
Proof.
  unfold baked. split.
  - intros [e [Hin He]]. apply in_app_or in Hin. destruct Hin; eauto.
  - intros [[e [Hin He]]|[e [Hin He]]]; exists e; split; auto;
      apply in_or_app; auto.
Qed.

Lemma targets_ok_announce m w :
  targets_ok w -> targets_ok (with_event (EvMaterial m) w).
Proof.
  intros H m0 Hb. simpl in Hb. apply baked_app in Hb.
  destruct Hb as [Hb|[e [[<-|[]] He]]]; [|discriminate].
  destruct (H m0 Hb) as [[t [Ht Hs]] Hu]. split; [|exact Hu].
  exists t. split; [|assumption]. exact Ht.
Qed.

Lemma targets_ok_bake_material m path w :
  targets_ok w -> targets_ok (snd (bake_material m path w)).
Proof.
  intros H m0 Hb.
  assert (Hst := steady_bake_material m path w).
  destruct Hst as [Ho Ht [new [E [_ Hn]]]].
  rewrite E in Hb. apply baked_app in Hb. destruct Hb as [Hb|Hb].
  - destruct (H m0 Hb) as [Hs Hu]. split; [now apply Ht|].
    now apply (in_use_objects m0 w).
  - assert (m0 = m).
    { destruct Hb as [e [Hin He]].
      eapply is_bake_of_inj; [exact He|].
      apply Hn; [assumption | eapply baked_is_bake; eauto]. }
    subst m0. now apply (bake_material_target m path w new).
Qed.

Lemma targets_ok_bake_materials mats path c w :
  targets_ok w -> targets_ok (snd (bake_materials mats path c w)).
Proof.
  revert c w. induction mats as [|m rest IH]; intros c w H; [exact H|].
  rewrite bake_materials_cons.
  assert (H1 := targets_ok_bake_material m path _ (targets_ok_announce m w H)).
  destruct (bake_material m path (with_event (EvMaterial m) w)) as [[ok|e] w1];
    cbn [snd] in *; [now apply IH | exact H1].
Qed.

End RunFacts.


(** ** The orchestrator *)

Section OrchestratorClaims.

Lemma restore_keeps_other_nodes (ls : list Link) (t : NodeTree) (n : Node) :
  In n (nodes t) ->
  id_in (temporary_ids (nodes t)) (node_ident n) = false ->
  In n (nodes (snd (restore_material_links_tree ls t))).
Proof.
  intros Hin Hid. unfold restore_material_links_tree. rewrite relink_nodes.
  destruct (remove_temporary_nodes_spec t) as [-> _].
  apply filter_In. split; [assumption | now rewrite Hid].
Qed.

(** C10: after a run of [execute] that reached its report, every material for
    which a bake call was made still holds the image-texture node named
    [Bake_Target] that [setup_bake_node] inserted.  [restore_material_links]
    removes no node but those bearing the identity of an emission or value
    node, and no other step of the run removes the target. *)
Theorem bake_target_stays_after_run :
  (forall (w : World) (r : Report) (w' : World),
      events w = [] ->
      execute w = (Some r, w') ->
      forall m, baked m (events w') -> has_bake_target m w')
  /\ (forall (ls : list Link) (t : NodeTree) (n : Node),
        In n (nodes t) ->
        id_in (temporary_ids (nodes t)) (node_ident n) = false ->
        In n (nodes (snd (restore_material_links_tree ls t)))).
Proof.
  split; [|apply restore_keeps_other_nodes].
  intros w r w' Hev Hrun m Hb.
  destruct (execute_completed w r w' Hrun) as [path [mats [w1 Hp]]].
  destruct (execute_run w path mats w1 Hp) as [n [_ Hex]].
  rewrite Hex in Hrun. injection Hrun as _ <-.
  destruct (prepare_spec w path mats w1 Hp) as [E1 _].
  assert (H1 : targets_ok w1).
  { intros m0 [e [Hin _]]. rewrite E1, Hev in Hin. destruct Hin. }
  assert (H2 := targets_ok_bake_materials mats path 0 w1 H1).
  destruct (H2 m Hb) as [Hs Hu].
  destruct (cleanup_keeps_target m _ Hu Hs) as [t [Ht [x [Hx [Hn [Hty _]]]]]].
  exists t, x. auto.
Qed.

(** C8: a bake call that raises is caught inside [_bake_all_maps], which
    returns [False] without attempting a further channel; the material is not
    counted as a success, and the loop of [execute] goes on: every material is
    announced and the run ends with its report, whatever the renderer does. *)
Theorem channel_failure_fails_material_only :
  (forall l, NoDup (set_order l)) ->
  (forall (m : mat_id) (bake_node : node_id) (path : string) (w : World),
      exists ok new,
        fst (_bake_all_maps m bake_node path w) = Ok ok
        /\ events (snd (_bake_all_maps m bake_node path w)) = events w ++ new
        /\ fail_last (bakes new) ok)
  /\ (forall (w : World) (path : string) (mats : list mat_id) (w1 : World),
        events w = [] ->
        prepare w = (Ok (path, mats), w1) ->
        exists r,
          fst (execute w) = Some r
          /\ total r = List.length mats
          /\ visited (events (snd (execute w))) = mats
          /\ raise_ends (events (snd (execute w)))
          /\ success_count r
             + List.length (filter (failed_by_bake (events (snd (execute w)))) mats)
             <= total r).
Proof.
  intros Hnd. split.
  - intros m bake_node path w. unfold _bake_all_maps.
    destruct (bake_maps_from_post m BAKE_TYPES bake_node path w)
      as [ok [Er [_ [new [E [_ [Hf _]]]]]]].
    exists ok, new. auto.
  - intros w path mats w1 Hev Hp.
    destruct (prepare_spec w path mats w1 Hp) as [E1 [l ->]].
    destruct (execute_run w path _ w1 Hp) as [n [Hn Hex]].
    destruct (bake_materials_post (set_order l) path 0 w1 (Hnd l))
      as [n' [new [Hn' [E [Hv [_ [Hr Hc]]]]]]].
    assert (n' = n) by congruence. subst n'.
    rewrite Hex. cbn [fst snd].
    assert (Ew : events (snd (cleanup_unused_materials
                                (snd (bake_materials (set_order l) path 0 w1))))
                 = new).
    { unfold cleanup_unused_materials. cbn [snd]. simpl.
      now rewrite E, E1, Hev. }
    rewrite Ew. eexists. split; [reflexivity|]. cbn [total success_count].
    repeat split; auto.
Qed.

End OrchestratorClaims.


(** ** Names of the baked images *)

Section NamingFacts.

Lemma append_assoc (a b c : string) : ((a ++ b) ++ c)%string = (a ++ (b ++ c))%string.
Proof.
  induction a as [|x a IH]; simpl; [reflexivity | now rewrite IH].
Qed.

Lemma split_nonempty (sep : ascii) (s : string) : PyStr.split sep s <> [].
Proof.
  destruct s as [|c s]; simpl; [discriminate|].
  destruct (Ascii.eqb c sep); [discriminate|].
  destruct (PyStr.split sep s); discriminate.
Qed.

Lemma concat_cons (sep : string) (x : string) (l : list string) :
  l <> [] ->
  String.concat sep (x :: l) = (x ++ sep ++ String.concat sep l)%string.
Proof.
  destruct l; [congruence | reflexivity].
Qed.

Lemma join_split (s : string) :
  PyStr.join "_" (PyStr.split PyStr.underscore s) = s.
Proof.
  unfold PyStr.join. induction s as [|c s IH]; [reflexivity|].
  cbn [PyStr.split]. destruct (Ascii.eqb c PyStr.underscore) eqn:E.
  - apply Ascii.eqb_eq in E. subst c.
    rewrite concat_cons by apply split_nonempty. now rewrite IH.
  - destruct (PyStr.split PyStr.underscore s) as [|p ps] eqn:Es.
    + exfalso. now apply (split_nonempty PyStr.underscore s).
    + destruct ps as [|q ps].
      * simpl in *. now rewrite IH.
      * rewrite concat_cons in * by discriminate.
        rewrite <- IH. reflexivity.
Qed.

Lemma split_contains (s : string) :
  Nat.ltb 1 (List.length (PyStr.split PyStr.underscore s))
  = PyStr.contains PyStr.underscore s.
Proof.
  induction s as [|c s IH]; [reflexivity|].
  cbn [PyStr.split PyStr.contains].
  destruct (Ascii.eqb c PyStr.underscore); cbn [orb].
  - destruct (PyStr.split PyStr.underscore s) eqn:Es; [|reflexivity].
    exfalso. now apply (split_nonempty PyStr.underscore s).
  - rewrite <- IH. destruct (PyStr.split PyStr.underscore s); reflexivity.
Qed.

Lemma split_head_clean (s : string) :
  PyStr.contains PyStr.underscore (hd "" (PyStr.split PyStr.underscore s)) = false.
Proof.
  induction s as [|c s IH]; [reflexivity|].
  cbn [PyStr.split]. destruct (Ascii.eqb c PyStr.underscore) eqn:E; [reflexivity|].
  destruct (PyStr.split PyStr.underscore s) as [|p ps]; simpl; rewrite E; auto.
Qed.

(** In both branches the image name is the material name followed by the
    channel suffix. *)
Lemma map_name_of_eq (name suffix : string) :
  map_name_of name suffix = (name ++ "_" ++ suffix)%string.
Proof.
  unfold map_name_of.
  destruct (Nat.ltb 1 _) eqn:E; [|reflexivity].
  assert (J := join_split name).
  destruct (PyStr.split PyStr.underscore name) as [|base [|r rs]];
    try discriminate.
  cbn [hd tl]. rewrite <- J. unfold PyStr.join.
  rewrite (concat_cons "_" base (r :: rs)) by discriminate.
  now rewrite !append_assoc.
Qed.

Lemma map_name_of_marked (name suffix : string) :
  PyStr.contains PyStr.underscore name = true ->
  exists base owner,
    hd_error (PyStr.split PyStr.underscore name) = Some base
    /\ owner = PyStr.join "_" (tl (PyStr.split PyStr.underscore name))
    /\ PyStr.contains PyStr.underscore base = false
    /\ name = (base ++ "_" ++ owner)%string
    /\ map_name_of name suffix = (base ++ "_" ++ owner ++ "_" ++ suffix)%string.
Proof.
  intros Hc. rewrite <- split_contains in Hc.
  assert (J := join_split name). assert (Hh := split_head_clean name).
  unfold map_name_of. rewrite Hc.
  destruct (PyStr.split PyStr.underscore name) as [|base [|r rs]];
    try discriminate.
  exists base, (PyStr.join "_" (r :: rs)). cbn [hd tl hd_error] in *.
  repeat split; auto.
Qed.

Lemma map_name_of_plain (name suffix : string) :
  PyStr.contains PyStr.underscore name = false ->
  map_name_of name suffix = (name ++ "_" ++ suffix)%string.
Proof.
  intros Hc. rewrite <- split_contains in Hc.
  unfold map_name_of. now rewrite Hc.
Qed.

(** *** The file written for a channel *)

Lemma saves_as_refl fp f w : saves_as fp f w w.
Proof.
  exists []. split; [now rewrite app_nil_r | intros ? ? ? []].
Qed.

Lemma saves_as_trans fp f a b c :
  saves_as fp f a b -> saves_as fp f b c -> saves_as fp f a c.
Proof.
  intros [n1 [E1 H1]] [n2 [E2 H2]]. exists (n1 ++ n2).
  split; [now rewrite E2, E1, app_assoc|].
  intros fp' f' r Hin. apply in_app_or in Hin. destruct Hin; eauto.
Qed.

Lemma saves_as_silent_events fp f w w' new :
  events w' = events w ++ new ->
  (forall fp' f' r, ~ In (EvSave fp' f' r) new) ->
  saves_as fp f w w'.
Proof.
  intros E H. exists new. split; [assumption|].
  intros fp' f' r Hin. exfalso. eapply H; eauto.
Qed.

Lemma saves_as_put_material fp f mat w :
  saves_as fp f w (snd (put_material mat w)).
Proof.
  apply (saves_as_silent_events _ _ _ _ []); [now rewrite app_nil_r | auto].
Qed.

Variables (fp f : string).

Local Abbreviation sa_bind := (respects_bind (saves_as fp f) (saves_as_trans fp f)).
Local Abbreviation sa_ret := (respects_ret (saves_as fp f) (saves_as_refl fp f)).
Local Abbreviation sa_raise := (respects_raise (saves_as fp f) (saves_as_refl fp f)).
Local Abbreviation sa_lift := (respects_lift (saves_as fp f) (saves_as_refl fp f)).
Local Abbreviation sa_get_material := (respects_get_material (saves_as fp f) (saves_as_refl fp f)).

Lemma saves_as_log e :
  (forall fp' f' r, e <> EvSave fp' f' r) -> respects (saves_as fp f) (log e).
Proof.
  intros He w. apply (saves_as_silent_events _ _ _ _ [e]); [reflexivity|].
  intros fp' f' r [->|[]]. now apply (He fp' f' r).
Qed.

Lemma saves_as_setup_metallic_nodes m : respects (saves_as fp f) (setup_metallic_nodes m).
Proof.
  unfold setup_metallic_nodes.
  apply sa_bind; [apply saves_as_log; discriminate|]. intros _.
  apply sa_bind; [apply sa_get_material|]. intros mat.
  destruct (node_tree mat) as [t|]; [|apply sa_raise].
  destruct (setup_metallic_nodes_tree t) as [r t'].
  apply sa_bind; [|intros; apply sa_lift].
  intros w. apply saves_as_put_material.
Qed.

Lemma saves_as_restore_material_links m ls :
  respects (saves_as fp f) (restore_material_links m ls).
Proof.
  unfold restore_material_links.
  apply sa_bind; [apply saves_as_log; discriminate|]. intros _.
  apply sa_bind; [apply sa_get_material|]. intros mat.
  destruct (node_tree mat) as [t|]; [|apply sa_raise].
  destruct (restore_material_links_tree ls t) as [r t'].
  apply sa_bind; [|intros; apply sa_lift].
  intros w. apply saves_as_put_material.
Qed.

Lemma saves_as_bake bake_type m : respects (saves_as fp f) (bake bake_type m).
Proof.
  intros w. unfold bake.
  destruct (bake_raises (bake_calls w)); cbn [snd];
    (eapply saves_as_silent_events; [reflexivity|]);
    intros fp' f' r [H|[]]; discriminate.
Qed.

Lemma saves_as_create_bake_image name : respects (saves_as fp f) (_create_bake_image name).
Proof.
  unfold _create_bake_image. apply sa_bind; [|intros; apply sa_ret].
  intros w. apply (saves_as_silent_events _ _ _ _ []); [now rewrite app_nil_r | auto].
Qed.

Lemma saves_as_set_node_image m bake_node image :
  respects (saves_as fp f) (set_node_image m bake_node image).
Proof.
  unfold set_node_image. apply sa_bind; [apply sa_get_material|]. intros mat.
  destruct (node_tree mat) as [t|]; [|apply sa_raise].
  destruct (has_node t bake_node); [|apply sa_raise].
  intros w. apply saves_as_put_material.
Qed.

End NamingFacts.

Lemma saves_as_save image path filename :
  respects (saves_as (os_path_join path filename) filename)
           (_save_baked_image image path filename).
Proof.
  intros w. unfold _save_baked_image.
  destruct (save_raises (save_calls w)); cbn [snd];
    (eexists; split; [reflexivity|]);
    intros fp' f' r [H|[]]; injection H as <- <- _; auto.
Qed.

Lemma saves_as_bake_and_restore m bake_type suffix image path name :
  respects (saves_as (os_path_join path (name ++ ".png")) (name ++ ".png"))
           (bake_and_restore m bake_type suffix image path name).
Proof.
  set (R := saves_as (os_path_join path (name ++ ".png")) (name ++ ".png")).
  assert (Rr : forall w, R w w) by (intros; apply saves_as_refl).
  assert (Rt : forall a b c, R a b -> R b c -> R a c)
    by (intros a b c; apply saves_as_trans).
  unfold bake_and_restore. apply (respects_bind R Rt).
  - destruct (String.eqb suffix "metallic"); [|apply (respects_ret R Rr)].
    apply (respects_bind R Rt); [apply saves_as_setup_metallic_nodes|].
    intros. apply (respects_ret R Rr).
  - intros p. apply (respects_try_finally R Rt).
    + apply (respects_bind R Rt); [apply saves_as_bake|].
      intros _. apply saves_as_save.
    + destruct (fst p) as [[|l ls]|];
        [apply (respects_ret R Rr) | apply saves_as_restore_material_links
         | apply (respects_ret R Rr)].
Qed.

(** Whatever [bake_one_map] saves for a channel is the file named after the
    material and the channel, in the folder it was given. *)
Lemma bake_one_map_saves m bake_node path bake_type suffix mat w :
  find_material m w = Some mat ->
  saves_as (os_path_join path (map_name_of (mat_name mat) suffix ++ ".png"))
           (map_name_of (mat_name mat) suffix ++ ".png")
           w (snd (bake_one_map m bake_node path (bake_type, suffix) w)).
Proof.
  intros Hf. unfold bake_one_map.
  rewrite (bind_ok _ _ _ _ _ (get_material_ok _ _ _ Hf)). cbv beta.
  set (name := map_name_of (mat_name mat) suffix).
  set (R := saves_as (os_path_join path (name ++ ".png")) (name ++ ".png")).
  assert (Rr : forall w, R w w) by (intros; apply saves_as_refl).
  assert (Rt : forall a b c, R a b -> R b c -> R a c)
    by (intros a b c; apply saves_as_trans).
  apply (respects_bind R Rt); [apply saves_as_create_bake_image|].
  intros image. apply (respects_bind R Rt); [apply saves_as_set_node_image|].
  intros _. apply saves_as_bake_and_restore.
Qed.


(** ** The metallic reroute on a material of the world *)

Section RerouteClaims.






End RerouteClaims.


(** ** The master material *)

Section MasterFacts.




















(** *** The name of a material through pass 2 *)



(** *** The master names *)











(** *** Names that Blender stores as they are written *)

Section AsWritten.

Hypothesis as_written : forall others s, unique_name others s = s.




End AsWritten.

End MasterFacts.


(** ** Folders *)

Section FolderFacts.

Lemma path_exists_In p w : path_exists p w = true <-> In p (directories w).
Proof.
  unfold path_exists. rewrite existsb_exists. split.
  - intros [x [Hin E]]. apply String.eqb_eq in E. now subst x.
  - intros Hin. exists p. split; [assumption | apply String.eqb_refl].
Qed.

(** What [if not os.path.exists(p): os.makedirs(p)] does. *)
Lemma ensure_folder_spec (p : string) (w : World) :
  (path_exists p w = true
   /\ (if path_exists p w then ret tt else makedirs p) w = (Ok tt, w))
  \/ (path_exists p w = false /\ makedirs_raises p = true
      /\ (if path_exists p w then ret tt else makedirs p) w = (Raise (OSError p), w))
  \/ (path_exists p w = false /\ makedirs_raises p = false
      /\ (if path_exists p w then ret tt else makedirs p) w
         = (Ok tt, with_directories (fun ds => ds ++ [p]) w)).
Proof.
  destruct (path_exists p w) eqn:E; [left; auto | right].
  unfold makedirs. destruct (makedirs_raises p); [left | right]; auto.
Qed.

Lemma path_exists_added p d w :
  path_exists d (with_directories (fun ds => ds ++ [p]) w)
  = path_exists d w || String.eqb d p.
Proof.
  unfold path_exists. simpl. rewrite existsb_app. simpl. now rewrite orb_false_r.
Qed.

(** X1: [get_output_path] refuses an unsaved file before it touches the file
    system, and a call that raises leaves the world as it was.  A call that
    returns gives the folder [BakedTextures] beside the blend file; the folder
    exists afterwards, no folder is lost, and a second call returns the same
    path without another [makedirs]. *)
Theorem get_output_path_creates_once :
  (blend_filepath = "" ->
   forall w, get_output_path w = (Raise (Exception "please save blender file"), w))
  /\ (forall w e w', get_output_path w = (Raise e, w') -> w' = w)
  /\ (forall w p w',
        get_output_path w = (Ok p, w') ->
        blend_filepath <> ""
        /\ p = os_path_join (os_path_dirname blend_filepath) "BakedTextures"
        /\ path_exists p w' = true
        /\ (forall d, path_exists d w = true -> path_exists d w' = true)
        /\ get_output_path w' = (Ok p, w')).
Proof.
  unfold get_output_path. split; [|split].
  - intros ->. reflexivity.
  - intros w e w'. destruct (String.eqb blend_filepath "").
    + unfold raise. congruence.
    + unfold bind.
      destruct (ensure_folder_spec
                  (os_path_join (os_path_dirname blend_filepath) "BakedTextures") w)
        as [[_ ->]|[[_ [_ ->]]|[_ [_ ->]]]]; unfold ret; congruence.
  - intros w p w'. destruct (String.eqb_spec blend_filepath "") as [E|E].
    + unfold raise. discriminate.
    + unfold bind.
      destruct (ensure_folder_spec
                  (os_path_join (os_path_dirname blend_filepath) "BakedTextures") w)
        as [[Hex ->]|[[_ [_ ->]]|[Hex [_ ->]]]]; unfold ret; intros H;
        try discriminate H; injection H as <- <-.
      * rewrite Hex. repeat split; auto.
      * rewrite path_exists_added, String.eqb_refl, orb_true_r.
        repeat split; auto.
        intros d Hd. rewrite path_exists_added, Hd. reflexivity.
Qed.

(** X2: [create_material_folder] never calls [makedirs] on a folder that
    exists.  It raises only when the folder is missing and [makedirs] fails,
    and then changes nothing; when it returns, the folder of the material
    exists, no folder is lost, and a second call returns the same path and
    changes nothing. *)
Theorem create_material_folder_creates_once :
  forall (name path : string) (w : World),
    (path_exists (os_path_join path name) w = true ->
     create_material_folder name path w = (Ok (os_path_join path name), w))
    /\ (forall e w',
          create_material_folder name path w = (Raise e, w') ->
          e = OSError (os_path_join path name) /\ w' = w
          /\ path_exists (os_path_join path name) w = false
          /\ makedirs_raises (os_path_join path name) = true)
    /\ (forall p w',
          create_material_folder name path w = (Ok p, w') ->
          p = os_path_join path name
          /\ path_exists p w' = true
          /\ (forall d, path_exists d w = true -> path_exists d w' = true)
          /\ create_material_folder name path w' = (Ok p, w')).
Proof.
  intros name path w. unfold create_material_folder, bind.
  destruct (ensure_folder_spec (os_path_join path name) w)
    as [[Hex E]|[[Hex [Hm E]]|[Hex [Hm E]]]]; rewrite E; unfold ret;
    (split; [|split]).
  - reflexivity.
  - discriminate.
  - intros p w' H. injection H as <- <-. rewrite Hex. repeat split; auto.
  - congruence.
  - intros e w' H. injection H as <- <-. auto.
  - discriminate.
  - congruence.
  - discriminate.
  - intros p w' H. injection H as <- <-.
    rewrite path_exists_added, String.eqb_refl, orb_true_r.
    repeat split; auto.
    intros d Hd. rewrite path_exists_added, Hd. reflexivity.
Qed.

End FolderFacts.


(** ** The materials of the scene *)

Section SceneFacts.

Lemma collect_slot_materials_In obj m :
  In m (collect_slot_materials obj) <-> In (Some m) (material_slots obj).
Proof.
  unfold collect_slot_materials. rewrite in_flat_map. split.
  - intros [[x|] [Hin Hx]]; [|destruct Hx].
    destruct Hx as [<-|[]]. exact Hin.
  - intros Hin. exists (Some m). split; [exact Hin | now left].
Qed.

(** X3: when [list(set(...))] lists every member of the set once,
    [get_all_materials] returns, without repetition, exactly the materials
    that sit in a slot of a mesh object; empty slots and the slots of objects
    that are no meshes contribute nothing. *)
Theorem get_all_materials_of_meshes :
  (forall l, NoDup (set_order l)) ->
  (forall l x, In x (set_order l) <-> In x l) ->
  forall w : World,
    NoDup (get_all_materials w)
    /\ (forall m,
          In m (get_all_materials w)
          <-> exists obj, In obj (scene_objects w)
                          /\ obj_type obj = MESH
                          /\ In (Some m) (material_slots obj)).
Proof.
  intros Hnd Hin w. unfold get_all_materials. split; [apply Hnd|].
  intros m. rewrite Hin, in_flat_map. split.
  - intros [obj [Ho Hm]]. exists obj. split; [exact Ho|].
    destruct (obj_type obj); [|destruct Hm].
    split; [reflexivity|]. now apply collect_slot_materials_In.
  - intros [obj [Ho [Ht Hm]]]. exists obj. split; [exact Ho|].
    rewrite Ht. cbn [is_mesh]. now apply collect_slot_materials_In.
Qed.

Lemma users_same_objects w w' mat :
  scene_objects w' = scene_objects w -> users w' mat = users w mat.
Proof.
  unfold users. now intros ->.
Qed.

(** X4: [cleanup_unused_materials] never raises and touches no object.  It
    removes the materials without user and no other: a material held by a
    slot of the scene is found under its handle as before, every material
    left has a user, and a second call removes nothing. *)
Theorem cleanup_unused_materials_keeps_used :
  forall w : World,
    fst (cleanup_unused_materials w) = Ok tt
    /\ scene_objects (snd (cleanup_unused_materials w)) = scene_objects w
    /\ (forall mat,
          In mat (bpy_materials (snd (cleanup_unused_materials w)))
          <-> In mat (bpy_materials w) /\ users w mat <> 0)
    /\ (forall m, in_use m w ->
          find_material m (snd (cleanup_unused_materials w)) = find_material m w)
    /\ cleanup_unused_materials (snd (cleanup_unused_materials w))
       = (Ok tt, snd (cleanup_unused_materials w)).
Proof.
  intros w. unfold cleanup_unused_materials. cbn [fst snd].
  split; [reflexivity|]. split; [reflexivity|]. split; [|split].
  - intros mat. cbn [bpy_materials with_materials]. rewrite filter_In.
    rewrite negb_true_iff, Nat.eqb_neq. reflexivity.
  - intros m Hu. unfold find_material. cbn [bpy_materials with_materials].
    apply find_filter. intros mat _ Hm. apply Nat.eqb_eq in Hm.
    apply negb_true_iff, Nat.eqb_neq. now apply (users_in_use m).
  - f_equal. unfold with_materials. cbn. f_equal.
    apply filter_all. intros mat Hm. apply filter_In in Hm.
    destruct Hm as [_ Hm]. exact Hm.
Qed.

End SceneFacts.


(** ** The bake target *)

Section BakeNodeFacts.

Lemma NoDup_map_In_eq {A B} (f : A -> B) (l : list A) (a b : A) :
  NoDup (map f l) -> In a l -> In b l -> f a = f b -> a = b.
Proof.
  clear os_path_join os_path_dirname makedirs_raises blend_filepath.
  induction l as [|x l IH]; simpl; [tauto|].
  intros Hnd. inversion Hnd as [|? ? Hx Hl]. subst.
  intros [->|Ha] [->|Hb] E; auto.
  - exfalso. apply Hx. rewrite E. now apply in_map.
  - exfalso. apply Hx. rewrite <- E. now apply in_map.
Qed.

Lemma map_update_below (i : node_id) (f : Node -> Node) (l : list Node) :
  (forall n, In n l -> node_ident n < i) ->
  map (fun n => if Nat.eqb (node_ident n) i then f n else n) l = l.
Proof.
  intros H. apply map_id_on. intros n Hn.
  destruct (Nat.eqb_spec (node_ident n) i) as [E|E]; [|reflexivity].
  specialize (H n Hn). lia.
Qed.

(** After the old target, if any, is removed, a fresh node is appended, named
    and selected. *)
Lemma setup_bake_node_tree_shape (t : NodeTree) :
  let t1 := match nodes_get "Bake_Target" t with
            | Some existing => nodes_remove (node_ident existing) t
            | None => t
            end in
  setup_bake_node_tree t
  = (fresh_node_id t1,
     {| nodes := nodes t1 ++ [target_node (fresh_node_id t1)];
        links := links t1;
        nodes_active := Some (fresh_node_id t1) |}).
Proof.
  intros t1. unfold setup_bake_node_tree. fold t1.
  unfold nodes_new, update_node, set_active. cbn [fst snd nodes links nodes_active
    node_ident]. f_equal. f_equal.
  rewrite !map_app.
  rewrite (map_update_below (fresh_node_id t1) (set_name "Bake_Target") (nodes t1))
    by (intros n Hn; now apply fresh_node_id_above).
  rewrite (map_update_below (fresh_node_id t1) (set_select true) (nodes t1))
    by (intros n Hn; now apply fresh_node_id_above).
  cbn [map node_ident]. rewrite Nat.eqb_refl. cbn [set_name node_ident].
  rewrite Nat.eqb_refl. reflexivity.
Qed.

(** With distinct names and identities, removing the node [nodes.get] found
    removes the nodes named [Bake_Target]. *)
Lemma old_target_removed (t : NodeTree) :
  NoDup (map node_ident (nodes t)) ->
  NoDup (map node_name (nodes t)) ->
  nodes (match nodes_get "Bake_Target" t with
         | Some existing => nodes_remove (node_ident existing) t
         | None => t
         end)
  = filter (fun n => negb (String.eqb (node_name n) "Bake_Target")) (nodes t).
Proof.
  intros Hi Hn. unfold nodes_get.
  destruct (find _ (nodes t)) as [existing|] eqn:E.
  - apply find_some in E. destruct E as [Hin He]. apply String.eqb_eq in He.
    cbn [nodes nodes_remove]. apply filter_ext_in. intros n Hx. f_equal.
    destruct (Nat.eqb_spec (node_ident n) (node_ident existing)) as [Ei|Ei];
      destruct (String.eqb_spec (node_name n) "Bake_Target") as [En|En];
      try reflexivity; exfalso.
    + apply En. rewrite (NoDup_map_In_eq node_ident (nodes t) n existing); auto.
    + apply Ei. rewrite (NoDup_map_In_eq node_name (nodes t) n existing); auto.
      congruence.
  - symmetry. apply filter_all. intros n Hx.
    apply (find_none _ _ E) in Hx. now rewrite Hx.
Qed.

Lemma find_app_none {A} (f : A -> bool) (l l' : list A) :
  find f l = None -> find f (l ++ l') = find f l'.
Proof.
  induction l as [|a l IH]; simpl; [reflexivity|].
  destruct (f a); [discriminate | exact IH].
Qed.

Lemma filter_length_le {A} (f : A -> bool) (l : list A) :
  List.length (filter f l) <= List.length l.
Proof.
  induction l as [|a l IH]; simpl; [lia|]. destruct (f a); simpl; lia.
Qed.

(** In a list with distinct names one node bears a given name at most. *)
Lemma filter_name_length (l : list Node) (x : Node) :
  NoDup (map node_name l) -> In x l ->
  S (List.length (filter (fun n => negb (String.eqb (node_name n) (node_name x))) l))
  = List.length l.
Proof.
  clear os_path_join os_path_dirname makedirs_raises blend_filepath.
  induction l as [|a l IH]; simpl; [tauto|].
  intros Hnd. inversion Hnd as [|? ? Ha Hl]. subst.
  intros [->|Hx].
  - rewrite String.eqb_refl. cbn [negb]. f_equal.
    f_equal. apply filter_all. intros n Hin.
    destruct (String.eqb_spec (node_name n) (node_name x)) as [E|E]; [|reflexivity].
    exfalso. apply Ha. rewrite <- E. now apply in_map.
  - destruct (String.eqb_spec (node_name a) (node_name x)) as [E|E].
    + exfalso. apply Ha. rewrite E. now apply in_map.
    + cbn [negb]. simpl. f_equal. now apply IH.
Qed.

(** The nodes and the returned identity in terms of the nodes kept. *)
Lemma setup_bake_node_tree_nodes (t : NodeTree) :
  NoDup (map node_ident (nodes t)) ->
  NoDup (map node_name (nodes t)) ->
  fst (setup_bake_node_tree t)
  = S (list_max (map node_ident
         (filter (fun n => negb (String.eqb (node_name n) "Bake_Target")) (nodes t))))
  /\ nodes (snd (setup_bake_node_tree t))
     = filter (fun n => negb (String.eqb (node_name n) "Bake_Target")) (nodes t)
       ++ [target_node (fst (setup_bake_node_tree t))].
Proof.
  intros Hi Hn.
  assert (Hshape := setup_bake_node_tree_shape t). cbv zeta in Hshape.
  rewrite Hshape. cbn [fst snd nodes]. unfold fresh_node_id.
  now rewrite (old_target_removed t Hi Hn).
Qed.

Lemma NoDup_map_filter {A B} (f : A -> B) (g : A -> bool) (l : list A) :
  NoDup (map f l) -> NoDup (map f (filter g l)).
Proof.
  clear os_path_join os_path_dirname makedirs_raises blend_filepath.
  induction l as [|a l IH]; simpl; [constructor|].
  intros Hnd. inversion Hnd as [|? ? Ha Hl]. subst.
  destruct (g a); simpl; [|now apply IH].
  constructor; [|now apply IH].
  intros Hin. apply Ha. apply in_map_iff in Hin.
  destruct Hin as [x [Ex Hx]]. apply filter_In in Hx.
  rewrite <- Ex. apply in_map. tauto.
Qed.

(** X5: in a tree whose nodes have distinct names and identities,
    [setup_bake_node] leaves the nodes that are not named [Bake_Target] in
    place and in order, followed by one new image-texture node of that name,
    selected, without image, active, and returned.  Names and identities stay
    distinct, no link is added, and a tree that already held a target has as
    many nodes as before: calling it for every UV group and every run does
    not pile up nodes. *)
Theorem setup_bake_node_replaces_target :
  forall t : NodeTree,
    NoDup (map node_ident (nodes t)) ->
    NoDup (map node_name (nodes t)) ->
    nodes (snd (setup_bake_node_tree t))
    = filter (fun n => negb (String.eqb (node_name n) "Bake_Target")) (nodes t)
      ++ [target_node (fst (setup_bake_node_tree t))]
    /\ nodes_get "Bake_Target" (snd (setup_bake_node_tree t))
       = Some (target_node (fst (setup_bake_node_tree t)))
    /\ nodes_active (snd (setup_bake_node_tree t))
       = Some (fst (setup_bake_node_tree t))
    /\ NoDup (map node_ident (nodes (snd (setup_bake_node_tree t))))
    /\ NoDup (map node_name (nodes (snd (setup_bake_node_tree t))))
    /\ incl (links (snd (setup_bake_node_tree t))) (links t)
    /\ (nodes_get "Bake_Target" t <> None ->
        List.length (nodes (snd (setup_bake_node_tree t))) = List.length (nodes t))
    /\ nodes (snd (setup_bake_node_tree (snd (setup_bake_node_tree t))))
       = nodes (snd (setup_bake_node_tree t)).
Proof.
  clear os_path_join os_path_dirname makedirs_raises blend_filepath.
  intros t Hi Hn.
  destruct (setup_bake_node_tree_nodes t Hi Hn) as [Hid Hnodes].
  set (keep := filter (fun n => negb (String.eqb (node_name n) "Bake_Target"))
                      (nodes t)) in *.
  assert (Hkeep : forall n, In n keep -> In n (nodes t) /\ node_name n <> "Bake_Target").
  { intros n Hx. apply filter_In in Hx. destruct Hx as [Hx Hb]. split; [exact Hx|].
    intros E. rewrite E in Hb. discriminate Hb. }
  assert (Hfind : find (fun n => String.eqb (node_name n) "Bake_Target") keep = None).
  { destruct (find _ keep) as [x|] eqn:E; [|reflexivity].
    apply find_some in E. destruct E as [Hx He]. apply String.eqb_eq in He.
    now destruct (Hkeep x Hx). }
  assert (Hids : NoDup (map node_ident (nodes (snd (setup_bake_node_tree t))))).
  { rewrite Hnodes, map_app. cbn [map target_node node_ident].
    apply NoDup_snoc; [now apply NoDup_map_filter|].
    intros Hin. rewrite Hid in Hin. apply in_map_iff in Hin.
    destruct Hin as [x [Ex Hx]].
    assert (Hle : node_ident x <= list_max (map node_ident keep)).
    { assert (Hf := proj1 (list_max_le (map node_ident keep) _) (le_n _)).
      rewrite Forall_forall in Hf. apply Hf. now apply in_map. }
    fold keep in Ex. lia. }
  assert (Hnames : NoDup (map node_name (nodes (snd (setup_bake_node_tree t))))).
  { rewrite Hnodes, map_app. cbn [map target_node node_name].
    apply NoDup_snoc; [now apply NoDup_map_filter|].
    intros Hin. apply in_map_iff in Hin. destruct Hin as [x [Ex Hx]].
    now destruct (Hkeep x Hx). }
  split; [exact Hnodes|].
  split.
  { unfold nodes_get. rewrite Hnodes. rewrite (find_app_none _ _ _ Hfind).
    reflexivity. }
  split.
  { assert (Hshape := setup_bake_node_tree_shape t). cbv zeta in Hshape.
    now rewrite Hshape. }
  split; [exact Hids|]. split; [exact Hnames|].
  split.
  { assert (Hshape := setup_bake_node_tree_shape t). cbv zeta in Hshape.
    rewrite Hshape. cbn [snd links].
    destruct (nodes_get "Bake_Target" t); [|apply incl_refl].
    cbn [links nodes_remove]. intros l Hl. apply filter_In in Hl. tauto. }
  split.
  { intros Hsome. rewrite Hnodes, length_app. cbn [List.length].
    destruct (nodes_get "Bake_Target" t) as [x|] eqn:Ex; [|congruence].
    unfold nodes_get in Ex. apply find_some in Ex. destruct Ex as [Hx He].
    apply String.eqb_eq in He.
    rewrite <- (filter_name_length (nodes t) x Hn Hx). rewrite He.
    fold keep. lia. }
  destruct (setup_bake_node_tree_nodes (snd (setup_bake_node_tree t)) Hids Hnames)
    as [Hid2 Hnodes2].
  assert (Hk2 : filter (fun n => negb (String.eqb (node_name n) "Bake_Target"))
                  (nodes (snd (setup_bake_node_tree t))) = keep).
  { rewrite Hnodes, filter_app. cbn [filter target_node node_name].
    rewrite String.eqb_refl. cbn [negb]. rewrite app_nil_r.
    apply filter_all. intros n Hx. destruct (Hkeep n Hx) as [_ Hb].
    destruct (String.eqb_spec (node_name n) "Bake_Target"); [contradiction|reflexivity]. }
  rewrite Hnodes2, Hid2, Hk2, Hnodes, Hid. reflexivity.
Qed.

End BakeNodeFacts.


(** ** The wiring of the metallic reroute *)

Section WiringFacts.







Lemma socket_links_attached (t : NodeTree) (s : Socket) :
  links_attached t -> has_node t (sock_node s) = false -> socket_links t s = [].
Proof.
  intros Ha Hs. unfold socket_links. apply filter_none. intros l Hl.
  destruct (Socket_eqb (to_socket l) s) eqn:E; [|reflexivity].
  apply Socket_eqb_eq in E. destruct (Ha l Hl) as [_ H]. rewrite E in H. congruence.
Qed.



End WiringFacts.


(** ** What the restore leaves *)

Section RestoreFacts.

Lemma has_node_remove_temporary (t : NodeTree) (i : node_id) :
  has_node (remove_temporary_nodes t) i = survives t i.
Proof.
  unfold survives. apply Bool.eq_iff_eq_true.
  rewrite andb_true_iff, negb_true_iff, !has_node_In.
  destruct (remove_temporary_nodes_spec t) as [-> _]. split.
  - intros [n [Hin <-]]. apply filter_In in Hin. destruct Hin as [Hin Hb].
    apply negb_true_iff in Hb. split; [now exists n | exact Hb].
  - intros [[n [Hin <-]] Hb]. exists n. split; [|reflexivity].
    apply filter_In. split; [exact Hin | now apply negb_true_iff].
Qed.

Lemma links_new_total (src dst : Socket) (t : NodeTree) :
  exists t', links_new src dst t = Ok t'
             /\ nodes t' = nodes t
             /\ (forall l, In l (links t') ->
                   In l (links t)
                   \/ (l = {| from_socket := src; to_socket := dst |}
                       /\ has_node t (sock_node src) = true
                       /\ has_node t (sock_node dst) = true))
             /\ (forall l, In l (links t) -> to_socket l <> dst -> In l (links t'))
             /\ (has_node t (sock_node src) = true ->
                 has_node t (sock_node dst) = true ->
                 In {| from_socket := src; to_socket := dst |} (links t')).
Proof.
  clear os_path_join os_path_dirname makedirs_raises blend_filepath.
  unfold links_new.
  destruct (has_node t (sock_node src)) eqn:H1;
    [destruct (has_node t (sock_node dst)) eqn:H2|]; cbn [andb].
  - eexists. split; [reflexivity|]. cbn [nodes links].
    split; [reflexivity|]. split; [|split].
    + intros l Hl. apply in_app_or in Hl. destruct Hl as [Hl|[<-|[]]].
      * apply filter_In in Hl. left. tauto.
      * right. auto.
    + intros l Hl Hd. apply in_or_app. left. apply filter_In. split; [exact Hl|].
      destruct (Socket_eqb (to_socket l) dst) eqn:E; [|reflexivity].
      apply Socket_eqb_eq in E. contradiction.
    + intros _ _. apply in_or_app. right. now left.
  - exists t. split; [reflexivity|]. split; [reflexivity|].
    split; [auto|]. split; [auto | discriminate].
  - exists t. split; [reflexivity|]. split; [reflexivity|].
    split; [auto|]. split; [auto | discriminate].
Qed.

Lemma relink_ok (ls : list Link) (t : NodeTree) : fst (relink ls t) = Ok tt.
Proof.
  revert t. induction ls as [|l ls IH]; intros t; cbn [relink]; [reflexivity|].
  destruct (links_new_total (from_socket l) (to_socket l) t) as [t' [E _]].
  rewrite E. apply IH.
Qed.

Lemma relink_links_from (ls : list Link) (t : NodeTree) (l : Link) :
  In l (links (snd (relink ls t))) ->
  (In l ls /\ has_node t (sock_node (from_socket l)) = true
           /\ has_node t (sock_node (to_socket l)) = true)
  \/ In l (links t).
Proof.
  revert t. induction ls as [|x ls IH]; intros t; cbn [relink]; [now right|].
  destruct (links_new_total (from_socket x) (to_socket x) t)
    as [t' [E [Hn [Hfrom _]]]].
  rewrite E. intros H.
  assert (Hh : forall i, has_node t' i = has_node t i)
    by (intros i; unfold has_node; now rewrite Hn).
  destruct (IH t' H) as [[H1 H2]|H'].
  - left. rewrite !Hh in H2. split; [now right | exact H2].
  - destruct (Hfrom l H') as [Hl|[-> [Ha Hb]]]; [now right|].
    left. cbn [from_socket to_socket]. split; [left; now destruct x | auto].
Qed.

Lemma relink_keeps (ls : list Link) (t : NodeTree) (l : Link) :
  In l (links t) -> (forall x, In x ls -> to_socket x <> to_socket l) ->
  In l (links (snd (relink ls t))).
Proof.
  revert t. induction ls as [|x ls IH]; intros t Hl Hd; cbn [relink]; [exact Hl|].
  destruct (links_new_total (from_socket x) (to_socket x) t)
    as [t' [E [_ [_ [Hkeep _]]]]].
  rewrite E. apply IH.
  - apply Hkeep; [exact Hl|]. intros H. apply (Hd x (or_introl eq_refl)). now symmetry.
  - intros y Hy. apply Hd. now right.
Qed.

Lemma relink_adds (ls : list Link) (t : NodeTree) (l : Link) :
  NoDup (map to_socket ls) -> In l ls ->
  has_node t (sock_node (from_socket l)) = true ->
  has_node t (sock_node (to_socket l)) = true ->
  In l (links (snd (relink ls t))).
Proof.
  revert t. induction ls as [|x ls IH]; intros t Hnd Hin H1 H2; [destruct Hin|].
  cbn [relink].
  destruct (links_new_total (from_socket x) (to_socket x) t)
    as [t' [E [Hn [_ [_ Hadd]]]]].
  rewrite E. cbn [map] in Hnd. inversion Hnd as [|? ? Hnotin Hnd']. subst.
  destruct Hin as [->|Hin].
  - apply relink_keeps.
    + specialize (Hadd H1 H2). now destruct l.
    + intros y Hy Heq. apply Hnotin. rewrite <- Heq. now apply in_map.
  - apply IH; [exact Hnd' | exact Hin | |]; unfold has_node; now rewrite Hn.
Qed.

(** X7: whatever the snapshot, [restore_material_links] raises nothing and
    leaves no emission and no value node in the tree (the artist's own
    included); it keeps every other node.  A link of the result is a link of
    the snapshot between nodes that were kept, or an old link that touches no
    removed node: a link of the snapshot to or from a removed node is not
    made again, without any error.  When no two links of the snapshot enter
    the same socket, every link of the snapshot between kept nodes is there
    afterwards. *)
Theorem restore_material_links_leaves_no_temporary :
  forall (ls : list Link) (t : NodeTree),
    (forall n, In n (nodes (snd (restore_material_links_tree ls t)))
               <-> In n (nodes t)
                   /\ id_in (temporary_ids (nodes t)) (node_ident n) = false)
    /\ (forall n, In n (nodes (snd (restore_material_links_tree ls t))) ->
                  node_type n <> EMISSION /\ node_type n <> VALUE)
    /\ fst (restore_material_links_tree ls t) = Ok tt
    /\ (forall l, In l (links (snd (restore_material_links_tree ls t))) ->
          (In l ls
           /\ survives t (sock_node (from_socket l)) = true
           /\ survives t (sock_node (to_socket l)) = true)
          \/ (In l (links t)
              /\ id_in (temporary_ids (nodes t)) (sock_node (from_socket l)) = false
              /\ id_in (temporary_ids (nodes t)) (sock_node (to_socket l)) = false))
    /\ (NoDup (map to_socket ls) ->
        forall l, In l ls ->
                  survives t (sock_node (from_socket l)) = true ->
                  survives t (sock_node (to_socket l)) = true ->
                  In l (links (snd (restore_material_links_tree ls t)))).
Proof.
  intros ls t. unfold restore_material_links_tree.
  destruct (remove_temporary_nodes_spec t) as [Hn Hl].
  assert (Hnodes : forall n, In n (nodes (snd (relink ls (remove_temporary_nodes t))))
                   <-> In n (nodes t)
                       /\ id_in (temporary_ids (nodes t)) (node_ident n) = false).
  { intros n. rewrite relink_nodes, Hn, filter_In, negb_true_iff. reflexivity. }
  split; [exact Hnodes|]. split; [|split; [|split]].
  - intros n Hin. apply Hnodes in Hin. destruct Hin as [Hin Hid].
    assert (Ht : is_temporary n = false).
    { destruct (is_temporary n) eqn:E; [|reflexivity].
      assert (H : In (node_ident n) (temporary_ids (nodes t))).
      { unfold temporary_ids. apply in_map. apply filter_In. auto. }
      apply id_in_spec in H. congruence. }
    unfold is_temporary in Ht. split; intros E; rewrite E in Ht; discriminate Ht.
  - apply relink_ok.
  - intros l Hin. apply relink_links_from in Hin.
    destruct Hin as [Hin|Hin].
    + left. now rewrite !has_node_remove_temporary in Hin.
    + right. rewrite Hl in Hin. apply filter_In in Hin. destruct Hin as [Hin Hb].
      apply andb_true_iff in Hb. destruct Hb as [H1 H2].
      apply negb_true_iff in H1, H2. auto.
  - intros Hnd l Hin H1 H2.
    apply relink_adds; auto; now rewrite has_node_remove_temporary.
Qed.

End RestoreFacts.


(** ** The UV groups of [bake_material] *)

Section GroupFacts.














Lemma is_mesh_MESH (t : ObjType) : is_mesh t = true <-> t = MESH.
Proof.
  destruct t; cbn [is_mesh]; split; congruence.
Qed.




Lemma create_material_folder_cases (name path : string) (w : World) :
  (path_exists (os_path_join path name) w = true
   /\ create_material_folder name path w = (Ok (os_path_join path name), w))
  \/ (path_exists (os_path_join path name) w = false
      /\ create_material_folder name path w
         = (Raise (OSError (os_path_join path name)), w))
  \/ (path_exists (os_path_join path name) w = false
      /\ create_material_folder name path w
         = (Ok (os_path_join path name),
            with_directories (fun ds => ds ++ [os_path_join path name]) w)).
Proof.
  unfold create_material_folder, bind.
  destruct (ensure_folder_spec (os_path_join path name) w)
    as [[Hex ->]|[[Hex [Hm ->]]|[Hex [Hm ->]]]]; auto.
Qed.




End GroupFacts.

(** ** One bake per UV group *)

Section GroupClaims.


End GroupClaims.



(** ** The fingerprint and the faces of the material *)

Section FaceFacts.

Lemma collect_polygons_faces obj material polys polys' acc :
  collect_polygons obj material polys acc =
  collect_polygons (set_polygons polys' obj) material
                   (filter (face_of obj material) polys) acc.
Proof.
  revert acc. induction polys as [|p polys IH]; intros acc; [reflexivity|].
  cbn [filter collect_polygons]. unfold face_of at 1.
  destruct (Nat.ltb _ _) eqn:Hr; cbn [andb]; [|apply IH].
  destruct (nth_error (material_slots obj) (material_index p)) as [slot|] eqn:En.
  2:{ apply nth_error_in_range in Hr. destruct Hr as [x Hx]. congruence. }
  destruct (slot_eqb slot material) eqn:Es; [|apply IH].
  cbn [collect_polygons set_polygons material_slots]. rewrite Hr, En, Es.
  rewrite (collect_loops_same_layers (data obj)
             (data (set_polygons polys' obj))) by reflexivity.
  destruct (collect_loops _ _ _); [apply IH | reflexivity].
Qed.

Lemma collect_loops_ok (m : Mesh) idxs acc :
  (forall idx, In idx idxs -> loop_in_layer m idx) ->
  exists c, collect_loops m idxs acc = Ok c.
Proof.
  revert acc. induction idxs as [|i idxs IH]; intros acc H; cbn [collect_loops].
  - eauto.
  - destruct (H i (or_introl eq_refl)) as [layer [uv [-> ->]]].
    apply IH. intros idx Hin. apply H. now right.
Qed.

Lemma collect_loops_raise_loop (m : Mesh) idxs acc e :
  collect_loops m idxs acc = Raise e ->
  exists idx, In idx idxs /\ ~ loop_in_layer m idx.
Proof.
  revert acc. induction idxs as [|i idxs IH]; intros acc; cbn [collect_loops];
    [discriminate|].
  destruct (uv_layers_active m) as [layer|] eqn:El.
  - destruct (nth_error (uv_data layer) i) as [uv|] eqn:Eu.
    + intros H. destruct (IH _ H) as [idx [Hin Hno]]. exists idx.
      split; [now right | exact Hno].
    + intros _. exists i. split; [now left|].
      intros [layer' [uv' [Hl Hu]]]. congruence.
  - intros _. exists i. split; [now left|].
    intros [layer' [uv' [Hl Hu]]]. congruence.
Qed.

Lemma collect_polygons_raise_face obj material polys acc e :
  collect_polygons obj material polys acc = Raise e ->
  exists p idx,
    In p polys /\ face_of obj material p = true
    /\ In idx (loop_indices p) /\ ~ loop_in_layer (data obj) idx.
Proof.
  revert acc. induction polys as [|p polys IH]; intros acc; cbn [collect_polygons];
    [discriminate|].
  assert (Hrest : forall acc',
             collect_polygons obj material polys acc' = Raise e ->
             exists p0 idx,
               In p0 (p :: polys) /\ face_of obj material p0 = true
               /\ In idx (loop_indices p0) /\ ~ loop_in_layer (data obj) idx).
  { intros acc' H. destruct (IH _ H) as [p0 [idx [Hin H']]].
    exists p0, idx. split; [now right | exact H']. }
  destruct (Nat.ltb _ _) eqn:Hr; [|apply Hrest].
  destruct (nth_error_in_range _ _ Hr) as [slot En]. rewrite En.
  destruct (slot_eqb slot material) eqn:Es; [|apply Hrest].
  destruct (collect_loops _ _ _) as [c|e0] eqn:El; [apply Hrest|].
  intros _. destruct (collect_loops_raise_loop _ _ _ _ El) as [idx [Hin Hno]].
  exists p, idx. split; [now left|]. split; [|auto].
  unfold face_of. now rewrite Hr, En, Es.
Qed.

Lemma collect_polygons_some_face obj material polys acc c :
  collect_polygons obj material polys acc = Ok c ->
  c = acc
  \/ exists p, In p polys /\ face_of obj material p = true /\ loop_indices p <> [].
Proof.
  revert acc. induction polys as [|p polys IH]; intros acc; cbn [collect_polygons].
  - intros H. injection H as <-. now left.
  - assert (Hrest : forall acc',
               collect_polygons obj material polys acc' = Ok c ->
               c = acc'
               \/ exists p0, In p0 (p :: polys) /\ face_of obj material p0 = true
                             /\ loop_indices p0 <> []).
    { intros acc' H. destruct (IH _ H) as [->|[p0 [Hin H']]]; [now left|].
      right. exists p0. split; [now right | exact H']. }
    destruct (Nat.ltb _ _) eqn:Hr; [|apply Hrest].
    destruct (nth_error_in_range _ _ Hr) as [slot En]. rewrite En.
    destruct (slot_eqb slot material) eqn:Es; [|apply Hrest].
    destruct (loop_indices p) as [|i idxs] eqn:Ei.
    + cbn [collect_loops]. apply Hrest.
    + intros _. right. exists p. split; [now left|].
      split; [|congruence]. unfold face_of. now rewrite Hr, En, Es.
Qed.

(** X10: the fingerprint of a material on a mesh is the fingerprint on the
    mesh reduced to the faces of that material: faces assigned to other slots
    change nothing.  [get_uv_hash] raises only when the active UV layer has no
    data for a loop of such a face, and returns a fingerprint whenever every
    loop of these faces has its data; a hash (rather than a sentinel) is
    returned only when some face of the material has a loop. *)
Theorem get_uv_hash_faces_of_material :
  forall (obj : Object) (material : option mat_id),
    get_uv_hash obj material
    = get_uv_hash
        (set_polygons (filter (face_of obj material) (polygons (data obj))) obj)
        material
    /\ (forall e,
          get_uv_hash obj material = Raise e ->
          e = loop_error (data obj)
          /\ exists p idx,
               In p (polygons (data obj)) /\ face_of obj material p = true
               /\ In idx (loop_indices p) /\ ~ loop_in_layer (data obj) idx)
    /\ ((forall p idx,
           In p (polygons (data obj)) -> face_of obj material p = true ->
           In idx (loop_indices p) -> loop_in_layer (data obj) idx) ->
        exists fp, get_uv_hash obj material = Ok fp)
    /\ (forall h,
          get_uv_hash obj material = Ok (uv_hash h) ->
          exists p, In p (polygons (data obj)) /\ face_of obj material p = true
                    /\ loop_indices p <> []).
Proof.
  intros obj material.
  assert (Hraise : forall e,
             get_uv_hash obj material = Raise e ->
             e = loop_error (data obj)
             /\ exists p idx,
                  In p (polygons (data obj)) /\ face_of obj material p = true
                  /\ In idx (loop_indices p) /\ ~ loop_in_layer (data obj) idx).
  { intros e. unfold get_uv_hash.
    destruct (uv_layers (data obj)); [discriminate|].
    destruct (negb _); [discriminate|].
    destruct (collect_polygons _ _ _ _) as [c|e0] eqn:E.
    - destruct (sort c); discriminate.
    - intros H. injection H as <-.
      split; [eapply collect_polygons_raise; eauto|].
      eapply collect_polygons_raise_face; eauto. }
  split; [|split; [exact Hraise|split]].
  - unfold get_uv_hash. cbn [set_polygons data uv_layers material_slots polygons].
    destruct (uv_layers (data obj)); [reflexivity|].
    destruct (negb _); [reflexivity|].
    now rewrite <- collect_polygons_faces.
  - intros Hall. destruct (get_uv_hash obj material) as [fp|e] eqn:E; [eauto|].
    destruct (Hraise e eq_refl) as [_ [p [idx [Hp [Hf [Hi Hno]]]]]].
    elim Hno. now apply (Hall p idx).
  - intros h. unfold get_uv_hash.
    destruct (uv_layers (data obj)); [discriminate|].
    destruct (negb _); [discriminate|].
    destruct (collect_polygons _ _ _ _) as [c|e0] eqn:E; [|discriminate].
    destruct (collect_polygons_some_face _ _ _ _ _ E) as [->|H]; [|intros _; exact H].
    cbn [sort]. discriminate.
Qed.

End FaceFacts.


(** ** The resolver changes names only *)

Section RenameFacts.

Lemma find_material_None m w :
  find_material m w = None <-> ~ In m (map mat_ident (bpy_materials w)).
Proof.
  unfold find_material. split.
  - intros H Hin. apply in_map_iff in Hin. destruct Hin as [mat [E Hin]].
    apply (find_none _ _ H) in Hin. rewrite E, Nat.eqb_refl in Hin. discriminate Hin.
  - intros H. destruct (find _ _) as [mat|] eqn:E; [|reflexivity].
    apply find_some in E. destruct E as [Hin E]. apply Nat.eqb_eq in E.
    elim H. rewrite <- E. now apply in_map.
Qed.

Lemma find_material_same_idents m w w' :
  map mat_ident (bpy_materials w') = map mat_ident (bpy_materials w) ->
  find_material m w <> None -> find_material m w' <> None.
Proof.
  intros E H H'. apply H. apply find_material_None.
  rewrite <- E. now apply find_material_None.
Qed.







(** *** A material that is not shared keeps its name *)

Lemma before_irrefl u : ~ before u u.
Proof.
  unfold before. lia.
Qed.

Lemma pass1_inv_weaken objs d v v' :
  (forall u, before u v -> before u v') -> pass1_inv objs d v -> pass1_inv objs d v'.
Proof.
  intros Hw [H1 H2 H3]. split; auto. intros key us u Hin Hu. apply Hw. eauto.
Qed.

Lemma pass1_inv_append objs d k o si obj :
  nth_error objs o = Some obj -> obj_type obj = MESH ->
  pass1_inv objs d (o, si) ->
  pass1_inv objs (usage_append d k (o, si)) (o, S si).
Proof.
  intros Ho Hm [H1 H2 H3]. split.
  - intros key us Hin. apply usage_append_In in Hin.
    destruct Hin as [Hin|[-> [old [-> Hold]]]]; [eauto|].
    destruct Hold as [->|Hold]; [repeat constructor; intros []|].
    apply NoDup_snoc; [eauto|].
    intros Hu. apply (before_irrefl (o, si)). eauto.
  - intros key us u Hin Hu. apply usage_append_In in Hin.
    assert (Hw : forall x, before x (o, si) -> before x (o, S si)).
    { unfold before. cbn [fst snd]. intros x. lia. }
    destruct Hin as [Hin|[-> [old [-> Hold]]]]; [eauto|].
    apply in_app_or in Hu. destruct Hu as [Hu|[<-|[]]].
    + destruct Hold as [->|Hold]; [destruct Hu | eauto].
    + unfold before. cbn [fst snd]. lia.
  - intros key us u Hin Hu. apply usage_append_In in Hin.
    destruct Hin as [Hin|[-> [old [-> Hold]]]]; [eauto|].
    apply in_app_or in Hu. destruct Hu as [Hu|[<-|[]]].
    + destruct Hold as [->|Hold]; [destruct Hu | eauto].
    + exists obj. auto.
Qed.

Lemma pass1_slots_inv objs o obj slots k d :
  nth_error objs o = Some obj -> obj_type obj = MESH ->
  pass1_inv objs d (o, k) ->
  pass1_inv objs (fold_left (pass1_slot obj o) (enumerate_from k slots) d)
            (o, k + List.length slots).
Proof.
  intros Ho Hm. revert k d.
  induction slots as [|slot slots IH]; intros k d Hd;
    cbn [enumerate_from fold_left List.length].
  - now rewrite Nat.add_0_r.
  - rewrite <- Nat.add_succ_comm. apply IH.
    unfold pass1_slot. cbn [fst snd].
    assert (Hw : pass1_inv objs d (o, S k)).
    { apply (pass1_inv_weaken objs d (o, k)); [|exact Hd].
      unfold before. cbn [fst snd]. intros x. lia. }
    destruct slot as [m|]; [|exact Hw].
    destruct (get_uv_hash obj (Some m)); [|exact Hw].
    now apply (pass1_inv_append objs d _ o k obj).
Qed.

Lemma pass1_objects_inv objs rest k d :
  (forall j, nth_error rest j = nth_error objs (k + j)) ->
  pass1_inv objs d (k, 0) ->
  pass1_inv objs (fold_left pass1_object (enumerate_from k rest) d)
            (k + List.length rest, 0).
Proof.
  revert k d. induction rest as [|obj rest IH]; intros k d Hnth Hd;
    cbn [enumerate_from fold_left List.length].
  - now rewrite Nat.add_0_r.
  - assert (Hk : nth_error objs k = Some obj).
    { specialize (Hnth 0). rewrite Nat.add_0_r in Hnth. now rewrite <- Hnth. }
    rewrite <- Nat.add_succ_comm. apply IH.
    { intros j. specialize (Hnth (S j)). cbn [nth_error] in Hnth.
      now rewrite Nat.add_succ_r in Hnth. }
    unfold pass1_object. cbn [fst snd].
    destruct (is_mesh (obj_type obj)) eqn:Em.
    + apply is_mesh_MESH in Em.
      apply (pass1_inv_weaken objs _ (k, 0 + List.length (material_slots obj))).
      { unfold before. cbn [fst snd]. intros x. lia. }
      now apply pass1_slots_inv.
    + apply (pass1_inv_weaken objs d (k, 0)); [|exact Hd].
      unfold before. cbn [fst snd]. intros x. lia.
Qed.

Lemma collect_material_usage_inv objs :
  pass1_inv objs (collect_material_usage objs) (List.length objs, 0).
Proof.
  unfold collect_material_usage.
  apply (pass1_objects_inv objs objs 0 []); [reflexivity|].
  split; [intros key us [] | intros key us u [] | intros key us u []].
Qed.

Lemma for_each_groups_untouched d w m :
  usage_sound (scene_objects w) d ->
  (forall uv us, In ((m, uv), us) d ->
                 Nat.ltb 1 (List.length us) && negb (is_sentinel uv) = false) ->
  find_material m (snd (for_each d process_group w)) = find_material m w.
Proof.
  revert w. induction d as [|[[m' uv] usages] d IH]; intros w Hs Hsmall;
    cbn [for_each]; [reflexivity|].
  assert (Hu : forall u, In u usages ->
            exists obj, nth_error (scene_objects w) (fst u) = Some obj
               /\ nth_error (material_slots obj) (snd u) = Some (Some m')
               /\ get_uv_hash obj (Some m') = Ok uv).
  { intros u Hu. apply (Hs (m', uv) usages u); [now left | assumption]. }
  assert (H2 := process_group_renaming m' uv usages w Hu).
  assert (H1 : find_material m (snd (process_group ((m', uv), usages) w))
               = find_material m w).
  { destruct (process_group_spec m' uv usages w Hu)
      as [[_ ->]|[[_ [_ [e0 ->]]]|[Hc [mat [first [first_obj [Hf [_ [_ [-> Hlk]]]]]]]]]];
      try reflexivity.
    cbn [snd]. rewrite find_material_put. cbn [mat_ident rename_material].
    rewrite (find_material_ident m' mat w Hf).
    destruct (Nat.eqb_spec m m') as [->|Hne]; [|reflexivity].
    rewrite (Hsmall uv usages (or_introl eq_refl)) in Hc. discriminate Hc. }
  unfold bind. destruct (process_group ((m', uv), usages) w) as [[[]|e] w1];
    cbn [snd] in *; [|exact H1].
  rewrite IH; [exact H1| |].
  - rewrite (renaming_objects _ _ H2).
    intros key us u Hin Hu'. apply (Hs key us u); [now right | assumption].
  - intros uv' us' Hin. apply (Hsmall uv' us'). now right.
Qed.

(** X12: a material that no two different slots of meshes hold with the same
    proper fingerprint comes out of [duplicate_shared_materials] as it went
    in, name included: a material with one user, and a material whose users
    all have different UV layouts, is neither renamed nor copied. *)
Theorem material_kept_unless_shared :
  forall (w : World) (m : mat_id),
    (forall u1 u2 obj1 obj2 h,
        nth_error (scene_objects w) (fst u1) = Some obj1 ->
        obj_type obj1 = MESH ->
        nth_error (material_slots obj1) (snd u1) = Some (Some m) ->
        get_uv_hash obj1 (Some m) = Ok (uv_hash h) ->
        nth_error (scene_objects w) (fst u2) = Some obj2 ->
        obj_type obj2 = MESH ->
        nth_error (material_slots obj2) (snd u2) = Some (Some m) ->
        get_uv_hash obj2 (Some m) = Ok (uv_hash h) ->
        u1 = u2) ->
    find_material m (snd (duplicate_shared_materials w)) = find_material m w.
Proof.
  intros w m Hone. unfold duplicate_shared_materials.
  assert (Hs := collect_material_usage_sound (scene_objects w)).
  destruct (collect_material_usage_inv (scene_objects w)) as [Hd _ Hm].
  apply for_each_groups_untouched; [exact Hs|].
  intros uv us Hin.
  destruct (is_sentinel uv) eqn:Esen; [apply andb_false_r|].
  rewrite andb_true_r. apply Nat.ltb_ge.
  destruct us as [|u1 [|u2 us]]; cbn [List.length]; try lia.
  exfalso.
  assert (Hnd := Hd _ _ Hin). inversion Hnd as [|? ? Hn1 _]. subst.
  apply Hn1. left.
  destruct uv as [| | |h]; try discriminate Esen.
  destruct (Hs _ _ u1 Hin (or_introl eq_refl)) as [o1 [Ho1 [Hs1 Hh1]]].
  destruct (Hs _ _ u2 Hin (or_intror (or_introl eq_refl))) as [o2 [Ho2 [Hs2 Hh2]]].
  destruct (Hm _ _ u1 Hin (or_introl eq_refl)) as [o1' [Ho1' Hm1]].
  destruct (Hm _ _ u2 Hin (or_intror (or_introl eq_refl))) as [o2' [Ho2' Hm2]].
  assert (o1' = o1) by congruence. assert (o2' = o2) by congruence. subst.
  symmetry. apply (Hone u1 u2 o1 o2 h); assumption.
Qed.

End RenameFacts.


(** ** Relations that every step of a run respects *)

Section Frame.

Variable R : World -> World -> Prop.
Hypothesis R_refl : forall w, R w w.
Hypothesis R_trans : forall a b c, R a b -> R b c -> R a c.
Hypothesis H_makedirs :
  forall p w, R w (with_directories (fun ds => ds ++ [p]) w).
Hypothesis H_tree :
  forall m mat use t w,
    find_material m w = Some mat -> R w (snd (put_material (with_tree use t mat) w)).
Hypothesis H_image :
  forall name w,
    R w (with_images
           (fun imgs => filter (fun i => negb (String.eqb i name)) imgs ++ [name]) w).
Hypothesis H_select : forall sel act w, R w (with_selection sel act w).
Hypothesis H_log :
  forall e w, is_bake e = false -> is_save e = false -> R w (with_event e w).
Hypothesis H_bake_save :
  forall bake_type m image path filename,
    respects R (bake bake_type m ;;; _save_baked_image image path filename).

Collection Steps :=
  R_refl R_trans H_makedirs H_tree H_image H_select H_log H_bake_save.

Local Abbreviation f_bind := (respects_bind R R_trans).
Local Abbreviation f_ret := (respects_ret R R_refl).
Local Abbreviation f_raise := (respects_raise R R_refl).
Local Abbreviation f_lift := (respects_lift R R_refl).
Local Abbreviation f_get_material := (respects_get_material R R_refl).

Lemma frame_makedirs p : respects R (makedirs p).
Proof using Steps.
  unfold makedirs. destruct (makedirs_raises p); [apply f_raise|].
  intros w. apply H_makedirs.
Qed.

Lemma frame_create_material_folder name path :
  respects R (create_material_folder name path).
Proof using Steps.
  unfold create_material_folder.
  apply (respects_reading R
           (fun w0 => (if path_exists (os_path_join path name) w0 then ret tt
                       else makedirs (os_path_join path name)) ;;;
                      ret (os_path_join path name))).
  intros w0.
  apply f_bind; [|intros; apply f_ret].
  destruct (path_exists _ w0); [apply f_ret | apply frame_makedirs].
Qed.

Lemma frame_get_output_path : respects R get_output_path.
Proof using Steps.
  unfold get_output_path. destruct (String.eqb blend_filepath ""); [apply f_raise|].
  apply (respects_reading R
           (fun w0 => (if path_exists _ w0 then ret tt else makedirs _) ;;; ret _)).
  intros w0.
  apply f_bind; [|intros; apply f_ret].
  destruct (path_exists _ w0); [apply f_ret | apply frame_makedirs].
Qed.

Lemma frame_BakeSettings_setup : respects R BakeSettings_setup.
Proof using Steps.
  unfold BakeSettings_setup. destruct cycles_registered; [apply f_ret | apply f_raise].
Qed.

Lemma frame_create_bake_image name : respects R (_create_bake_image name).
Proof using Steps.
  unfold _create_bake_image. apply f_bind; [|intros; apply f_ret].
  intros w. apply H_image.
Qed.

Lemma frame_set_node_image m bake_node image :
  respects R (set_node_image m bake_node image).
Proof using Steps.
  intros w. unfold set_node_image, bind, get_material.
  destruct (find_material m w) as [mat|] eqn:Ef; cbv beta iota; [|apply R_refl].
  destruct (node_tree mat) as [t|]; [|apply R_refl].
  destruct (has_node t bake_node); [|apply R_refl].
  now apply (H_tree m).
Qed.

Lemma frame_log e : is_bake e = false -> is_save e = false -> respects R (log e).
Proof using Steps.
  intros Hb Hs w. now apply H_log.
Qed.

Lemma frame_setup_metallic_nodes m : respects R (setup_metallic_nodes m).
Proof using Steps.
  unfold setup_metallic_nodes.
  apply f_bind; [now apply frame_log|]. intros _.
  intros w. unfold bind, get_material.
  destruct (find_material m w) as [mat|] eqn:Ef; cbv beta iota; [|apply R_refl].
  destruct (node_tree mat) as [t|]; [|apply R_refl].
  destruct (setup_metallic_nodes_tree t) as [r t'].
  unfold bind. rewrite put_material_ok. unfold lift. cbn [snd].
  now apply (H_tree m).
Qed.

Lemma frame_restore_material_links m original_links :
  respects R (restore_material_links m original_links).
Proof using Steps.
  unfold restore_material_links.
  apply f_bind; [now apply frame_log|]. intros _.
  intros w. unfold bind, get_material.
  destruct (find_material m w) as [mat|] eqn:Ef; cbv beta iota; [|apply R_refl].
  destruct (node_tree mat) as [t|]; [|apply R_refl].
  destruct (restore_material_links_tree original_links t) as [r t'].
  unfold bind. rewrite put_material_ok. unfold lift. cbn [snd].
  now apply (H_tree m).
Qed.

Lemma frame_setup_bake_node m : respects R (setup_bake_node m).
Proof using Steps.
  intros w. unfold setup_bake_node, bind, get_material.
  destruct (find_material m w) as [mat|] eqn:Ef; cbv beta iota; [|apply R_refl].
  set (t := match node_tree mat with Some t => t | None => default_tree end).
  destruct (setup_bake_node_tree t) as [bake_node t'].
  rewrite put_material_ok. cbn [snd].
  now apply (H_tree m).
Qed.

Lemma frame_bake_and_restore m bake_type suffix image path name :
  respects R (bake_and_restore m bake_type suffix image path name).
Proof using Steps.
  unfold bake_and_restore. apply f_bind.
  - destruct (String.eqb suffix "metallic"); [|apply f_ret].
    apply f_bind; [apply frame_setup_metallic_nodes | intros; apply f_ret].
  - intros p. apply (respects_try_finally R R_trans).
    + apply H_bake_save.
    + destruct (fst p) as [[|l ls]|];
        [apply f_ret | apply frame_restore_material_links | apply f_ret].
Qed.

Lemma frame_bake_one_map m bake_node path channel :
  respects R (bake_one_map m bake_node path channel).
Proof using Steps.
  destruct channel as [bake_type suffix]. unfold bake_one_map.
  apply f_bind; [apply f_get_material|].
  intros mat. apply f_bind; [apply frame_create_bake_image|].
  intros image. apply f_bind; [apply frame_set_node_image|].
  intros _. apply frame_bake_and_restore.
Qed.

Lemma frame_bake_maps_from channels m bake_node path :
  respects R (bake_maps_from channels m bake_node path).
Proof using Steps.
  induction channels as [|c rest IH]; intros w; cbn [bake_maps_from].
  - apply R_refl.
  - assert (H := frame_bake_one_map m bake_node path c w).
    destruct (bake_one_map m bake_node path c w) as [[u|e] w1]; cbn [snd] in *.
    + eapply R_trans; [exact H | apply IH].
    + exact H.
Qed.

Lemma frame_select_representative objects :
  respects R (select_representative objects).
Proof using Steps.
  unfold select_representative. apply f_bind.
  - intros w. apply H_select.
  - intros _. destruct objects as [|first others]; [apply f_raise|].
    apply f_bind; [apply (respects_get_object R R_refl)|].
    intros obj. destruct (in_view_layer obj); [|apply f_raise].
    intros w. apply H_select.
Qed.

Lemma frame_bake_groups m path groups : respects R (bake_groups m path groups).
Proof using Steps.
  induction groups as [|[k objects] rest IH]; cbn [bake_groups].
  - apply f_ret.
  - apply f_bind; [apply frame_select_representative|]. intros _.
    apply f_bind; [apply frame_setup_bake_node|]. intros bake_node.
    apply f_bind; [apply frame_bake_maps_from|]. intros success.
    destruct (negb success); [apply f_ret | apply IH].
Qed.

Lemma frame_bake_material m path : respects R (bake_material m path).
Proof using Steps.
  unfold bake_material.
  apply (respects_try_except R R_trans); [|intros; apply f_ret].
  apply f_bind; [apply f_get_material|].
  intros mat. apply f_bind; [apply frame_create_material_folder|].
  intros material_path. apply f_bind.
  - intros w. apply R_refl.
  - intros [|g groups]; [apply f_ret | apply frame_bake_groups].
Qed.

Lemma frame_bake_materials mats path c : respects R (bake_materials mats path c).
Proof using Steps.
  revert c. induction mats as [|m rest IH]; intros c; cbn [bake_materials].
  - apply f_ret.
  - apply f_bind; [now apply frame_log|]. intros _.
    apply f_bind; [apply frame_bake_material|]. intros ok. apply IH.
Qed.

(** *** With the resolver and the clean-up: the whole run *)

Hypothesis H_rename :
  forall m mat name w,
    find_material m w = Some mat ->
    R w (snd (put_material (rename_material name mat) w)).
Hypothesis H_cleanup : forall w, R w (snd (cleanup_unused_materials w)).

Collection Run := Steps H_rename H_cleanup.

Lemma frame_for_each_groups d w :
  usage_sound (scene_objects w) d ->
  R w (snd (for_each d process_group w)).
Proof using Run.
  revert w. induction d as [|[[m uv] usages] d IH]; intros w Hs; cbn [for_each].
  - apply R_refl.
  - assert (Hu : forall u, In u usages ->
              exists obj, nth_error (scene_objects w) (fst u) = Some obj
                 /\ nth_error (material_slots obj) (snd u) = Some (Some m)
                 /\ get_uv_hash obj (Some m) = Ok uv).
    { intros u Hu. apply (Hs (m, uv) usages u); [now left | assumption]. }
    assert (H2 := process_group_renaming m uv usages w Hu).
    assert (H1 : R w (snd (process_group ((m, uv), usages) w))).
    { destruct (process_group_spec m uv usages w Hu)
        as [[_ ->]|[[_ [_ [e0 ->]]]|[_ [mat [first [first_obj [Hf [_ [_ [-> Hlk]]]]]]]]]];
        cbn [snd]; try apply R_refl.
      now apply (H_rename m). }
    unfold bind. destruct (process_group ((m, uv), usages) w) as [[[]|e] w1];
      cbn [snd] in *; [|exact H1].
    eapply R_trans; [exact H1|]. apply IH.
    rewrite (renaming_objects _ _ H2).
    intros key us u Hin Hu'. apply (Hs key us u); [now right | assumption].
Qed.

Lemma frame_duplicate_shared_materials : respects R duplicate_shared_materials.
Proof using Run.
  intros w. unfold duplicate_shared_materials.
  apply frame_for_each_groups, collect_material_usage_sound.
Qed.

Lemma frame_prepare : respects R prepare.
Proof using Run.
  unfold prepare.
  apply f_bind; [apply frame_duplicate_shared_materials|]. intros _.
  apply f_bind; [apply frame_get_output_path|]. intros output_path.
  apply f_bind; [apply frame_BakeSettings_setup|]. intros _.
  apply f_bind; [intros w; apply R_refl|].
  intros [|m ms]; [apply f_raise | apply f_ret].
Qed.

Lemma frame_execute (w : World) : R w (snd (execute w)).
Proof using Run.
  unfold execute.
  match goal with |- R w (snd (match ?c w with _ => _ end)) =>
    assert (H : respects R c)
  end.
  { apply f_bind; [apply frame_prepare|]. intros p.
    apply f_bind; [apply frame_bake_materials|]. intros n.
    apply f_bind; [|intros; apply f_ret].
    intros w0. apply H_cleanup. }
  specialize (H w).
  match goal with |- R w (snd (match ?c with _ => _ end)) =>
    destruct c as [[r|e] w']
  end; exact H.
Qed.

End Frame.


(** ** What a run keeps *)

Section KeptFacts.









End KeptFacts.


(** ** Saves follow bakes *)

Section PairFacts.

Lemma paired_app (a b : list Event) : paired a -> paired b -> paired (a ++ b).
Proof.
  induction 1; intros Hb; cbn [app];
    [exact Hb | apply paired_other; auto | apply paired_raised; auto
    | apply paired_saved; auto].
Qed.

Lemma pairs_refl (w : World) : pairs w w.
Proof.
  exists []. split; [now rewrite app_nil_r | constructor].
Qed.

Lemma pairs_trans (a b c : World) : pairs a b -> pairs b c -> pairs a c.
Proof.
  intros [n1 [E1 P1]] [n2 [E2 P2]]. exists (n1 ++ n2).
  split; [now rewrite E2, E1, app_assoc | now apply paired_app].
Qed.

Lemma pairs_same_events (w w' : World) : events w' = events w -> pairs w w'.
Proof.
  intros E. exists []. split; [now rewrite app_nil_r | constructor].
Qed.

Lemma pairs_bake_save bake_type m image path filename :
  respects pairs (bake bake_type m ;;; _save_baked_image image path filename).
Proof.
  intros w. unfold bind, bake.
  destruct (bake_raises (bake_calls w)).
  - cbn [snd]. eexists. split; [reflexivity|]. apply paired_raised, paired_nil.
  - unfold _save_baked_image. cbn [save_calls with_event with_counters].
    destruct (save_raises (save_calls w)); cbn [snd].
    + exists [EvBake bake_type m (active_object w) false;
              EvSave (os_path_join path filename) filename true].
      split; [cbn; rewrite <- app_assoc; reflexivity
             | apply paired_saved, paired_nil].
    + exists [EvBake bake_type m (active_object w) false;
              EvSave (os_path_join path filename) filename false].
      split; [cbn; rewrite <- app_assoc; reflexivity
             | apply paired_saved, paired_nil].
Qed.

Lemma pairs_execute (w : World) : pairs w (snd (execute w)).
Proof.
  apply (frame_execute pairs pairs_refl pairs_trans).
  - intros p w0. now apply pairs_same_events.
  - intros m mat use t w0 _. now apply pairs_same_events.
  - intros name w0. now apply pairs_same_events.
  - intros sel act w0. now apply pairs_same_events.
  - intros e w0 Hb Hs. exists [e]. split; [reflexivity|].
    apply paired_other; [assumption | assumption | apply paired_nil].
  - apply pairs_bake_save.
  - intros m mat name w0 _. now apply pairs_same_events.
  - intros w0. now apply pairs_same_events.
Qed.

Lemma paired_count (l : list Event) :
  paired l ->
  List.length (filter is_save l)
  = List.length (filter (fun e => is_bake e && negb (bake_raised e)) l).
Proof.
  induction 1 as [|e l Hb Hs _ IH| |]; cbn [filter is_save is_bake bake_raised
    andb negb List.length]; auto.
  rewrite Hb, Hs. exact IH.
Qed.

(** X14: in the trace of a run a save is attempted exactly after each bake
    call that returned, as the very next event, and after no other event: a
    bake that raised writes no file, and the reroute is undone only after the
    image was saved.  So a run attempts as many saves as bake calls
    returned. *)
Theorem run_saves_follow_bakes :
  forall w : World,
    exists new,
      events (snd (execute w)) = events w ++ new
      /\ paired new
      /\ List.length (filter is_save new)
         = List.length (filter (fun e => is_bake e && negb (bake_raised e)) new).
Proof.
  intros w. destruct (pairs_execute w) as [new [E P]].
  exists new. split; [exact E|]. split; [exact P | now apply paired_count].
Qed.

End PairFacts.


(** ** When a run reaches its report *)

Section ReportFacts.

Local Abbreviation output_folder :=
  (os_path_join (os_path_dirname blend_filepath) "BakedTextures").









End ReportFacts.


(** ** The files of a material *)

Section FileFacts.

Variable m : mat_id.
Variable name : string.
Variable path : string.

Local Abbreviation files := (files m name path).
Local Abbreviation named := (named m name).

Lemma named_same_materials w w' :
  bpy_materials w' = bpy_materials w -> named w w'.
Proof.
  unfold named, name_of, find_material. now intros ->.
Qed.

Lemma named_put_tree m0 mat use t w :
  find_material m0 w = Some mat ->
  named w (snd (put_material (with_tree use t mat) w)).
Proof.
  intros Hf. unfold named, name_of. rewrite find_material_put.
  cbn [mat_ident with_tree]. rewrite (find_material_ident m0 mat w Hf).
  destruct (Nat.eqb_spec m m0) as [->|Hne]; [|auto].
  rewrite Hf. auto.
Qed.

Lemma named_bake_one_map bake_node folder channel w :
  named w (snd (bake_one_map m bake_node folder channel w)).
Proof.
  apply (frame_bake_one_map named).
  - intros w0 H. exact H.
  - intros a b c Hab Hbc H. auto.
  - intros p w0. now apply named_same_materials.
  - intros m0 mat use t w0. apply named_put_tree.
  - intros n w0. now apply named_same_materials.
  - intros sel act w0. now apply named_same_materials.
  - intros e w0 _ _. now apply named_same_materials.
  - intros bt m0 image p f w0. apply named_same_materials.
    unfold bind, bake, _save_baked_image.
    destruct (bake_raises (bake_calls w0)); [reflexivity|].
    cbn [save_calls with_event with_counters].
    destruct (save_raises _); reflexivity.
Qed.

Lemma files_refl w : files w w.
Proof.
  intros H. split; [exact H|]. exists []. split; [now rewrite app_nil_r|].
  intros fp f r [].
Qed.

Lemma files_trans a b c : files a b -> files b c -> files a c.
Proof.
  intros Hab Hbc Ha. destruct (Hab Ha) as [Hb [n1 [E1 P1]]].
  destruct (Hbc Hb) as [Hc [n2 [E2 P2]]].
  split; [exact Hc|]. exists (n1 ++ n2).
  split; [now rewrite E2, E1, app_assoc|].
  intros fp f r Hin. apply in_app_or in Hin. destruct Hin; eauto.
Qed.

Lemma files_quiet w w' :
  named w w' -> events w' = events w -> files w w'.
Proof.
  intros Hn He H. split; [auto|]. exists [].
  split; [now rewrite app_nil_r | intros fp f r []].
Qed.

Lemma files_bake_one_map bake_node channel w :
  In channel BAKE_TYPES ->
  files w (snd (bake_one_map m bake_node (os_path_join path name) channel w)).
Proof.
  intros Hc Hn. split; [now apply named_bake_one_map|].
  destruct channel as [bake_type suffix].
  unfold name_of in Hn. destruct (find_material m w) as [mat|] eqn:Ef;
    [|discriminate Hn].
  cbn [option_map] in Hn. injection Hn as Hname.
  destruct (bake_one_map_saves m bake_node (os_path_join path name) bake_type
              suffix mat w Ef) as [new [E Hs]].
  exists new. split; [exact E|].
  intros fp f r Hin. destruct (Hs fp f r Hin) as [-> ->].
  exists suffix. rewrite Hname, map_name_of_eq.
  split; [apply (in_map snd _ _ Hc)|].
  split; [now rewrite !append_assoc | now rewrite !append_assoc].
Qed.

Lemma files_bake_maps_from channels bake_node w :
  incl channels BAKE_TYPES ->
  files w (snd (bake_maps_from channels m bake_node (os_path_join path name) w)).
Proof.
  revert w. induction channels as [|c rest IH]; intros w Hincl;
    cbn [bake_maps_from].
  - apply files_refl.
  - assert (H := files_bake_one_map bake_node c w (Hincl c (or_introl eq_refl))).
    destruct (bake_one_map m bake_node _ c w) as [[u|e] w1]; cbn [snd] in *.
    + eapply files_trans; [exact H|]. apply IH.
      intros x Hx. apply Hincl. now right.
    + exact H.
Qed.

Lemma files_setup_bake_node w : files w (snd (setup_bake_node m w)).
Proof.
  unfold setup_bake_node, bind, get_material.
  destruct (find_material m w) as [mat|] eqn:Ef; cbv beta iota; [|apply files_refl].
  set (t := match node_tree mat with Some t => t | None => default_tree end).
  destruct (setup_bake_node_tree t) as [bake_node t'].
  rewrite put_material_ok. cbn [snd].
  apply files_quiet; [now apply (named_put_tree m mat) | reflexivity].
Qed.

Lemma files_select_representative objects w :
  files w (snd (select_representative objects w)).
Proof.
  destruct objects as [|first others].
  - rewrite select_representative_none. cbn [snd].
    apply files_quiet; [now apply named_same_materials | reflexivity].
  - destruct (select_representative_first first others w) as [->|[e0 ->]];
      cbn [snd]; (apply files_quiet; [now apply named_same_materials | reflexivity]).
Qed.

Lemma files_bake_groups groups w :
  files w (snd (bake_groups m (os_path_join path name) groups w)).
Proof.
  revert w. induction groups as [|[k objects] rest IH]; intros w; cbn [bake_groups].
  - apply files_refl.
  - unfold bind at 1.
    assert (H1 := files_select_representative objects w).
    destruct (select_representative objects w) as [[[]|e] w1]; cbn [snd] in *;
      [|exact H1].
    eapply files_trans; [exact H1|]. unfold bind at 1.
    assert (H2 := files_setup_bake_node w1).
    destruct (setup_bake_node m w1) as [[bake_node|e] w2]; cbn [snd] in *;
      [|exact H2].
    eapply files_trans; [exact H2|]. unfold bind.
    assert (H3 := files_bake_maps_from BAKE_TYPES bake_node w2 (incl_refl _)).
    fold (_bake_all_maps m bake_node (os_path_join path name)) in H3.
    destruct (_bake_all_maps m bake_node (os_path_join path name) w2)
      as [[success|e] w3]; cbn [snd] in *; [|exact H3].
    destruct (negb success); cbn [snd ret]; [exact H3|].
    eapply files_trans; [exact H3 | apply IH].
Qed.

Lemma files_bake_material w : files w (snd (bake_material m path w)).
Proof.
  destruct (find_material m w) as [mat|] eqn:Ef.
  2:{ intros Hn. unfold name_of in Hn. rewrite Ef in Hn. discriminate Hn. }
  destruct (String.eqb_spec (mat_name mat) name) as [Hname|Hname].
  2:{ intros Hn. unfold name_of in Hn. rewrite Ef in Hn. cbn in Hn. congruence. }
  unfold bake_material, try_except.
  rewrite (bind_ok _ _ _ _ _ (get_material_ok _ _ _ Ef)). cbv beta.
  rewrite Hname.
  assert (Hd : forall f w0, files w0 (with_directories f w0)).
  { intros f w0. apply files_quiet; [now apply named_same_materials | reflexivity]. }
  assert (Hrest : forall w1,
             files w1
               (snd (let (r, w') :=
                       bind (fun w0 => lift (uv_groups_of m w0) w0)
                         (fun uv_groups =>
                            match uv_groups with
                            | [] => ret false
                            | _ :: _ =>
                                bake_groups m (os_path_join path name) uv_groups
                            end) w1 in
                     match r with
                     | Ok a => (Ok a, w')
                     | Raise _ => ret false w'
                     end))).
  { intros w1. unfold bind, lift.
    destruct (uv_groups_of m w1) as [[|g groups]|e]; cbn [snd ret];
      try apply files_refl.
    assert (H := files_bake_groups (g :: groups) w1).
    destruct (bake_groups m _ (g :: groups) w1) as [[ok|e] w2]; exact H. }
  destruct (create_material_folder_cases name path w)
    as [[Hex E]|[[Hex E]|[Hex E]]].
  - rewrite (bind_ok _ _ _ _ _ E). cbv beta. apply Hrest.
  - rewrite (bind_raise _ _ _ _ _ E). cbn [snd ret]. apply files_refl.
  - rewrite (bind_ok _ _ _ _ _ E). cbv beta.
    eapply files_trans; [apply Hd | apply Hrest].
Qed.

(** X16: every file saved while [bake_material] processes a material is a
    map file of that material: its name is the name of the material, an
    underscore, one of the five channel suffixes and [.png], and it is
    written into the folder of the material under the output path; the name
    of the material is the same afterwards.  The path does not depend on the
    UV group, so the groups of one material write to the same five files. *)
Theorem bake_material_files :
  forall w : World,
    name_of m w = Some name ->
    name_of m (snd (bake_material m path w)) = Some name
    /\ exists new,
         events (snd (bake_material m path w)) = events w ++ new
         /\ forall fp f raised,
              In (EvSave fp f raised) new ->
              is_map_file path name fp f.
Proof.
  intros w. apply (files_bake_material w).
Qed.

End FileFacts.


(** ** Image names do not collide *)

Section NameFacts.

Lemma contains_underscore_app (a b : string) :
  PyStr.contains PyStr.underscore (a ++ "_" ++ b)%string = true.
Proof.
  induction a as [|c a IH]; simpl in *.
  - reflexivity.
  - rewrite IH. apply orb_true_r.
Qed.

Lemma append_underscore_inj (n1 n2 s1 s2 : string) :
  PyStr.contains PyStr.underscore s1 = false ->
  PyStr.contains PyStr.underscore s2 = false ->
  (n1 ++ "_" ++ s1)%string = (n2 ++ "_" ++ s2)%string ->
  n1 = n2 /\ s1 = s2.
Proof.
  intros H1 H2. revert n2. induction n1 as [|c n1 IH]; intros [|d n2] E.
  - injection E as E. auto.
  - injection E as _ E.
    assert (Hc : PyStr.contains PyStr.underscore s1 = true)
      by (rewrite E; apply contains_underscore_app).
    congruence.
  - injection E as _ E.
    assert (Hc : PyStr.contains PyStr.underscore s2 = true)
      by (rewrite <- E; apply contains_underscore_app).
    congruence.
  - injection E as -> E. destruct (IH n2 E) as [-> ->]. auto.
Qed.

(** X17: the two branches of the naming convention of [_bake_all_maps] give
    the same image name, the name of the material followed by an underscore
    and the channel suffix: splitting the name at its underscores and joining
    the parts again changes nothing.  For the five channel suffixes the image
    name determines both the material name and the channel, so the images of
    two materials with different names, or of two channels, never replace one
    another in [bpy.data.images]. *)
Theorem image_names_do_not_collide :
  (forall name suffix : string,
      map_name_of name suffix = (name ++ "_" ++ suffix)%string)
  /\ (forall name : string,
        PyStr.join "_" (PyStr.split PyStr.underscore name) = name)
  /\ (forall name1 name2 suffix1 suffix2 : string,
        In suffix1 (map snd BAKE_TYPES) ->
        In suffix2 (map snd BAKE_TYPES) ->
        map_name_of name1 suffix1 = map_name_of name2 suffix2 ->
        name1 = name2 /\ suffix1 = suffix2).
Proof.
  split; [exact map_name_of_eq|]. split; [exact join_split|].
  intros name1 name2 suffix1 suffix2 H1 H2. rewrite !map_name_of_eq.
  apply append_underscore_inj.
  - cbn in H1. repeat (destruct H1 as [<-|H1]; [reflexivity|]). destruct H1.
  - cbn in H2. repeat (destruct H2 as [<-|H2]; [reflexivity|]). destruct H2.
Qed.

End NameFacts.


(** ** The bake target through the channels *)

Section TargetKept.



(** *** [setup_bake_node] *)


(** *** [bake_node.image = image] *)



(** *** The metallic reroute and its restore *)







End TargetKept.

(** ** The output node keeps its [Surface] input *)

Section OutputKept.







End OutputKept.


(** ** A material whose channels all bake *)

Section CalmFacts.






Variables (m : mat_id) (name : string) (w0 : World).










Hypothesis H_bake : forall n, bake_raises n = false.
Hypothesis H_save : forall n, save_raises n = false.
Hypothesis H_dirs : forall p, makedirs_raises p = false.

Collection Calm := H_bake H_save H_dirs.






End CalmFacts.

Section CalmRun.





Hypothesis H_bake : forall n, bake_raises n = false.
Hypothesis H_save : forall n, save_raises n = false.
Hypothesis H_dirs : forall p, makedirs_raises p = false.

Collection CalmRun := H_bake H_save H_dirs.





End CalmRun.


Section CalmClaims.



End CalmClaims.

End Script.

(** * The claims on the example scenes *)

Local Abbreviation run bake :=
  (execute Example.hash Example.unsorted Example.as_written Example.order bake
        Example.never Example.no_path_fails
           "/project/scene.blend" Example.dirname Example.join true).

Local Abbreviation bake_one bake :=
  (bake_material Example.hash Example.unsorted bake Example.never Example.no_path_fails
                 Example.join 0 "/out").

Local Abbreviation metallic_step bake :=
  (bake_and_restore bake Example.never Example.join 0 "EMIT" "metallic"
                    "M_metallic" "/out" "M_metallic").

(** C1, on the code: [A] and [B] share the material [M] and have different,
    non-sentinel fingerprints.  After [duplicate_shared_materials] both slots
    still hold [M] and the scene has no other material: no clone was made.
    The two usages sit in different groups of one member each, so the branch
    that copies the material is never reached. *)
Theorem resolver_keeps_divergent_uvs_shared :
  get_uv_hash Example.hash Example.unsorted Example.A (Some 0) = Ok (uv_hash 1764770)
  /\ get_uv_hash Example.hash Example.unsorted Example.B (Some 0) = Ok (uv_hash 1774770)
  /\ read_slot (0, 0)
       (snd (duplicate_shared_materials Example.hash Example.unsorted Example.as_written
             Example.different_uvs))
     = (Ok (Some 0),
        snd (duplicate_shared_materials Example.hash Example.unsorted Example.as_written
              Example.different_uvs))
  /\ read_slot (1, 0)
       (snd (duplicate_shared_materials Example.hash Example.unsorted Example.as_written
             Example.different_uvs))
     = (Ok (Some 0),
        snd (duplicate_shared_materials Example.hash Example.unsorted Example.as_written
              Example.different_uvs))
  /\ map mat_ident
       (bpy_materials
          (snd (duplicate_shared_materials Example.hash Example.unsorted
                Example.as_written Example.different_uvs)))
     = [0].
Proof. vm_compute. repeat split. Qed.

(** C3, on the code: on a material whose graph has no link the snapshot is
    the empty list, the test [if original_links:] fails and
    [restore_material_links] is not called, whether the metallic bake
    succeeds or raises; the emission and value nodes stay in the graph.  With
    one link in the graph the restore is called once. *)
Theorem restore_skipped_on_empty_snapshot :
  (fst (bake_one Example.never Example.unlinked) = Ok true
   /\ Example.reroutes (events (snd (bake_one Example.never Example.unlinked))) = [0]
   /\ Example.restores (events (snd (bake_one Example.never Example.unlinked))) = []
   /\ option_map (fun t => map node_type (nodes t))
        (tree_of 0 (snd (bake_one Example.never Example.unlinked)))
      = Some [BSDF_PRINCIPLED; OUTPUT_MATERIAL; TEX_IMAGE; EMISSION; VALUE])
  /\ (fst (bake_one Example.fifth_call Example.unlinked) = Ok false
      /\ Example.reroutes (events (snd (bake_one Example.fifth_call Example.unlinked)))
         = [0]
      /\ Example.restores (events (snd (bake_one Example.fifth_call Example.unlinked)))
         = [])
  /\ Example.restores
       (events (snd (bake_one Example.fifth_call (Example.world_of [Example.A] default_tree))))
     = [0].
Proof. vm_compute. repeat split. Qed.




(** C7, as stated, fails on its scenario: with [A] and [B] sharing [M] on
    identical UVs the material is renamed [M_MASTER_A] before the bake, and
    the diffuse file is [M_MASTER_A_diffuse.png]; no file [M_A_diffuse.png]
    is written. *)
Lemma shared_material_files_carry_master_marker :
  hd_error (Example.saved_files (events (snd (run Example.never Example.same_uvs))))
  = Some "M_MASTER_A_diffuse.png"
  /\ ~ In "M_A_diffuse.png"
          (Example.saved_files (events (snd (run Example.never Example.same_uvs)))).
Proof.
  vm_compute. split; [reflexivity|].
  intros H. repeat (destruct H as [H|H]; [discriminate H|]). exact H.
Qed.

(** C7, as the code has it: the image name of a channel is the material name
    followed by [_] and the channel suffix.  A name holding an underscore is
    cut at its first underscore into a base name and the rest, and the image
    name is [base_rest_channel]; a name without underscore gives
    [name_channel].  Every file [bake_one_map] saves bears that name with the
    extension [.png].  For [A] and [B] sharing [M] on identical UVs the
    material is called [M_MASTER_A] when it is baked, and the five files are
    [M_MASTER_A_diffuse.png] to [M_MASTER_A_metallic.png]. *)
Theorem image_name_follows_material_name :
  (forall name suffix : string,
      PyStr.contains PyStr.underscore name = true ->
      exists base owner,
        hd_error (PyStr.split PyStr.underscore name) = Some base
        /\ owner = PyStr.join "_" (tl (PyStr.split PyStr.underscore name))
        /\ PyStr.contains PyStr.underscore base = false
        /\ name = (base ++ "_" ++ owner)%string
        /\ map_name_of name suffix = (base ++ "_" ++ owner ++ "_" ++ suffix)%string)
  /\ (forall name suffix : string,
        PyStr.contains PyStr.underscore name = false ->
        map_name_of name suffix = (name ++ "_" ++ suffix)%string)
  /\ (forall (bake_raises save_raises : nat -> bool)
             (os_path_join : string -> string -> string)
             (m : mat_id) (bake_node : node_id) (path bake_type suffix : string)
             (mat : Material) (w : World),
        find_material m w = Some mat ->
        saves_as (os_path_join path (map_name_of (mat_name mat) suffix ++ ".png")%string)
                 (map_name_of (mat_name mat) suffix ++ ".png")%string
                 w
                 (snd (bake_one_map bake_raises save_raises os_path_join
                                    m bake_node path (bake_type, suffix) w)))
  /\ option_map mat_name
       (find_material 0 (snd (run Example.never Example.same_uvs)))
     = Some "M_MASTER_A"
  /\ Example.saved_files (events (snd (run Example.never Example.same_uvs)))
     = ["M_MASTER_A_diffuse.png"; "M_MASTER_A_normal.png";
        "M_MASTER_A_roughness.png"; "M_MASTER_A_ao.png";
        "M_MASTER_A_metallic.png"].
Proof.
  split; [exact map_name_of_marked|].
  split; [exact map_name_of_plain|].
  split; [exact bake_one_map_saves|].
  vm_compute. split; reflexivity.
Qed.

Lemma image_name_follows_material_name_witness :
  (exists base owner,
      hd_error (PyStr.split PyStr.underscore "M_MASTER_A") = Some base
      /\ owner = PyStr.join "_" (tl (PyStr.split PyStr.underscore "M_MASTER_A"))
      /\ PyStr.contains PyStr.underscore base = false
      /\ "M_MASTER_A" = (base ++ "_" ++ owner)%string
      /\ map_name_of "M_MASTER_A" "diffuse"
         = (base ++ "_" ++ owner ++ "_" ++ "diffuse")%string)
  /\ map_name_of "M" "diffuse" = "M_diffuse"
  /\ saves_as "/out/M_diffuse.png" "M_diffuse.png"
       Example.different_uvs
       (snd (bake_one_map Example.never Example.never Example.join
                          0 2 "/out" ("DIFFUSE", "diffuse") Example.different_uvs)).
Proof.
  split; [|split].
  - apply (proj1 image_name_follows_material_name "M_MASTER_A" "diffuse").
    reflexivity.
  - apply (proj1 (proj2 image_name_follows_material_name) "M" "diffuse").
    reflexivity.
  - apply (proj1 (proj2 (proj2 image_name_follows_material_name))
             Example.never Example.never Example.join 0 2 "/out" "DIFFUSE"
             "diffuse" (Example.material_of default_tree) Example.different_uvs).
    reflexivity.
Defined.

(** C5, as stated, fails on a mesh with a NaN among its UV coordinates: the
    two faces of [D] contribute the same two pairs in either order, but
    neither pair is less than the other, so [list.sort] leaves each list as
    it finds it, two different lists are hashed, and the two traversal orders
    give two fingerprints. *)
Lemma get_uv_hash_order_matters_with_nan :
  collect_polygons Example.D (Some 0) (polygons (data Example.D)) []
  = Ok [(NotANumber, Num 0); (Num 0, Num 0)]
  /\ collect_polygons Example.D_reversed (Some 0)
       (polygons (data Example.D_reversed)) []
     = Ok [(Num 0, Num 0); (NotANumber, Num 0)]
  /\ Permutation [(NotANumber, Num 0); (Num 0, Num 0)]
                 [(Num 0, Num 0); (NotANumber, Num 0)]
  /\ uv_lt (NotANumber, Num 0) (Num 0, Num 0) = false
  /\ uv_lt (Num 0, Num 0) (NotANumber, Num 0) = false
  /\ (forall sort_with_nan : list uv_coord -> list uv_coord,
        get_uv_hash Example.hash sort_with_nan Example.D (Some 0)
        = Ok (uv_hash (Example.hash [(NotANumber, Num 0); (Num 0, Num 0)]))
        /\ get_uv_hash Example.hash sort_with_nan Example.D_reversed (Some 0)
           = Ok (uv_hash (Example.hash [(Num 0, Num 0); (NotANumber, Num 0)]))
        /\ get_uv_hash Example.hash sort_with_nan Example.D (Some 0)
           <> get_uv_hash Example.hash sort_with_nan Example.D_reversed (Some 0)).
Proof.
  split; [reflexivity|]. split; [reflexivity|]. split; [apply perm_swap|].
  split; [reflexivity|]. split; [reflexivity|].
  intros sort_with_nan. split; [reflexivity|]. split; [reflexivity|].
  vm_compute. intros H. discriminate H.
Qed.

(** ** The general statements at the example scenes *)


Lemma get_uv_hash_order_independent_witness :
  get_uv_hash Example.hash Example.unsorted Example.A (Some 0)
  = get_uv_hash Example.hash Example.unsorted Example.B_like_A (Some 0)
  /\ Permutation
       (sort Example.unsorted (Example.pairs [(0, 0); (10000, 0); (5000, 3333)]%Z))
       (Example.pairs [(0, 0); (10000, 0); (5000, 3333)]%Z)
  /\ StronglySorted uv_le
       (sort Example.unsorted (Example.pairs [(0, 0); (10000, 0); (5000, 3333)]%Z))
  /\ (forall x1 y1 x2 y2 : Z,
        uv_le (Num x1, Num y1) (Num x2, Num y2)
        <-> (x1 < x2 \/ (x1 = x2 /\ y1 <= y2))%Z)
  /\ get_uv_hash Example.hash Example.unsorted Example.A (Some 0)
     = Ok (match sort Example.unsorted
                   (Example.pairs [(0, 0); (10000, 0); (5000, 3333)]%Z) with
           | [] => empty_uv
           | s => uv_hash (Example.hash s)
           end).
Proof.
  apply (get_uv_hash_order_independent Example.hash Example.unsorted
           Example.A Example.B_like_A (Some 0) (Some 0)
           (Example.pairs [(0, 0); (10000, 0); (5000, 3333)]%Z)
           (Example.pairs [(5000, 3333); (0, 0); (10000, 0)]%Z)).
  - discriminate.
  - discriminate.
  - now left.
  - now left.
  - reflexivity.
  - reflexivity.
  - intros p [<-|[<-|[<-|[]]]]; reflexivity.
  - apply Permutation_sym.
    apply (Permutation_cons_append
             (Example.pairs [(0, 0); (10000, 0)]%Z) (Num 5000, Num 3333)%Z).
Defined.

Lemma get_uv_hash_bad_material_index_witness :
  get_uv_hash Example.hash Example.unsorted Example.A_stray (Some 0) = Ok empty_uv
  \/ get_uv_hash Example.hash Example.unsorted Example.A_stray (Some 0) = Ok material_not_found
  \/ get_uv_hash Example.hash Example.unsorted Example.A_stray (Some 0) = Ok no_uv.
Proof.
  apply (proj2 (proj2 (get_uv_hash_bad_material_index Example.hash Example.unsorted
        Example.A_stray
                         (Some 0)))).
  intros p [<-|[]]. reflexivity.
Defined.

Lemma sentinel_fingerprints_witness :
  get_uv_hash Example.hash Example.unsorted Example.no_uv_object (Some 0) = Ok no_uv
  /\ get_uv_hash Example.hash Example.unsorted Example.A (Some 5) = Ok material_not_found
  /\ get_uv_hash Example.hash Example.unsorted Example.A_stray (Some 0) = Ok empty_uv
  /\ process_group Example.hash Example.unsorted
        Example.as_written ((0, no_uv), [(0, 0); (1, 0)]) Example.same_uvs
     = (Ok tt, Example.same_uvs).
Proof.
  split; [|split; [|split]].
  - apply (proj1 (sentinel_fingerprints Example.hash Example.unsorted Example.as_written
        Example.no_uv_object (Some 0))).
    reflexivity.
  - apply (proj1 (proj2 (sentinel_fingerprints Example.hash Example.unsorted
        Example.as_written Example.A (Some 5)))).
    + discriminate.
    + intros [H|[]]. discriminate H.
  - apply (proj1 (proj2 (proj2 (sentinel_fingerprints Example.hash Example.unsorted
        Example.as_written Example.A_stray
                                  (Some 0))))).
    + discriminate.
    + now left.
    + intros p [<-|[]] H. discriminate H.
  - apply (proj1 (proj2 (proj2 (proj2 (sentinel_fingerprints Example.hash
        Example.unsorted Example.as_written Example.A
                                         (Some 0)))))).
    reflexivity.
Defined.

Lemma channel_failure_fails_material_only_witness :
  exists r,
    fst (run Example.first_call Example.two_materials) = Some r
    /\ total r = List.length [0; 1]
    /\ visited (events (snd (run Example.first_call Example.two_materials))) = [0; 1]
    /\ raise_ends (events (snd (run Example.first_call Example.two_materials)))
    /\ success_count r
       + List.length
           (filter (failed_by_bake
                      (events (snd (run Example.first_call Example.two_materials))))
                   [0; 1])
       <= total r.
Proof.
  apply (proj2 (channel_failure_fails_material_only Example.hash Example.unsorted
        Example.as_written Example.order
                  Example.first_call Example.never Example.no_path_fails
                  "/project/scene.blend" Example.dirname Example.join true
                  (fun l => NoDup_nodup Nat.eq_dec l))
           Example.two_materials "/project/BakedTextures" [0; 1]
           (snd (prepare Example.hash Example.unsorted Example.as_written Example.order
                 Example.no_path_fails
                         "/project/scene.blend" Example.dirname Example.join true
                         Example.two_materials))).
  - reflexivity.
  - vm_compute. reflexivity.
Defined.

Lemma bake_target_stays_after_run_witness :
  has_bake_target 0 (snd (run Example.never Example.same_uvs))
  /\ In Example.principled
        (nodes (snd (restore_material_links_tree (links default_tree)
                                                 Example.tree_with_emission))).
Proof.
  split.
  - apply (proj1 (bake_target_stays_after_run Example.hash Example.unsorted
        Example.as_written Example.order
                    Example.never Example.never Example.no_path_fails
                    "/project/scene.blend" Example.dirname Example.join true)
             Example.same_uvs
             {| success_count := 1; total := 1;
                output_path := "/project/BakedTextures" |}
             (snd (run Example.never Example.same_uvs))).
    + reflexivity.
    + vm_compute. reflexivity.
    + exists (EvBake "DIFFUSE" 0 (Some 0) false). split.
      * vm_compute. repeat ((left; reflexivity) || right).
      * reflexivity.
  - apply (proj2 (bake_target_stays_after_run Example.hash Example.unsorted
        Example.as_written Example.order
                    Example.never Example.never Example.no_path_fails
                    "/project/scene.blend" Example.dirname Example.join true)).
    + now left.
    + reflexivity.
Defined.

(** ** The folders and the materials of the example scenes *)

Lemma get_output_path_creates_once_witness :
  (forall w,
      get_output_path Example.no_path_fails "" Example.dirname Example.join w
      = (Raise (Exception "please save blender file"), w))
  /\ snd (get_output_path (fun _ => true) "/project/scene.blend"
            Example.dirname Example.join Example.same_uvs)
     = Example.same_uvs
  /\ ("/project/scene.blend" <> ""
      /\ "/project/BakedTextures" = Example.join (Example.dirname "/project/scene.blend")
                                      "BakedTextures"
      /\ path_exists "/project/BakedTextures"
           (with_directories (fun ds => ds ++ ["/project/BakedTextures"])
                             Example.same_uvs) = true
      /\ (forall d, path_exists d Example.same_uvs = true ->
                    path_exists d
                      (with_directories (fun ds => ds ++ ["/project/BakedTextures"])
                                        Example.same_uvs) = true)
      /\ get_output_path Example.no_path_fails "/project/scene.blend"
           Example.dirname Example.join
           (with_directories (fun ds => ds ++ ["/project/BakedTextures"])
                             Example.same_uvs)
         = (Ok "/project/BakedTextures",
            with_directories (fun ds => ds ++ ["/project/BakedTextures"])
                             Example.same_uvs)).
Proof.
  split; [|split].
  - apply (proj1 (get_output_path_creates_once Example.no_path_fails ""
                    Example.dirname Example.join)).
    reflexivity.
  - apply (proj1 (proj2 (get_output_path_creates_once
                           (fun _ => true) "/project/scene.blend"
                           Example.dirname Example.join))
             Example.same_uvs (OSError "/project/BakedTextures")).
    reflexivity.
  - apply (proj2 (proj2 (get_output_path_creates_once Example.no_path_fails
                           "/project/scene.blend" Example.dirname Example.join))
             Example.same_uvs).
    reflexivity.
Defined.

Lemma create_material_folder_creates_once_witness :
  create_material_folder Example.no_path_fails Example.join "M" "/out"
    (with_directories (fun _ => ["/out/M"]) Example.same_uvs)
  = (Ok "/out/M", with_directories (fun _ => ["/out/M"]) Example.same_uvs)
  /\ (OSError "/out/M" = OSError (Example.join "/out" "M")
      /\ Example.same_uvs = Example.same_uvs
      /\ path_exists (Example.join "/out" "M") Example.same_uvs = false
      /\ (fun _ : string => true) (Example.join "/out" "M") = true)
  /\ ("/out/M" = Example.join "/out" "M"
      /\ path_exists "/out/M"
           (with_directories (fun ds => ds ++ ["/out/M"]) Example.same_uvs) = true
      /\ (forall d, path_exists d Example.same_uvs = true ->
                    path_exists d
                      (with_directories (fun ds => ds ++ ["/out/M"]) Example.same_uvs)
                    = true)
      /\ create_material_folder Example.no_path_fails Example.join "M" "/out"
           (with_directories (fun ds => ds ++ ["/out/M"]) Example.same_uvs)
         = (Ok "/out/M",
            with_directories (fun ds => ds ++ ["/out/M"]) Example.same_uvs)).
Proof.
  split; [|split].
  - apply (proj1 (create_material_folder_creates_once Example.no_path_fails
                    Example.join "M" "/out"
                    (with_directories (fun _ => ["/out/M"]) Example.same_uvs))).
    reflexivity.
  - apply (proj1 (proj2 (create_material_folder_creates_once (fun _ => true)
                           Example.join "M" "/out" Example.same_uvs))).
    reflexivity.
  - apply (proj2 (proj2 (create_material_folder_creates_once Example.no_path_fails
                           Example.join "M" "/out" Example.same_uvs))).
    reflexivity.
Defined.

Lemma get_all_materials_of_meshes_witness :
  NoDup (get_all_materials Example.order Example.two_materials)
  /\ (forall m,
        In m (get_all_materials Example.order Example.two_materials)
        <-> exists obj, In obj (scene_objects Example.two_materials)
                        /\ obj_type obj = MESH
                        /\ In (Some m) (material_slots obj)).
Proof.
  apply (get_all_materials_of_meshes Example.order).
  - intros l. apply NoDup_nodup.
  - intros l x. apply nodup_In.
Defined.

Lemma cleanup_unused_materials_keeps_used_witness :
  find_material 0 (snd (cleanup_unused_materials Example.same_uvs))
  = find_material 0 Example.same_uvs.
Proof.
  apply (proj1 (proj2 (proj2 (proj2 (cleanup_unused_materials_keeps_used
                                       Example.same_uvs))))).
  exists Example.A. split; [now left | now left].
Defined.

(** ** The graphs of the example scenes *)

Lemma setup_bake_node_replaces_target_witness :
  List.length
    (nodes (snd (setup_bake_node_tree (snd (setup_bake_node_tree default_tree)))))
  = List.length (nodes (snd (setup_bake_node_tree default_tree)))
  /\ nodes_get "Bake_Target" (snd (setup_bake_node_tree default_tree))
     = Some (target_node 2).
Proof.
  destruct (setup_bake_node_replaces_target (snd (setup_bake_node_tree default_tree)))
    as [_ [_ [_ [_ [_ [_ [Hlen _]]]]]]].
  - vm_compute. repeat (constructor; [simpl; intuition discriminate|]). constructor.
  - vm_compute. repeat (constructor; [simpl; intuition discriminate|]). constructor.
  - split.
    + apply Hlen. vm_compute. discriminate.
    + destruct (setup_bake_node_replaces_target default_tree) as [_ [Hget _]].
      * vm_compute. repeat (constructor; [simpl; intuition discriminate|]). constructor.
      * vm_compute. repeat (constructor; [simpl; intuition discriminate|]). constructor.
      * exact Hget.
Defined.


Lemma restore_material_links_leaves_no_temporary_witness :
  In {| from_socket := node_output0 Example.principled;
        to_socket := node_input Example.output "Surface" |}
     (links (snd (restore_material_links_tree
                    (links default_tree) Example.tree_with_emission)))
  /\ fst (restore_material_links_tree
            [{| from_socket := node_output0 Example.artist_emission;
                to_socket := node_input Example.output "Surface" |}]
            Example.tree_with_emission)
     = Ok tt.
Proof.
  split.
  - apply (proj2 (proj2 (proj2 (proj2
             (restore_material_links_leaves_no_temporary
                (links default_tree) Example.tree_with_emission))))).
    + repeat constructor. simpl. tauto.
    + now left.
    + reflexivity.
    + reflexivity.
  - apply (proj1 (proj2 (proj2
             (restore_material_links_leaves_no_temporary _ _)))).
Defined.

(** ** The UV groups of the example scenes *)



(** ** The fingerprints of the example meshes *)

Lemma get_uv_hash_faces_of_material_witness :
  (exists fp, get_uv_hash Example.hash Example.unsorted Example.A (Some 0) = Ok fp)
  /\ exists p, In p (polygons (data Example.A))
               /\ face_of Example.A (Some 0) p = true
               /\ loop_indices p <> [].
Proof.
  split.
  - apply (proj1 (proj2 (proj2 (get_uv_hash_faces_of_material Example.hash
                                  Example.unsorted Example.A (Some 0))))).
    intros p idx [<-|[]] _ Hidx.
    exists Example.layout1.
    destruct Hidx as [<-|[<-|[<-|[]]]]; eexists; split; reflexivity.
  - apply (proj2 (proj2 (proj2 (get_uv_hash_faces_of_material Example.hash
                                  Example.unsorted Example.A (Some 0)))) 1764770%Z).
    reflexivity.
Defined.

(** ** The resolver on the example scenes *)


Lemma material_kept_unless_shared_witness :
  find_material 0 (snd (duplicate_shared_materials Example.hash Example.unsorted
        Example.as_written Example.different_uvs))
  = find_material 0 Example.different_uvs.
Proof.
  apply (material_kept_unless_shared Example.hash Example.unsorted Example.as_written
        Example.different_uvs 0).
  intros [o1 s1] [o2 s2] obj1 obj2 h H1 _ S1 Hh1 H2 _ S2 Hh2.
  cbn [fst snd] in *.
  assert (Hs : forall (obj : Object) s,
             nth_error (material_slots obj) s = Some (Some 0) ->
             material_slots obj = [Some 0] -> s = 0).
  { intros obj s Hn E. rewrite E in Hn.
    destruct s as [|[|s]]; [reflexivity | discriminate Hn | discriminate Hn]. }
  destruct o1 as [|[|o1]]; cbn in H1;
    [injection H1 as <- | injection H1 as <- | destruct o1; discriminate H1];
    (destruct o2 as [|[|o2]]; cbn in H2;
     [injection H2 as <- | injection H2 as <- | destruct o2; discriminate H2]);
    rewrite (Hs _ s1 S1 eq_refl), (Hs _ s2 S2 eq_refl); try reflexivity;
    vm_compute in Hh1, Hh2; congruence.
Defined.

(** ** A run on the example scenes *)



Lemma bake_material_files_witness :
  name_of 0 (snd (bake_material Example.hash Example.unsorted Example.never Example.never
                    Example.no_path_fails Example.join 0 "/out"
                    Example.different_uvs)) = Some "M"
  /\ exists new,
       events (snd (bake_material Example.hash Example.unsorted Example.never Example.never
                      Example.no_path_fails Example.join 0 "/out"
                      Example.different_uvs))
       = events Example.different_uvs ++ new
       /\ forall fp f raised,
            In (EvSave fp f raised) new ->
            is_map_file Example.join "/out" "M" fp f.
Proof.
  apply (bake_material_files Example.hash Example.unsorted Example.never Example.never
           Example.no_path_fails Example.join 0 "M" "/out" Example.different_uvs).
  reflexivity.
Defined.

Lemma image_names_do_not_collide_witness :
  "M_MASTER_A" = "M_MASTER_A" /\ "diffuse" = "diffuse".
Proof.
  apply (proj2 (proj2 image_names_do_not_collide) "M_MASTER_A" "M_MASTER_A"
           "diffuse" "diffuse").
  - now left.
  - now left.
  - reflexivity.
Defined.

(** ** A material that bakes, and one whose mesh is outside the view layer *)




